(** * Verification model of the mctiers players editor and viewer

    Shallow embedding of [assets/players.js] (the editor, here
    [src/unnamed/part_000]) and [src/players-view.js] (the read-only viewer).

    Model conventions.
    - JavaScript values are [val]; objects are association lists in the
      order their properties were created.  JS enumerates integer-like keys
      first; no key the code reads is integer-like, and the model does not
      reorder them.
    - Numbers are [num], the binary64 values of the Standard Library's
      [SpecFloat] ([S754_zero], [S754_infinity], [S754_nan],
      [S754_finite]).  Every number the code makes is a valid one
      ([num_ok]): [Number(text)] and [JSON.parse] round to nearest, ties to
      even, and [Number.prototype.toString] prints the shortest decimal
      that reads back to the same value.
    - Strings are sequences of 8-bit code units ([string]).
    - An exception is [None] in the code's monad; state changes made before
      a throw are kept, as in JavaScript. *)

From Stdlib Require Import String Ascii ZArith List Bool Lia SpecFloat.
From Stdlib Require Import Sorting.Sorted Sorting.Permutation.
From stdpp Require Import base gmap strings.
Import ListNotations.
Open Scope string_scope.
#[local] Set Warnings "-register-all".
(* stdpp makes [String.append] opaque to [simpl]; the proofs compute with it. *)
#[local] Arguments String.append : simpl nomatch.

(* ------------------------------------------------------------------ *)
(** ** Values *)

(** IEEE 754 binary64: 53 bits of precision, largest exponent 1024. *)
Definition num : Type := spec_float.
Abbreviation NaN := S754_nan.
Definition prec : Z := 53.
Definition emax : Z := 1024.

(** A binary64 value in canonical form. *)
Definition num_ok (x : num) : bool := valid_binary prec emax x.

Definition num_finite (x : num) : bool :=
  match x with S754_zero _ | S754_finite _ _ _ => true | _ => false end.

Inductive val : Type :=
| VUndef
| VNull
| VBool (b : bool)
| VNum (n : num)
| VStr (s : string)
| VArr (xs : list val)
| VObj (ps : list (string * val))
| VFun (name : string).

Definition obj : Type := list (string * val).

(** Own property lookup (first occurrence). *)
Fixpoint own_get (ps : obj) (k : string) : option val :=
  match ps with
  | [] => None
  | (k', v) :: ps' => if String.eqb k k' then Some v else own_get ps' k
  end.

(** Assignment [o[k] = v]: overwrite in place, or append a new property. *)
Fixpoint obj_set (ps : obj) (k : string) (v : val) : obj :=
  match ps with
  | [] => [(k, v)]
  | (k', v') :: ps' =>
      if String.eqb k k' then (k', v) :: ps' else (k', v') :: obj_set ps' k v
  end.

(** Members of [Object.prototype], seen by [o[k]] when [o] has no own [k]. *)
Definition object_prototype_methods : list string :=
  ["constructor"; "hasOwnProperty"; "isPrototypeOf"; "propertyIsEnumerable";
   "toLocaleString"; "toString"; "valueOf"; "__defineGetter__";
   "__defineSetter__"; "__lookupGetter__"; "__lookupSetter__"].

(** [o[k]] on a plain object: own property, else the prototype chain.
    [__proto__] yields [Object.prototype] itself, an object without own
    properties. *)
Definition obj_get (ps : obj) (k : string) : val :=
  match own_get ps k with
  | Some v => v
  | None =>
      if String.eqb k "__proto__" then VObj []
      else if existsb (String.eqb k) object_prototype_methods then VFun k
      else VUndef
  end.

(** [item.k] for the fixed keys the normalizer reads ([rank], [name],
    [player], [username], [tier], [Tier], [TIER], [points]): none of them is
    a member of a prototype of a string, number, boolean or array, so only
    own properties of objects are found; [null.k] and [undefined.k] throw. *)
Definition get_field (v : val) (k : string) : option val :=
  match v with
  | VUndef | VNull => None
  | VObj ps => Some (match own_get ps k with Some x => x | None => VUndef end)
  | _ => Some VUndef
  end.

(** Truthiness, [a || b] and [a ?? b]. *)
Definition truthy (v : val) : bool :=
  match v with
  | VUndef | VNull => false
  | VBool b => b
  | VNum (S754_zero _) | VNum NaN => false
  | VStr s => negb (String.eqb s "")
  | _ => true
  end.

Definition js_or (a b : val) : val := if truthy a then a else b.

Definition nullish (v : val) : bool :=
  match v with VUndef | VNull => true | _ => false end.

Definition js_coalesce (a b : val) : val := if nullish a then b else a.

(* ------------------------------------------------------------------ *)
(** ** Numbers: rounding, [Number::toString], [StringToNumber] *)

Definition digit_char (d : N) : ascii := ascii_of_N (48 + d).

Definition is_digit (c : ascii) : bool :=
  let n := N_of_ascii c in (48 <=? n)%N && (n <=? 57)%N.

Definition digit_val (c : ascii) : N := (N_of_ascii c - 48)%N.

(** Digits of [n], most significant first; [fuel] bounds the length. *)
Fixpoint N_digits (fuel : nat) (n : N) : string :=
  match fuel with
  | O => EmptyString
  | S f =>
      if (n <? 10)%N then String (digit_char n) EmptyString
      else N_digits f (n / 10) ++ String (digit_char (n mod 10)) EmptyString
  end.

Definition N_to_dec (n : N) : string := N_digits (S (N.to_nat (N.size n))) n.

(** [Number.prototype.toString] on an integer. *)
Definition Z_to_dec (z : Z) : string :=
  if (z <? 0)%Z then "-" ++ N_to_dec (Z.abs_N z) else N_to_dec (Z.to_N z).

(** Value of a non-empty all-digit string. *)
Fixpoint digits_value (acc : N) (s : string) : option N :=
  match s with
  | EmptyString => Some acc
  | String c s' =>
      if is_digit c then digits_value (acc * 10 + digit_val c)%N s' else None
  end.

Definition parse_digits (s : string) : option N :=
  match s with
  | EmptyString => None
  | _ => digits_value 0%N s
  end.

(** White space and line terminators stripped by [String.prototype.trim]
    and by [StringToNumber] (TAB, LF, VT, FF, CR, SPACE, NBSP). *)
Definition is_js_space (c : ascii) : bool :=
  existsb (N.eqb (N_of_ascii c)) [9; 10; 11; 12; 13; 32; 160]%N.

Fixpoint trim_start (s : string) : string :=
  match s with
  | String c s' => if is_js_space c then trim_start s' else s
  | EmptyString => EmptyString
  end.

Fixpoint string_rev (s : string) : string :=
  match s with
  | EmptyString => EmptyString
  | String c s' => string_rev s' ++ String c EmptyString
  end.

Definition trim_end (s : string) : string := string_rev (trim_start (string_rev s)).

Definition trim (s : string) : string := trim_end (trim_start s).

(** Every character of [s] satisfies [p]. *)
Fixpoint all_chars (p : ascii -> bool) (s : string) : bool :=
  match s with
  | EmptyString => true
  | String c s' => p c && all_chars p s'
  end.

(** The longest prefix of decimal digits, and the rest. *)
Fixpoint span_digits (s : string) : string * string :=
  match s with
  | String c r =>
      if is_digit c then let '(d, r') := span_digits r in (String c d, r') else (EmptyString, s)
  | EmptyString => (EmptyString, EmptyString)
  end.

(** [floor(log2(p/q))] *)
Definition cdiv (a b : Z) : Z := (a / b + (if (a mod b =? 0)%Z then 0 else 1))%Z.
Definition flog2 (p q : Z) : Z :=
  if (q <=? p)%Z then Z.log2 (p / q) else (- Z.log2_up (cdiv q p))%Z.

(** Rounding of [P / Q * 2 ^ e] to nearest, ties to even, for [P / Q] below
    [2 ^ prec]; a carry out of the mantissa moves to the next exponent. *)
Definition round_frac (neg : bool) (P Q e : Z) : num :=
  let m0 := (P / Q)%Z in
  let r := (P mod Q)%Z in
  let m := if (Q <? 2 * r)%Z || ((2 * r =? Q)%Z && Z.odd m0) then (m0 + 1)%Z else m0 in
  let '(m, e) := if (m =? 2 ^ prec)%Z then ((2 ^ (prec - 1))%Z, (e + 1)%Z) else (m, e) in
  if (m =? 0)%Z then S754_zero neg
  else if (emax - prec <? e)%Z then S754_infinity neg
  else S754_finite neg (Z.to_pos m) e.

(** The double nearest to [p / q] (negated when [neg]). *)
Definition round_pq (neg : bool) (p q : positive) : num :=
  let e := Z.max (flog2 (Zpos p) (Zpos q) - (prec - 1)) (emin prec emax) in
  if (0 <=? e)%Z then round_frac neg (Zpos p) (Zpos q * 2 ^ e) e
  else round_frac neg (Zpos p * 2 ^ (- e)) (Zpos q) e.

(** The double nearest to [a * 2 ^ e]. *)
Definition round_dyadic (neg : bool) (a : positive) (e : Z) : num :=
  if (0 <=? e)%Z then round_pq neg (a * Z.to_pos (2 ^ e)) 1
  else round_pq neg a (Z.to_pos (2 ^ (- e))).

(** The double nearest to [d * 10 ^ e] (negated when [neg]); a zero keeps
    the sign. *)
Definition dec_round (neg : bool) (d : Z) (e : Z) : num :=
  match d with
  | Zpos p => if (0 <=? e)%Z then round_pq neg (p * Z.to_pos (10 ^ e)) 1
              else round_pq neg p (Z.to_pos (10 ^ (- e)))
  | _ => S754_zero neg
  end.

(** An integer as a number: [dec_round] of its absolute value. *)
Definition num_of_Z (z : Z) : num := dec_round (z <? 0)%Z (Z.abs z) 0.

(** Identity of two values (the sign of a zero counts). *)
Definition num_eqb (a b : num) : bool :=
  match a, b with
  | S754_zero s, S754_zero s' => Bool.eqb s s'
  | S754_infinity s, S754_infinity s' => Bool.eqb s s'
  | S754_nan, S754_nan => true
  | S754_finite s m e, S754_finite s' m' e' => Bool.eqb s s' && Pos.eqb m m' && Z.eqb e e'
  | _, _ => false
  end.

(** [s * 10 ^ j] with the trailing zeros of [s] moved into [j]. *)
Fixpoint strip_zeros (fuel : nat) (s j : Z) : Z * Z :=
  match fuel with
  | O => (s, j)
  | S f => if (0 <? s)%Z && (s mod 10 =? 0)%Z then strip_zeros f (s / 10) (j + 1) else (s, j)
  end.

(** Step 5 of [Number::toString] for [x = N * 10 ^ E], [N] of [D] digits:
    the fewest digits [k] for which [N] cut to [k] digits, or that plus
    one, reads back as [x]; when both do, the nearer one (the even one on a
    tie).  Any other [k]-digit candidate is further from [x]. *)
Fixpoint shortest (x : num) (neg : bool) (N E D : Z) (fuel : nat) (k : Z) : option (Z * Z) :=
  match fuel with
  | O => None
  | S f =>
      let den := (10 ^ (D - k))%Z in
      let lo := (N / den)%Z in
      let rem := (N mod den)%Z in
      let j := (D - k + E)%Z in
      let okl := num_eqb (dec_round neg lo j) x in
      let okh := num_eqb (dec_round neg (lo + 1) j) x in
      if okl && okh then
        Some (if (2 * rem <? den)%Z || ((2 * rem =? den)%Z && Z.even lo) then lo else (lo + 1)%Z, j)
      else if okl then Some (lo, j)
      else if okh then Some ((lo + 1)%Z, j)
      else shortest x neg N E D f (k + 1)
  end.

(** The exact value [m * 2 ^ e] as [N * 10 ^ E]. *)
Definition exact_decimal (m : positive) (e : Z) : Z * Z :=
  if (0 <=? e)%Z then (Zpos m * 2 ^ e, 0)%Z else (Zpos m * 5 ^ (- e), e)%Z.

(** The digits [s] and the exponent [j] that [Number::toString] writes
    for [x], which is [(-1) ^ neg * m * 2 ^ e]. *)
Definition decimal_of (x : num) (neg : bool) (m : positive) (e : Z) : Z * Z :=
  let '(N, E) := exact_decimal m e in
  let D := String.length (N_to_dec (Z.to_N N)) in
  let '(s, j) := match shortest x neg N E (Z.of_nat D) D 1 with
                 | Some sj => sj
                 | None => (N, E)
                 end in
  strip_zeros D s j.

(** [n] zero digits. *)
Fixpoint zeros (n : nat) : string :=
  match n with O => EmptyString | S n' => String "0" (zeros n') end.

(** The first [n] characters, and the rest. *)
Fixpoint split_at (n : nat) (s : string) : string * string :=
  match n, s with
  | O, _ => (EmptyString, s)
  | S n', String c s' => let '(a, b) := split_at n' s' in (String c a, b)
  | S _, EmptyString => (EmptyString, EmptyString)
  end.

(** The exponent part [e+z] or [e-z]. *)
Definition exp_text (z : Z) : string :=
  "e" ++ (if (z <? 0)%Z then "-" else "+") ++ N_to_dec (Z.abs_N z).

(** Steps 6 to 10 of [Number::toString]: [ds] the [k] digits, [n] the
    decimal point position. *)
Definition format_decimal (ds : string) (n : Z) : string :=
  let k := Z.of_nat (String.length ds) in
  if (k <=? n)%Z && (n <=? 21)%Z then ds ++ zeros (Z.to_nat (n - k))
  else if (0 <? n)%Z && (n <=? 21)%Z then
    let '(a, b) := split_at (Z.to_nat n) ds in a ++ "." ++ b
  else if (-6 <? n)%Z && (n <=? 0)%Z then "0." ++ zeros (Z.to_nat (- n)) ++ ds
  else match ds with
       | String d EmptyString => String d (exp_text (n - 1))
       | String d r => String d ("." ++ r ++ exp_text (n - 1))
       | EmptyString => EmptyString
       end.

(** [Number::toString(x)] in radix 10. *)
Definition num_to_string (x : num) : string :=
  match x with
  | S754_nan => "NaN"
  | S754_zero _ => "0"
  | S754_infinity false => "Infinity"
  | S754_infinity true => "-Infinity"
  | S754_finite neg m e =>
      let '(s, j) := decimal_of x neg m e in
      let ds := N_to_dec (Z.to_N s) in
      (if neg then "-" else "") ++ format_decimal ds (Z.of_nat (String.length ds) + j)
  end.

(** Value of a hexadecimal digit. *)
Definition hex_val (c : ascii) : option N :=
  let n := N_of_ascii c in
  if (48 <=? n)%N && (n <=? 57)%N then Some (n - 48)%N
  else if (97 <=? n)%N && (n <=? 102)%N then Some (n - 87)%N
  else if (65 <=? n)%N && (n <=? 70)%N then Some (n - 55)%N
  else None.

(** Value of a non-empty string of digits in radix [b]. *)
Fixpoint radix_value (b acc : N) (s : string) : option N :=
  match s with
  | EmptyString => Some acc
  | String c s' =>
      match hex_val c with
      | Some d => if (d <? b)%N then radix_value b (acc * b + d)%N s' else None
      | None => None
      end
  end.

Definition radix_int (b : N) (s : string) : num :=
  match s with
  | EmptyString => NaN
  | _ => match radix_value b 0 s with
         | Some n => dec_round false (Z.of_N n) 0
         | None => NaN
         end
  end.

(** Exponent part after [e] or [E]: an optional sign and digits. *)
Definition parse_exponent (s : string) : option (Z * string) :=
  let '(neg, s1) := match s with
                    | String "+" r => (false, r)
                    | String "-" r => (true, r)
                    | _ => (false, s)
                    end in
  let '(ds, r) := span_digits s1 in
  match ds with
  | EmptyString => None
  | _ => match digits_value 0 ds with
         | Some n => Some ((if neg then - Z.of_N n else Z.of_N n)%Z, r)
         | None => None
         end
  end.

Definition is_exp_mark (c : ascii) : bool := Ascii.eqb c "e" || Ascii.eqb c "E".

(** [StrUnsignedDecimalLiteral] without [Infinity]: digits with an optional
    fraction, or a fraction alone, then an optional exponent.  The result is
    the significand's digits as an integer, the power of ten, and the rest. *)
Definition parse_decimal (s : string) : option (Z * Z * string) :=
  let '(ds1, r1) := span_digits s in
  let '(ds2, r2) := match r1 with
                    | String "." r => span_digits r
                    | _ => (EmptyString, r1)
                    end in
  match ds1 ++ ds2 with
  | EmptyString => None
  | ds =>
      let '(x, r3) := match r2 with
                      | String c r =>
                          if is_exp_mark c then
                            match parse_exponent r with
                            | Some (x, r') => (x, r')
                            | None => (0%Z, r2)
                            end
                          else (0%Z, r2)
                      | EmptyString => (0%Z, r2)
                      end in
      match digits_value 0 ds with
      | Some n => Some (Z.of_N n, (x - Z.of_nat (String.length ds2))%Z, r3)
      | None => None
      end
  end.

(** Sign of a numeric literal. *)
Definition split_sign (t : string) : bool * string :=
  match t with
  | String c r =>
      if Ascii.eqb c "+" then (false, r)
      else if Ascii.eqb c "-" then (true, r)
      else (false, t)
  | EmptyString => (false, t)
  end.

(** Prefix [0x], [0o] or [0b] of a [StrNonDecimalIntegerLiteral]. *)
Definition radix_prefix (t : string) : option (N * string) :=
  match t with
  | String z (String c r) =>
      if Ascii.eqb z "0" then
        if Ascii.eqb c "x" || Ascii.eqb c "X" then Some (16%N, r)
        else if Ascii.eqb c "o" || Ascii.eqb c "O" then Some (8%N, r)
        else if Ascii.eqb c "b" || Ascii.eqb c "B" then Some (2%N, r)
        else None
      else None
  | _ => None
  end.

(** [StringToNumber]. *)
Definition str_to_num (s : string) : num :=
  match trim s with
  | EmptyString => S754_zero false
  | t =>
      match radix_prefix t with
      | Some (b, r) => radix_int b r
      | None =>
          let '(neg, u) := split_sign t in
          if String.eqb u "Infinity" then S754_infinity neg
          else match parse_decimal u with
               | Some (d, x, EmptyString) => dec_round neg d x
               | _ => NaN
               end
      end
  end.

(* ------------------------------------------------------------------ *)
(** ** Coercions ([String(v)], [Number(v)]) *)

(** [String(v)].  [None] is a [TypeError]: [ToPrimitive] throws on an object
    with an own, non-callable [toString] (objects here come from JSON text,
    so an own [toString] is never callable). *)
Fixpoint to_string (v : val) : option string :=
  match v with
  | VUndef => Some "undefined"
  | VNull => Some "null"
  | VBool true => Some "true"
  | VBool false => Some "false"
  | VNum n => Some (num_to_string n)
  | VStr s => Some s
  | VArr xs =>
      (* Array.prototype.join(","): null and undefined elements become "" *)
      (fix join (first : bool) (xs : list val) : option string :=
         match xs with
         | [] => Some EmptyString
         | x :: xs' =>
             let sx := match x with
                       | VUndef | VNull => Some EmptyString
                       | _ => to_string x
                       end in
             match sx, join false xs' with
             | Some a, Some b => Some ((if first then "" else ",") ++ a ++ b)
             | _, _ => None
             end
         end) true xs
  | VObj ps =>
      match own_get ps "toString" with
      | Some _ => None
      | None => Some "[object Object]"
      end
  | VFun n => Some ("function " ++ n ++ "() { [native code] }")
  end.

(** [Number(v)]: objects and arrays go through [ToPrimitive] to their
    string form ([valueOf] of a plain object returns the object itself). *)
Definition to_number (v : val) : option num :=
  match v with
  | VUndef => Some NaN
  | VNull => Some (S754_zero false)
  | VBool b => Some (if b then num_of_Z 1 else S754_zero false)
  | VNum n => Some n
  | VStr s => Some (str_to_num s)
  | VArr _ | VObj _ => option_map str_to_num (to_string v)
  | VFun _ => Some NaN
  end.

Definition num_truthy (n : num) : bool := truthy (VNum n).

(** [Number(x) || 0]. *)
Definition num_or_zero (n : num) : num := if num_truthy n then n else S754_zero false.

(* ------------------------------------------------------------------ *)
(** ** normalizePlayer *)

Definition num_is_nan (n : num) : bool := match n with NaN => true | _ => false end.

(** [normalizePlayer(item)] with the current [tierMapping] [tm]. *)
Definition normalizePlayer (tm : obj) (item : val) : option val :=
  t1 ← get_field item "tier";
  t2 ← get_field item "Tier";
  t3 ← get_field item "TIER";
  tierStr ← to_string (js_or t1 (js_or t2 (js_or t3 (VStr ""))));
  let tierVal := trim tierStr in
  ip ← get_field item "points";
  pointsProvided ←
    (if nullish ip || (match ip with VStr "" => true | _ => false end)
     then Some None
     else option_map Some (to_number ip));
  let points :=
    match pointsProvided with
    | Some n => if num_is_nan n then js_coalesce (obj_get tm tierVal) (VNum (S754_zero false))
                else VNum n
    | None => js_coalesce (obj_get tm tierVal) (VNum (S754_zero false))
    end in
  ir ← get_field item "rank";
  rank ← to_number ir;
  n1 ← get_field item "name";
  n2 ← get_field item "player";
  n3 ← get_field item "username";
  name ← to_string (js_or n1 (js_or n2 (js_or n3 (VStr "Unknown"))));
  pts ← to_number points;
  Some (VObj [("rank", VNum (num_or_zero rank));
              ("name", VStr name);
              ("tier", VStr (if String.eqb tierVal "" then "" else tierVal));
              ("points", VNum (num_or_zero pts))]).

(* ------------------------------------------------------------------ *)
(** ** JSON text: [JSON.stringify] and [JSON.parse] *)

Definition dq : ascii := "034".
Definition bs : ascii := "092".

Definition str1 (c : ascii) : string := String c EmptyString.

Definition hex_digit (d : N) : ascii :=
  if (d <? 10)%N then ascii_of_N (48 + d) else ascii_of_N (87 + d).

(** [QuoteJSONString] on one code unit. *)
Definition quote_char (c : ascii) : string :=
  let n := N_of_ascii c in
  if (n =? 8)%N then String bs "b"
  else if (n =? 9)%N then String bs "t"
  else if (n =? 10)%N then String bs "n"
  else if (n =? 12)%N then String bs "f"
  else if (n =? 13)%N then String bs "r"
  else if (n =? 34)%N then String bs (str1 dq)
  else if (n =? 92)%N then String bs (str1 bs)
  else if (n <? 32)%N then
    String bs ("u00" ++ String (hex_digit (n / 16)) (str1 (hex_digit (n mod 16))))
  else str1 c.

Fixpoint quote_body (s : string) : string :=
  match s with
  | EmptyString => EmptyString
  | String c s' => quote_char c ++ quote_body s'
  end.

Definition quote (s : string) : string := str1 dq ++ quote_body s ++ str1 dq.

Fixpoint join (sep : string) (xs : list string) : string :=
  match xs with
  | [] => EmptyString
  | [x] => x
  | x :: xs' => x ++ sep ++ join sep xs'
  end.

Definition nl : string := str1 "010".

(** [SerializeJSONProperty] with a [gap] ([""] for [JSON.stringify(v)],
    two spaces for [JSON.stringify(v, null, 2)]) at the current [indent];
    [None] is [undefined] (functions and [undefined] serialize to nothing).
    An object with an own [toJSON] is not treated specially: JSON data never
    carries a callable one. *)
Fixpoint ser (gap indent : string) (v : val) : option string :=
  match v with
  | VUndef | VFun _ => None
  | VNull => Some "null"
  | VBool true => Some "true"
  | VBool false => Some "false"
  | VNum n => Some (if num_finite n then num_to_string n else "null")
  | VStr s => Some (quote s)
  | VArr xs =>
      let ind := indent ++ gap in
      let items := map (fun x => match ser gap ind x with
                                 | Some t => t
                                 | None => "null"
                                 end) xs in
      match xs with
      | [] => Some "[]"
      | _ => if String.eqb gap EmptyString then Some ("[" ++ join "," items ++ "]")
             else Some ("[" ++ nl ++ ind ++ join ("," ++ nl ++ ind) items
                        ++ nl ++ indent ++ "]")
      end
  | VObj ps =>
      let ind := indent ++ gap in
      let colon := if String.eqb gap EmptyString then ":" else ": " in
      let members := flat_map (fun '(k, x) => match ser gap ind x with
                                             | Some t => [quote k ++ colon ++ t]
                                             | None => []
                                             end) ps in
      match members with
      | [] => Some "{}"
      | _ => if String.eqb gap EmptyString then Some ("{" ++ join "," members ++ "}")
             else Some ("{" ++ nl ++ ind ++ join ("," ++ nl ++ ind) members
                        ++ nl ++ indent ++ "}")
      end
  end.

(** [localStorage.setItem(k, JSON.stringify(v))]: an [undefined] result is
    stored as the text ["undefined"]. *)
Definition JSON_stringify (v : val) : string :=
  match ser EmptyString EmptyString v with Some t => t | None => "undefined" end.


Definition is_json_ws (c : ascii) : bool :=
  existsb (N.eqb (N_of_ascii c)) [9; 10; 13; 32]%N.

Fixpoint skip_ws (s : string) : string :=
  match s with
  | String c s' => if is_json_ws c then skip_ws s' else s
  | EmptyString => EmptyString
  end.

Definition simple_escape (e : ascii) : option ascii :=
  let n := N_of_ascii e in
  if (n =? 34)%N then Some dq
  else if (n =? 92)%N then Some bs
  else if (n =? 47)%N then Some "/"%char
  else if (n =? 98)%N then Some "008"%char
  else if (n =? 102)%N then Some "012"%char
  else if (n =? 110)%N then Some "010"%char
  else if (n =? 114)%N then Some "013"%char
  else if (n =? 116)%N then Some "009"%char
  else None.

(** Body of a JSON string literal after its opening quote: its contents and
    the text after the closing quote.  [\uXXXX] above [ÿ] has no 8-bit
    code unit and is outside the model. *)
Fixpoint parse_str_body (s : string) : option (string * string) :=
  match s with
  | EmptyString => None
  | String c r =>
      if Ascii.eqb c dq then Some (EmptyString, r)
      else if Ascii.eqb c bs then
        match r with
        | String "u" (String h1 (String h2 (String h3 (String h4 r')))) =>
            match hex_val h1, hex_val h2, hex_val h3, hex_val h4 with
            | Some a, Some b, Some c', Some d =>
                let code := (((a * 16 + b) * 16 + c') * 16 + d)%N in
                if (code <? 256)%N then
                  option_map (fun '(t, r'') => (String (ascii_of_N code) t, r''))
                             (parse_str_body r')
                else None
            | _, _, _, _ => None
            end
        | String e r' =>
            match simple_escape e with
            | Some c' => option_map (fun '(t, r'') => (String c' t, r''))
                                    (parse_str_body r')
            | None => None
            end
        | EmptyString => None
        end
      else if (N_of_ascii c <? 32)%N then None
      else option_map (fun '(t, r') => (String c t, r')) (parse_str_body r)
  end.

(** Optional minus sign of a JSON number. *)
Definition json_sign (s : string) : bool * string :=
  match s with
  | String c r => if Ascii.eqb c "-" then (true, r) else (false, s)
  | EmptyString => (false, s)
  end.

(** JSON number: [-? (0 | [1-9][0-9]* ) (. [0-9]+)? ([eE] [+-]? [0-9]+)?]. *)
Definition parse_json_number (s : string) : option (num * string) :=
  let '(neg, s1) := json_sign s in
  let '(ds, r) := span_digits s1 in
  match ds with
  | EmptyString => None
  | String c ds' =>
      if Ascii.eqb c "0" && negb (String.eqb ds' EmptyString) then None
      else
        match (match r with
               | String c' r' =>
                   if Ascii.eqb c' "." then
                     match span_digits r' with
                     | (EmptyString, _) => None
                     | fr => Some fr
                     end
                   else Some (EmptyString, r)
               | EmptyString => Some (EmptyString, r)
               end) with
        | None => None
        | Some (fs, r2) =>
            match (match r2 with
                   | String c' r' => if is_exp_mark c' then parse_exponent r' else Some (0%Z, r2)
                   | EmptyString => Some (0%Z, r2)
                   end) with
            | None => None
            | Some (x, r3) =>
                match digits_value 0 (ds ++ fs) with
                | Some n => Some (dec_round neg (Z.of_N n) (x - Z.of_nat (String.length fs)), r3)
                | None => None
                end
            end
        end
  end.

Fixpoint parse_value (fuel : nat) (s : string) {struct fuel} : option (val * string) :=
  match fuel with
  | O => None
  | S f =>
      match skip_ws s with
      | String "[" r =>
          match skip_ws r with
          | String "]" r' => Some (VArr [], r')
          | r1 => parse_elems f [] r1
          end
      | String "{" r =>
          match skip_ws r with
          | String "}" r' => Some (VObj [], r')
          | r1 => parse_members f [] r1
          end
      | String "n" (String "u" (String "l" (String "l" r))) => Some (VNull, r)
      | String "t" (String "r" (String "u" (String "e" r))) => Some (VBool true, r)
      | String "f" (String "a" (String "l" (String "s" (String "e" r)))) =>
          Some (VBool false, r)
      | String c r =>
          if Ascii.eqb c dq then
            option_map (fun '(t, r') => (VStr t, r')) (parse_str_body r)
          else option_map (fun '(n, r') => (VNum n, r'))
                          (parse_json_number (String c r))
      | EmptyString => None
      end
  end
with parse_elems (fuel : nat) (acc : list val) (s : string) {struct fuel}
  : option (val * string) :=
  match fuel with
  | O => None
  | S f =>
      match parse_value f s with
      | Some (v, r) =>
          match skip_ws r with
          | String "," r' => parse_elems f (app acc [v]) r'
          | String "]" r' => Some (VArr (app acc [v]), r')
          | _ => None
          end
      | None => None
      end
  end
with parse_members (fuel : nat) (acc : obj) (s : string) {struct fuel}
  : option (val * string) :=
  match fuel with
  | O => None
  | S f =>
      match skip_ws s with
      | String c r =>
          if Ascii.eqb c dq then
            match parse_str_body r with
            | Some (k, r1) =>
                match skip_ws r1 with
                | String ":" r2 =>
                    match parse_value f r2 with
                    | Some (v, r3) =>
                        match skip_ws r3 with
                        | String "," r4 => parse_members f (obj_set acc k v) r4
                        | String "}" r4 => Some (VObj (obj_set acc k v), r4)
                        | _ => None
                        end
                    | None => None
                    end
                | _ => None
                end
            | None => None
            end
          else None
      | EmptyString => None
      end
  end.

(** [JSON.parse(s)]; [None] is a [SyntaxError]. *)
Definition JSON_parse (s : string) : option val :=
  match parse_value (2 * String.length s + 2) s with
  | Some (v, r) => match skip_ws r with EmptyString => Some v | _ => None end
  | None => None
  end.

(* ------------------------------------------------------------------ *)
(** ** Page state and the code's monad *)

(** Observable effects: [localStorage] writes, alerts, broadcast messages,
    window events and console errors. *)
Inductive effect : Type :=
| SetItem (k v : string)
| RemoveItem (k : string)
| Alert (msg : string)
| Post (type_ : string)
| Dispatch (event : string)
| ConsoleError.

(** The module globals of a page ([players], [tierMapping], [editingId];
    the viewer has no [editingId] and leaves it [None]), [localStorage] and
    the log of effects. *)
Record St : Type := mkSt {
  players : list val;
  tierMapping : obj;
  editingId : option nat;
  store : gmap string string;
  log : list effect
}.

(** A computation may throw ([None]); the state reached at the throw is
    kept, as JavaScript keeps the mutations made before an exception. *)
Definition M (A : Type) : Type := St -> option A * St.

Definition ret {A} (a : A) : M A := fun s => (Some a, s).

Definition bind {A B} (m : M A) (k : A -> M B) : M B :=
  fun s => match m s with
           | (Some a, s') => k a s'
           | (None, s') => (None, s')
           end.

Definition throw {A} : M A := fun s => (None, s).

(** [try { m } catch (e) { h }]. *)
Definition try_catch {A} (m h : M A) : M A :=
  fun s => match m s with
           | (None, s') => h s'
           | r => r
           end.

Notation "x <- m ;; k" := (bind m (fun x => k))
  (at level 100, m at next level, right associativity).
Notation "m ;;; k" := (bind m (fun _ => k)) (at level 100, right associativity).

Definition lift {A} (o : option A) : M A :=
  fun s => match o with Some a => (Some a, s) | None => (None, s) end.

Definition emit (e : effect) : M unit :=
  fun s => (Some tt, mkSt (players s) (tierMapping s) (editingId s) (store s) (app (log s) [e])).

Definition getItem (k : string) : M (option string) := fun s => (Some (store s !! k), s).

Definition setItem (k v : string) : M unit :=
  fun s => (Some tt, mkSt (players s) (tierMapping s) (editingId s)
                          (<[k := v]> (store s)) (app (log s) [SetItem k v])).

Definition removeItem (k : string) : M unit :=
  fun s => (Some tt, mkSt (players s) (tierMapping s) (editingId s)
                          (delete k (store s)) (app (log s) [RemoveItem k])).

Definition get_players : M (list val) := fun s => (Some (players s), s).
Definition set_players (ps : list val) : M unit :=
  fun s => (Some tt, mkSt ps (tierMapping s) (editingId s) (store s) (log s)).
Definition get_tm : M obj := fun s => (Some (tierMapping s), s).
Definition get_editingId : M (option nat) := fun s => (Some (editingId s), s).
Definition set_editingId (e : option nat) : M unit :=
  fun s => (Some tt, mkSt (players s) (tierMapping s) e (store s) (log s)).

Fixpoint map_opt {A B} (f : A -> option B) (l : list A) : option (list B) :=
  match l with
  | [] => Some []
  | x :: l' => y ← f x; ys ← map_opt f l'; Some (y :: ys)
  end.

(** [!raw] for the result of [localStorage.getItem]. *)
Definition raw_missing (raw : option string) : bool :=
  match raw with None => true | Some s => String.eqb s EmptyString end.

Definition raw_text (raw : option string) : string :=
  match raw with Some s => s | None => EmptyString end.

(* ------------------------------------------------------------------ *)
(** ** Editor: storage helpers *)

Definition STORAGE_KEY : string := "mctiers_players_v1".
Definition MAPPING_KEY : string := "mctiers_tier_mapping_v1".

Definition TIER_ORDER : list string :=
  ["LT5"; "HT5"; "LT4"; "HT4"; "LT3"; "HT3"; "LT2"; "HT2"; "LT1"; "HT1"].

Definition mappingDefault : obj :=
  [("LT5", VNum (num_of_Z 10)); ("HT5", VNum (num_of_Z 20)); ("LT4", VNum (num_of_Z 30));
   ("HT4", VNum (num_of_Z 40)); ("LT3", VNum (num_of_Z 50)); ("HT3", VNum (num_of_Z 60));
   ("LT2", VNum (num_of_Z 70)); ("HT2", VNum (num_of_Z 80)); ("LT1", VNum (num_of_Z 90));
   ("HT1", VNum (num_of_Z 100))].

(** A record [{ rank, name, tier, points }] with number rank and points. *)
Definition player (rank : num) (name tier : string) (points : num) : val :=
  VObj [("rank", VNum rank); ("name", VStr name); ("tier", VStr tier);
        ("points", VNum points)].

(** The same with integer literals. *)
Definition player_Z (rank : Z) (name tier : string) (points : Z) : val :=
  player (num_of_Z rank) name tier (num_of_Z points).

Definition initialData : list val :=
  [player_Z 1 "XxPvPProxX" "HT1" 100;
   player_Z 2 "SharpBlade" "LT2" 70;
   player_Z 3 "NoobSlayer" "LT5" 10].

Definition loadPlayers : M (list val) :=
  try_catch
    (raw <- getItem STORAGE_KEY ;;
     if raw_missing raw then
       setItem STORAGE_KEY (JSON_stringify (VArr initialData)) ;;; ret initialData
     else
       parsed <- lift (JSON_parse (raw_text raw)) ;;
       match parsed with
       | VArr xs => ret xs
       | _ => throw (* new Error("Invalid data") *)
       end)
    (emit ConsoleError ;;;
     removeItem STORAGE_KEY ;;;
     setItem STORAGE_KEY (JSON_stringify (VArr initialData)) ;;;
     ret initialData).

(** [CopyDataProperties] of an object spread [{...dst, ...src}]. *)
Fixpoint spread_indexed {A} (f : A -> val) (i : nat) (xs : list A) (dst : obj) : obj :=
  match xs with
  | [] => dst
  | x :: xs' => spread_indexed f (S i) xs' (obj_set dst (Z_to_dec (Z.of_nat i)) (f x))
  end.

Fixpoint string_to_list (s : string) : list ascii :=
  match s with EmptyString => [] | String c s' => c :: string_to_list s' end.

Definition spread (dst : obj) (src : val) : obj :=
  match src with
  | VObj ps => fold_left (fun o '(k, v) => obj_set o k v) ps dst
  | VArr xs => spread_indexed id 0 xs dst
  | VStr s => spread_indexed (fun c => VStr (str1 c)) 0 (string_to_list s) dst
  | _ => dst
  end.

Definition loadMapping : M obj :=
  try_catch
    (raw <- getItem MAPPING_KEY ;;
     if raw_missing raw then
       setItem MAPPING_KEY (JSON_stringify (VObj mappingDefault)) ;;; ret mappingDefault
     else
       parsed <- lift (JSON_parse (raw_text raw)) ;;
       ret (spread mappingDefault parsed))
    (emit ConsoleError ;;;
     removeItem MAPPING_KEY ;;;
     setItem MAPPING_KEY (JSON_stringify (VObj mappingDefault)) ;;;
     ret mappingDefault).

(** [savePlayers()], in a browser with [BroadcastChannel]. *)
Definition savePlayers : M unit :=
  ps <- get_players ;;
  setItem STORAGE_KEY (JSON_stringify (VArr ps)) ;;;
  emit (Post "players-updated") ;;;
  emit (Dispatch "mctiers_players_updated").

(* ------------------------------------------------------------------ *)
(** ** Read-only viewer ([src/players-view.js]) *)

Module View.

Definition loadPlayers : M (list val) :=
  try_catch
    (raw <- getItem STORAGE_KEY ;;
     if raw_missing raw then ret []
     else
       parsed <- lift (JSON_parse (raw_text raw)) ;;
       match parsed with
       | VArr xs => ret xs
       | _ => ret []
       end)
    (emit ConsoleError ;;; ret []).

(** [parsed && typeof parsed === 'object' ? parsed : {}]. *)
Definition loadMapping : M val :=
  try_catch
    (raw <- getItem MAPPING_KEY ;;
     if raw_missing raw then ret (VObj [])
     else
       parsed <- lift (JSON_parse (raw_text raw)) ;;
       match parsed with
       | VObj _ | VArr _ => ret parsed
       | _ => ret (VObj [])
       end)
    (emit ConsoleError ;;; ret (VObj [])).

End View.

(* ------------------------------------------------------------------ *)
(** ** Editor: rendering *)

(** [populateTierFilter()] only touches the DOM; it throws when a record is
    [null]/[undefined] or its [(p.tier || "")] is not a string ([.trim] is
    not a function). *)
Definition tierfilter_ok (p : val) : bool :=
  match p with
  | VUndef | VNull => false
  | VObj ps =>
      match js_or (match own_get ps "tier" with Some t => t | None => VUndef end)
                  (VStr EmptyString) with
      | VStr _ => true
      | _ => false
      end
  | _ => true
  end.

(** [escapeHtml(x)]: [String(x)], or [''] for [null]/[undefined]. *)
Definition escape_ok (x : option val) : bool :=
  match x with
  | None | Some VUndef | Some VNull => true
  | Some v => match to_string v with Some _ => true | None => false end
  end.

(** [applyFiltersAndRender()] only touches the DOM; it throws when a record is
    [null]/[undefined] or [String] of one of its four fields throws (the
    sort comparator, the search filter and [escapeHtml] all read them). *)
Definition table_ok (p : val) : bool :=
  match p with
  | VUndef | VNull => false
  | VObj ps => forallb (fun k => escape_ok (own_get ps k)) ["rank"; "name"; "tier"; "points"]
  | _ => true
  end.

Definition populateTierFilter : M unit :=
  ps <- get_players ;; if forallb tierfilter_ok ps then ret tt else throw.

Definition applyFiltersAndRender : M unit :=
  ps <- get_players ;; if forallb table_ok ps then ret tt else throw.

(* ------------------------------------------------------------------ *)
(** ** Editor: CSV import *)

(** The loop of [splitCSVLine]: the rest of the line, [res], [cur] and
    [inQuotes]. *)
Fixpoint splitCSVLine_go (s : string) (res : list string) (cur : string) (inQuotes : bool)
  : list string :=
  match s with
  | EmptyString => app res [cur]
  | String ch r =>
      if Ascii.eqb ch dq then
        match r with
        | String ch2 r2 =>
            if inQuotes && Ascii.eqb ch2 dq then splitCSVLine_go r2 res (cur ++ str1 dq) inQuotes
            else splitCSVLine_go r res cur (negb inQuotes)
        | EmptyString => splitCSVLine_go r res cur (negb inQuotes)
        end
      else if Ascii.eqb ch "," && negb inQuotes then
        splitCSVLine_go r (app res [cur]) EmptyString inQuotes
      else splitCSVLine_go r res (cur ++ str1 ch) inQuotes
  end.

Definition splitCSVLine (line : string) : list string :=
  splitCSVLine_go line [] EmptyString false.

(** Specification side (not in the source): a CSV field written in double
    quotes, each embedded double quote doubled, as the spec describes. *)
Fixpoint csv_escape (s : string) : string :=
  match s with
  | EmptyString => EmptyString
  | String c s' =>
      if Ascii.eqb c dq then String dq (String dq (csv_escape s'))
      else String c (csv_escape s')
  end.

Definition csv_quote (s : string) : string := str1 dq ++ csv_escape s ++ str1 dq.

(** [text.split(/\r?\n/)]. *)
Fixpoint split_lines (s : string) (cur : string) : list string :=
  match s with
  | EmptyString => [cur]
  | String "013" (String "010" r) => cur :: split_lines r EmptyString
  | String "010" r => cur :: split_lines r EmptyString
  | String c r => split_lines r (cur ++ str1 c)
  end.

(** [String.prototype.toLowerCase] on 8-bit code units. *)
Definition lower_char (c : ascii) : ascii :=
  let n := N_of_ascii c in
  if ((65 <=? n)%N && (n <=? 90)%N) || ((192 <=? n)%N && (n <=? 222)%N && negb (n =? 215)%N)
  then ascii_of_N (n + 32) else c.

Fixpoint lower (s : string) : string :=
  match s with
  | EmptyString => EmptyString
  | String c s' => String (lower_char c) (lower s')
  end.

(** [obj[h] = v] on a fresh object; the [__proto__] setter ignores a string. *)
Definition row_set (o : obj) (h : string) (v : val) : obj :=
  if String.eqb h "__proto__" then o else obj_set o h v.

Definition parseCSV (text : string) : list obj :=
  let lines := filter (fun l => negb (String.eqb (trim l) EmptyString))
                      (split_lines text EmptyString) in
  match lines with
  | [] => []
  | l0 :: rest =>
      let headers := map (fun h => lower (trim h)) (splitCSVLine l0) in
      map (fun line =>
             let vals := splitCSVLine line in
             fold_left (fun o '(i, h) =>
                          row_set o h (VStr (match nth_error vals i with
                                             | Some v => v
                                             | None => EmptyString
                                             end)))
                       (combine (seq 0 (length headers)) headers) [])
          rest
  end.

(** [r.k] on a row object: own properties, else its prototype. *)
Definition row_get (r : obj) (k : string) : val := obj_get r k.

(** The object the CSV branch hands to [normalizePlayer]. *)
Definition csv_item (r : obj) : val :=
  VObj [("rank", js_coalesce (row_get r "rank")
                   (js_coalesce (row_get r "Rank") (row_get r "RANK")));
        ("name", js_coalesce (row_get r "name")
                   (js_coalesce (row_get r "Name")
                      (js_coalesce (row_get r "NAME") (row_get r "player"))));
        ("tier", js_coalesce (row_get r "tier")
                   (js_coalesce (row_get r "Tier") (row_get r "TIER")));
        ("points", js_coalesce (row_get r "points")
                     (js_coalesce (row_get r "Points")
                        (js_coalesce (row_get r "POINTS") (row_get r "score"))))].

Fixpoint ends_with (suffix s : string) : bool :=
  String.eqb s suffix ||
  match s with EmptyString => false | String _ s' => ends_with suffix s' end.

(** The [reader.onload] handler of [importDataFromFile(file)]: the file's name
    and its text. *)
Definition importDataFromFile (fname text : string) : M unit :=
  try_catch
    (tm <- get_tm ;;
     (if ends_with ".json" (lower fname) then
        data <- lift (JSON_parse text) ;;
        match data with
        | VArr xs => ys <- lift (map_opt (normalizePlayer tm) xs) ;; set_players ys
        | _ => throw (* new Error("JSON must be an array") *)
        end
      else
        ys <- lift (map_opt (fun r => normalizePlayer tm (csv_item r)) (parseCSV text)) ;;
        set_players ys) ;;;
     savePlayers ;;;
     populateTierFilter ;;;
     applyFiltersAndRender ;;;
     emit (Alert "Import successful. The list was replaced with the imported data."))
    (emit ConsoleError ;;;
     emit (Alert "Failed to import file. See console for details.")).


(* ------------------------------------------------------------------ *)
(** ** Editor: mapping actions *)

(** [{ ...p, points: Number(tierMapping[p.tier] ?? 0) }]. *)
Definition with_mapped_points (tm : obj) (p : val) : option val :=
  t ← get_field p "tier";
  key ← to_string t;
  n ← to_number (js_coalesce (obj_get tm key) (VNum (S754_zero false)));
  Some (VObj (obj_set (spread [] p) "points" (VNum n))).

Definition applyMappingToAllPlayers (confirmed : bool) : M unit :=
  if negb confirmed then ret tt
  else
    tm <- get_tm ;;
    ps <- get_players ;;
    ps' <- lift (map_opt (with_mapped_points tm) ps) ;;
    set_players ps' ;;;
    savePlayers ;;;
    applyFiltersAndRender ;;;
    emit (Alert "Applied mapping to all players.").

(** [p => !p.points ? { ...p, points: ... } : p]. *)
Definition fill_if_empty (tm : obj) (p : val) : option val :=
  pts ← get_field p "points";
  if truthy pts then Some p else with_mapped_points tm p.

Definition applyMappingToEmptyPlayers : M unit :=
  tm <- get_tm ;;
  ps <- get_players ;;
  ps' <- lift (map_opt (fill_if_empty tm) ps) ;;
  set_players ps' ;;;
  savePlayers ;;;
  applyFiltersAndRender ;;;
  emit (Alert "Applied mapping to players with empty/zero points.").

(* ------------------------------------------------------------------ *)
(** ** Editor: row Edit / Delete *)

(** The text a cell shows: [escapeHtml(x)] parsed by [innerHTML] and read back
    through [textContent].  The entities decode back; the HTML input stream
    turns CR LF and lone CR into LF, and a NUL in a table cell is dropped. *)
Fixpoint dom_text (s : string) : string :=
  match s with
  | EmptyString => EmptyString
  | String "013" (String "010" r) => String "010" (dom_text r)
  | String "013" r => String "010" (dom_text r)
  | String "000" r => dom_text r
  | String c r => String c (dom_text r)
  end.

Definition cell_text (x : option val) : option string :=
  match x with
  | None | Some VUndef | Some VNull => Some EmptyString
  | Some v => option_map dom_text (to_string v)
  end.

Definition own_field (p : val) (k : string) : option val :=
  match p with VObj ps => own_get ps k | _ => None end.

(** The four cells of a rendered row. *)
Record Row : Type := mkRow { c_rank : string; c_name : string; c_tier : string; c_points : string }.

Definition row_cells (p : val) : option Row :=
  a ← cell_text (own_field p "rank");
  b ← cell_text (own_field p "name");
  c ← cell_text (own_field p "tier");
  d ← cell_text (own_field p "points");
  Some (mkRow a b c d).

(** [===] between a value and a number, and between a value and a string.
    On numbers it is [SFeqb]: [0] and [-0] are equal, [NaN] equals
    nothing. *)
Definition num_strict_eq (a b : num) : bool := SFeqb a b.

Definition strict_eq_num (v : val) (n : num) : bool :=
  match v with VNum m => num_strict_eq m n | _ => false end.

Definition strict_eq_str (v : val) (s : string) : bool :=
  match v with VStr t => String.eqb t s | _ => false end.

(** [p => p.rank === rank && p.name === name && p.tier === tier &&
    p.points === points] with [rank = Number(cell 0)], [points = Number(cell 3)]. *)
Definition row_match (row : Row) (p : val) : option bool :=
  r ← get_field p "rank";
  n ← get_field p "name";
  t ← get_field p "tier";
  q ← get_field p "points";
  Some (strict_eq_num r (str_to_num (c_rank row)) && strict_eq_str n (c_name row)
        && strict_eq_str t (c_tier row) && strict_eq_num q (str_to_num (c_points row))).

(** [Array.prototype.findIndex]; [Some None] is [-1], [None] a throw. *)
Fixpoint find_index (f : val -> option bool) (l : list val) (i : nat) : option (option nat) :=
  match l with
  | [] => Some None
  | x :: l' =>
      match f x with
      | Some true => Some (Some i)
      | Some false => find_index f l' (S i)
      | None => None
      end
  end.

(** [startEdit(index)]: the form filling and scrolling are DOM only. *)
Definition startEdit (index : option nat) : M unit :=
  match index with
  | None => ret tt
  | Some i => set_editingId (Some i)
  end.

Definition list_remove (i : nat) (l : list val) : list val := app (firstn i l) (skipn (S i) l).

(** [doDelete(index)] after the user's answer to [confirm]. *)
Definition doDelete (index : option nat) (confirmed : bool) : M unit :=
  match index with
  | None => ret tt
  | Some i =>
      if negb confirmed then ret tt
      else
        ps <- get_players ;;
        set_players (list_remove i ps) ;;;
        savePlayers ;;;
        populateTierFilter ;;;
        applyFiltersAndRender
  end.

(** The click handler of an Edit or Delete button in a row showing [row]. *)
Definition row_click (action : string) (row : Row) (confirmed : bool) : M unit :=
  ps <- get_players ;;
  realIndex <- lift (find_index (row_match row) ps 0) ;;
  (if String.eqb action "edit" then startEdit realIndex else ret tt) ;;;
  (if String.eqb action "delete" then doDelete realIndex confirmed else ret tt).

(* ------------------------------------------------------------------ *)
(** ** Editor: form submission *)

(** [(a.rank || 0)] as a number, and the comparator
    [(a, b) => (a.rank || 0) - (b.rank || 0)]. *)
Definition rank_key (p : val) : option num :=
  r ← get_field p "rank"; to_number (js_or r (VNum (S754_zero false))).

Definition cond_neg (b : bool) (z : Z) : Z := if b then (- z)%Z else z.

(** [x - y] on doubles: the exact difference of two finite values, rounded
    once. *)
Definition num_sub (x y : num) : num :=
  match x, y with
  | S754_nan, _ | _, S754_nan => NaN
  | S754_infinity sx, S754_infinity sy => if Bool.eqb sx sy then NaN else x
  | S754_infinity _, _ => x
  | _, S754_infinity sy => S754_infinity (negb sy)
  | S754_zero sx, S754_zero sy => S754_zero (sx && negb sy)
  | S754_zero _, S754_finite sy my ey => S754_finite (negb sy) my ey
  | S754_finite _ _ _, S754_zero _ => x
  | S754_finite sx mx ex, S754_finite sy my ey =>
      let e := Z.min ex ey in
      match (cond_neg sx (Zpos mx * 2 ^ (ex - e)) - cond_neg sy (Zpos my * 2 ^ (ey - e)))%Z with
      | Z0 => S754_zero false
      | Zpos a => round_dyadic false a e
      | Zneg a => round_dyadic true a e
      end
  end.

Definition rank_cmp (a b : val) : option num :=
  ka ← rank_key a; kb ← rank_key b; Some (num_sub ka kb).

(** [SortCompare] reads [NaN] as [+0]: is the comparator's result [<= 0]? *)
Definition cmp_le0 (n : num) : bool :=
  match n with
  | S754_nan | S754_zero _ => true
  | S754_infinity s | S754_finite s _ _ => s
  end.

Fixpoint insert_by (cmp : val -> val -> option num) (x : val) (l : list val)
  : option (list val) :=
  match l with
  | [] => Some [x]
  | y :: l' =>
      c ← cmp x y;
      if cmp_le0 c then Some (x :: l)
      else r ← insert_by cmp x l'; Some (y :: r)
  end.

Fixpoint sort_by (cmp : val -> val -> option num) (l : list val) : option (list val) :=
  match l with
  | [] => Some []
  | x :: l' => s ← sort_by cmp l'; insert_by cmp x s
  end.

Definition is_undef (v : val) : bool := match v with VUndef => true | _ => false end.

(** [Array.prototype.sort(cmp)]: [undefined] elements go last without a
    call to [cmp]; the others are sorted stably, as the standard requires.
    For a consistent comparator every stable sort gives this order; for an
    inconsistent one the standard leaves the order to the implementation
    and the model's choice is one of them.  When [cmp] throws, the elements
    are left as they were. *)
Definition js_sort (cmp : val -> val -> option num) (xs : list val) : option (list val) :=
  s ← sort_by cmp (filter (fun x => negb (is_undef x)) xs);
  Some (app s (filter is_undef xs)).

(** [players[i] = v].  Past the end the array grows and the indices in
    between become holes; the model writes [undefined] there.  JavaScript
    treats a hole differently ([forEach] and [filter] skip it, [sort] puts
    it last, [JSON.stringify] writes [null]), so only writes inside the
    list are modelled faithfully. *)
Definition array_set (ps : list val) (i : nat) (v : val) : list val :=
  if Nat.ltb i (length ps) then <[i := v]> ps
  else app ps (app (repeat VUndef (i - length ps)) [v]).

(** The [raw] record the [submit] handler builds from the four inputs. *)
Definition form_record (tm : obj) (rankIn nameIn tierIn pointsIn : string) : val :=
  let tierInput := trim tierIn in
  let pointsInput := if String.eqb pointsIn EmptyString then None
                     else Some (str_to_num pointsIn) in
  VObj [("rank", VNum (num_or_zero (str_to_num rankIn)));
        ("name", VStr (trim nameIn));
        ("tier", VStr tierInput);
        ("points", match pointsInput with
                   | None => js_coalesce (obj_get tm tierInput) (VNum (S754_zero false))
                   | Some n => VNum n
                   end)].

(** The [submit] handler of [#playerForm], given the four input values. *)
Definition submit (rankIn nameIn tierIn pointsIn : string) : M unit :=
  tm <- get_tm ;;
  let name := trim nameIn in
  let raw := form_record tm rankIn nameIn tierIn pointsIn in
  if String.eqb name EmptyString then emit (Alert "Player name is required.")
  else
    np <- lift (normalizePlayer tm raw) ;;
    eid <- get_editingId ;;
    (match eid with
     | None => ps <- get_players ;; set_players (app ps [np])
     | Some i => ps <- get_players ;; set_players (array_set ps i np) ;;; set_editingId None
     end) ;;;
    ps <- get_players ;;
    sorted <- lift (js_sort rank_cmp ps) ;;
    set_players sorted ;;;
    savePlayers ;;;
    populateTierFilter ;;;
    applyFiltersAndRender.

(* ------------------------------------------------------------------ *)
(** ** Specification-side relations *)

(** A player record as the code builds it: an object, each key once. *)
Definition plain_record (p : val) : Prop :=
  match p with VObj ps => NoDup (map fst ps) | _ => False end.

(** [p'] is [p] with its points set to the mapping's value for its tier,
    [Number(tierMapping[String(p.tier)] ?? 0)], and every other own property
    kept. *)
Definition points_from_mapping (tm : obj) (p p' : val) : Prop :=
  exists key n,
    to_string (match own_field p "tier" with Some t => t | None => VUndef end) = Some key /\
    to_number (js_coalesce (obj_get tm key) (VNum (S754_zero false))) = Some n /\
    own_field p' "points" = Some (VNum n) /\
    (forall k, k <> "points" -> own_field p' k = own_field p k).

(** The four displayed fields of a record, as [p.k] reads them. *)
Definition fields4 (p : val) : list (option val) :=
  map (get_field p) ["rank"; "name"; "tier"; "points"].

(** No carriage return and no NUL character. *)
Definition no_cr_nul (s : string) : bool :=
  all_chars (fun c => negb (Ascii.eqb c "013") && negb (Ascii.eqb c "000")) s.

(** [a === b] for two field values read with [p.k]: numbers by [SFeqb],
    strings by their characters.  Used where one side is a number or a
    string, so the other kinds of values never compare equal. *)
Definition field_eq (a b : option val) : bool :=
  match a, b with
  | Some (VNum x), Some (VNum y) => SFeqb x y
  | Some (VStr s), Some (VStr t) => String.eqb s t
  | _, _ => false
  end.

(** The four displayed fields of [p] and [q] are [===] equal. *)
Definition same_fields (p q : val) : Prop :=
  forallb (fun k => field_eq (get_field p k) (get_field q k)) ["rank"; "name"; "tier"; "points"]
  = true.

(** A record whose row shows its fields exactly: rank and points binary64
    numbers other than [NaN], name and tier strings without CR or NUL. *)
Definition shown_exactly (q : val) : Prop :=
  exists r n t z,
    get_field q "rank" = Some (VNum r) /\ get_field q "name" = Some (VStr n) /\
    get_field q "tier" = Some (VStr t) /\ get_field q "points" = Some (VNum z) /\
    num_ok r = true /\ r <> NaN /\ num_ok z = true /\ z <> NaN /\
    no_cr_nul n = true /\ no_cr_nul t = true.

(** A record whose order key [Number(rank || 0)] is a binary64 number, not
    [NaN]. *)
Definition has_num_rank (p : val) : Prop :=
  exists x, rank_key p = Some x /\ num_ok x = true /\ x <> NaN.

(** [a] comes no later than [b] in ascending order of that key ([SFleb] is
    [<=] on doubles). *)
Definition rank_le (a b : val) : Prop :=
  exists x y, rank_key a = Some x /\ rank_key b = Some y /\ SFleb x y = true.

(** The order key in the words of the claim: the rank when it is a number,
    [0] when it is missing or not a number. *)
Definition claim_rank (p : val) : num :=
  match get_field p "rank" with Some (VNum x) => x | _ => S754_zero false end.

(** The list before sorting: the new record appended, or written over the
    edited index. *)
Definition submit_base (eid : option nat) (ps : list val) (np : val) : list val :=
  match eid with None => app ps [np] | Some i => <[i := np]> ps end.

(** The characters that follow a number in the exported text. *)
Definition num_end (c : ascii) : Prop := c = ","%char \/ c = "010"%char.


(** A number that reads back as itself: finite and not [-0]. *)
Definition num_plain (n : num) : bool :=
  num_ok n && match n with S754_finite _ _ _ | S754_zero false => true | _ => false end.




(** A numeric literal: integer digits, fraction digits (written after a
    point when there are any) and an optional exponent. *)
Definition num_text (ip fp : string) (xo : option Z) : string :=
  ip ++ (match fp with EmptyString => EmptyString | _ => "." ++ fp end)
     ++ (match xo with None => EmptyString | Some z => exp_text z end).

(** What follows a number in JSON text: the end, a comma, a closing
    bracket or brace, or a line break. *)
Definition num_stop (r : string) : Prop :=
  r = EmptyString \/
  exists c r', r = String c r' /\ In c [","%char; "]"%char; "}"%char; "010"%char].

(** [t] is a literal [Number::toString] may write for the digits [ds] (of
    value [V]) with the decimal point at [n]: it reads back as the same
    number. *)
Definition text_shape (ds : string) (V : N) (n : Z) (t : string) : Prop :=
  exists ip fp xo W,
    t = num_text ip fp xo /\
    all_chars is_digit ip = true /\ all_chars is_digit fp = true /\
    ((ip = "0" /\ fp <> EmptyString) \/ exists d r, ip = String d r /\ d <> "0"%char) /\
    digits_value 0 (ip ++ fp) = Some W /\
    (forall neg, dec_round neg (Z.of_N W) (default 0%Z xo - Z.of_nat (String.length fp))
                 = dec_round neg (Z.of_N V) (n - Z.of_nat (String.length ds))).

(** A key whose lexicographic order is the order [SFleb] of doubles other
    than [NaN]. *)
Definition sf_key (x : num) : Z * Z * Z :=
  match x with
  | S754_infinity true => (0, 0, 0)%Z
  | S754_finite true m e => (1, - e, - Zpos m)%Z
  | S754_zero _ | S754_nan => (2, 0, 0)%Z
  | S754_finite false m e => (3, e, Zpos m)%Z
  | S754_infinity false => (4, 0, 0)%Z
  end.

Definition lex_le (k1 k2 : Z * Z * Z) : Prop :=
  let '(a1, b1, c1) := k1 in let '(a2, b2, c2) := k2 in
  (a1 < a2 \/ (a1 = a2 /\ (b1 < b2 \/ (b1 = b2 /\ c1 <= c2))))%Z.

(* ------------------------------------------------------------------ *)
(** ** Example inputs *)

(** The CSV text of the spec's example: a header and one row whose name field
    is quoted and holds a comma and doubled quotes. *)
Definition rock_name : string := "Smith, " ++ str1 dq ++ "The Rock" ++ str1 dq.

Definition rock_csv : string :=
  "rank,name,tier,points" ++ nl ++ "1," ++ csv_quote rock_name ++ ",HT1,100".

(** Two records, one with points [0]. *)
Definition mapping_state : St :=
  mkSt [player_Z 1 "A" "HT1" 5; player_Z 2 "B" "LT5" 0] mappingDefault None ∅ [].




(** Three records, the first and the last with the same four fields. *)
Definition dup_state : St :=
  mkSt [player_Z 3 "Ann" "HT1" 50; player_Z 1 "Bob" "LT2" 10; player_Z 3 "Ann" "HT1" 50]
       mappingDefault None ∅ [].

(** A record whose points are [null], as [JSON.stringify] writes [NaN], and a
    list holding it twice. *)
Definition null_points_rec : val :=
  VObj [("rank", VNum (S754_zero false)); ("name", VStr "a"); ("tier", VStr "HT1"); ("points", VNull)].

Definition null_dup_state : St :=
  mkSt [null_points_rec; null_points_rec] mappingDefault None ∅ [].

(** A record with rank [true], after one with rank [1]. *)
Definition true_rank_rec : val :=
  VObj [("rank", VBool true); ("name", VStr "B"); ("tier", VStr "HT1"); ("points", VNum (num_of_Z 100))].

Definition true_rank_state : St :=
  mkSt [player_Z 1 "X" "HT1" 100; true_rank_rec] mappingDefault None ∅ [].




(* ------------------------------------------------------------------ *)
(** ** escapeHtml (editor and viewer) *)

(** [s.replace(/c/g, rep)] for a one-character pattern. *)
Fixpoint replace_all (c : ascii) (rep : string) (s : string) : string :=
  match s with
  | EmptyString => EmptyString
  | String x r => (if Ascii.eqb x c then rep else str1 x) ++ replace_all c rep r
  end.

(** [escapeHtml(s)]: the four global replacements, [&] first. *)
Definition escape_html_str (s : string) : string :=
  replace_all dq "&quot;" (replace_all ">" "&gt;" (replace_all "<" "&lt;" (replace_all "&" "&amp;" s))).

Definition escapeHtml (x : val) : option string :=
  match x with
  | VUndef | VNull => Some EmptyString
  | v => option_map escape_html_str (to_string v)
  end.

(** Decoding of the four character references [&amp;], [&lt;], [&gt;],
    [&quot;], as an HTML parser does in text. *)
Fixpoint html_decode (s : string) : string :=
  match s with
  | EmptyString => EmptyString
  | String "&" (String "a" (String "m" (String "p" (String ";" r)))) => String "&" (html_decode r)
  | String "&" (String "l" (String "t" (String ";" r))) => String "<" (html_decode r)
  | String "&" (String "g" (String "t" (String ";" r))) => String ">" (html_decode r)
  | String "&" (String "q" (String "u" (String "o" (String "t" (String ";" r))))) =>
      String dq (html_decode r)
  | String c r => String c (html_decode r)
  end.

Definition html_special (c : ascii) : bool :=
  Ascii.eqb c "<" || Ascii.eqb c ">" || Ascii.eqb c dq.

(* ------------------------------------------------------------------ *)
(** ** getUniqueTiers (editor and viewer) *)

(** [(p.tier || "").trim()]; [None] is the [TypeError] of [.trim] on a
    value that is not a string, or of reading [.tier] of [null]. *)
Definition tier_of (p : val) : option string :=
  t ← get_field p "tier";
  match js_or t (VStr EmptyString) with VStr s => Some (trim s) | _ => None end.

(** [Set.prototype.add]: insertion order, no duplicates. *)
Definition set_add (s : list string) (x : string) : list string :=
  if existsb (String.eqb x) s then s else app s [x].

(** [TIER_ORDER.indexOf(a)]. *)
Fixpoint index_of (l : list string) (a : string) : Z :=
  match l with
  | [] => (-1)%Z
  | x :: l' => if String.eqb x a then 0%Z else
                 let i := index_of l' a in if (i =? -1)%Z then (-1)%Z else (i + 1)%Z
  end.

Section UniqueTiers.

(** [a.localeCompare(b)]: its order depends on the locale. *)
Variable localeCompare : string -> string -> Z.

Definition tier_cmp (a b : val) : option num :=
  match a, b with
  | VStr x, VStr y =>
      let ia := index_of TIER_ORDER x in
      let ib := index_of TIER_ORDER y in
      if negb (ia =? -1)%Z && negb (ib =? -1)%Z then Some (num_of_Z (ia - ib))
      else if negb (ia =? -1)%Z then Some (num_of_Z (-1))
      else if negb (ib =? -1)%Z then Some (num_of_Z 1)
      else Some (num_of_Z (localeCompare x y))
  | _, _ => None
  end.

(** [getUniqueTiers()] on the current players. *)
Definition getUniqueTiers (ps : list val) : option (list val) :=
  ts ← map_opt tier_of ps;
  let s := fold_left set_add (List.filter (fun t => negb (String.eqb t EmptyString)) ts) [] in
  let s := fold_left set_add TIER_ORDER s in
  js_sort tier_cmp (map VStr (List.filter (fun t => negb (String.eqb t EmptyString)) s)).

End UniqueTiers.

Definition tier_idx (t : string) : Z := index_of TIER_ORDER t.
Definition idx_lt (a b : string) : Prop := (tier_idx a < tier_idx b)%Z.

(* ------------------------------------------------------------------ *)
(** ** JSON data *)

(** Keys of an object, each once. *)
Fixpoint keys_unique (ps : obj) : bool :=
  match ps with
  | [] => true
  | (k, _) :: ps' => negb (existsb (String.eqb k) (map fst ps')) && keys_unique ps'
  end.

(** JSON data: no [undefined] or function anywhere (they would be left
    out or written as [null]), no key twice in an object, numbers binary64
    values. *)
Fixpoint json_data (v : val) : bool :=
  match v with
  | VUndef | VFun _ => false
  | VNum n => num_ok n
  | VArr xs => forallb json_data xs
  | VObj ps => keys_unique ps && forallb (fun kv => json_data (snd kv)) ps
  | _ => true
  end.

(** What [JSON.parse] reads back for a number [JSON.stringify] wrote:
    [NaN] and the infinities are written [null], [-0] is written [0]. *)
Definition num_json (n : num) : val :=
  match n with
  | S754_zero _ => VNum (S754_zero false)
  | S754_finite _ _ _ => VNum n
  | S754_infinity _ | S754_nan => VNull
  end.

Fixpoint json_canon (v : val) : val :=
  match v with
  | VNum n => num_json n
  | VArr xs => VArr (map json_canon xs)
  | VObj ps => VObj (map (fun kv => (fst kv, json_canon (snd kv))) ps)
  | _ => v
  end.

(** JSON data whose numbers all read back as themselves. *)
Fixpoint json_ok (v : val) : bool :=
  match v with
  | VUndef | VFun _ => false
  | VNum n => num_plain n
  | VArr xs => forallb json_ok xs
  | VObj ps => keys_unique ps && forallb (fun kv => json_ok (snd kv)) ps
  | _ => true
  end.

Fixpoint fsize (v : val) : nat :=
  match v with
  | VArr xs => S (list_sum (map (fun x => S (fsize x)) xs))
  | VObj ps => S (list_sum (map (fun kv => S (fsize (snd kv))) ps))
  | _ => 0
  end.

Definition follow_ok (r : string) : Prop :=
  r = EmptyString \/ exists c r', r = String c r' /\ (c = ","%char \/ c = "]"%char \/ c = "}"%char).

Definition parses_back (x : val) : Prop :=
  forall i t f r, json_data x = true -> ser "" i x = Some t -> fsize x <= f -> follow_ok r ->
  parse_value (S f) (t ++ r) = Some (json_canon x, r).

(* ------------------------------------------------------------------ *)
(** ** Editor: saving, resetting and reading the mapping; the Clear button *)

Definition set_tm (tm : obj) : M unit :=
  fun s => (Some tt, mkSt (players s) tm (editingId s) (store s) (log s)).

(** [saveMapping()], in a browser with [BroadcastChannel]. *)
Definition saveMapping : M unit :=
  tm <- get_tm ;;
  setItem MAPPING_KEY (JSON_stringify (VObj tm)) ;;;
  emit (Post "mapping-updated") ;;;
  emit (Dispatch "mctiers_mapping_updated").

(** [input.value = (tierMapping[t] !== undefined) ? tierMapping[t] : ...]:
    the assignment converts with [String], which throws on an object with an
    own [toString]; [mappingDefault[t] || 0] is a number. *)
Definition mapping_input_ok (v : val) : bool :=
  match v with
  | VUndef => true
  | _ => if to_string v then true else false
  end.

(** [populateMappingUI()] only touches the DOM. *)
Definition populateMappingUI : M unit :=
  tm <- get_tm ;;
  if forallb (fun t => mapping_input_ok (obj_get tm t)) TIER_ORDER then ret tt else throw.

Definition resetMappingToDefault (confirmed : bool) : M unit :=
  if negb confirmed then ret tt
  else
    set_tm (spread [] (VObj mappingDefault)) ;;;
    saveMapping ;;;
    populateMappingUI ;;;
    emit (Alert "Mapping reset to defaults.").

(** The body of [inputs.forEach] in [readMappingFromUI]: for an input with
    [data-tier] [t] and value [s], [tierMapping[t] = Number(s) || 0]. *)
Definition read_input (o : obj) (ts : string * string) : obj :=
  let '(t, s) := ts in row_set o t (VNum (num_or_zero (str_to_num s))).

(** [readMappingFromUI()], given the [data-tier] and [value] of each input of
    [#mappingGrid], in document order. *)
Definition readMappingFromUI (inputs : list (string * string)) : M unit :=
  tm <- get_tm ;;
  set_tm (fold_left read_input inputs tm) ;;;
  saveMapping.

(** The [click] handler of [#clearBtn], after the user's answer to [confirm]. *)
Definition clearPlayers (confirmed : bool) : M unit :=
  if negb confirmed then ret tt
  else
    set_players [] ;;;
    savePlayers ;;;
    populateTierFilter ;;;
    applyFiltersAndRender.

(* ------------------------------------------------------------------ *)
(** ** Server status card ([src/app.js]) *)

Module App.

(** An element of the page: its [textContent] and its [href] attribute. *)
Record Elem : Type := mkElem { el_text : string; el_href : string }.

(** The elements of the page by [id]. *)
Definition Page : Type := gmap string Elem.

Definition serverToCheck : string := "lightvanilla.qzz.io".

Definition em_dash : string := String "226" (String "128" (String "148" EmptyString)).

(** [el.textContent = v] converts [v] with [String], [null] giving [""]. *)
Definition dom_string (v : val) : option string :=
  match v with VNull => Some EmptyString | _ => to_string v end.

(** [setText(id, txt)]; the conversion of [txt] happens in the setter, so
    only when the element exists. *)
Definition setText (id : string) (txt : val) (pg : Page) : option Page :=
  match pg !! id with
  | None => Some pg
  | Some el => s ← dom_string txt; Some (<[id := mkElem s (el_href el)]> pg)
  end.

Definition hostDisplayName (host : val) : val := host.

(** [x.length] on a truthy value; [res.json()] yields JSON data, which
    holds no function, and a function's [length] is left out ([None]). *)
Definition js_length (v : val) : option val :=
  match v with
  | VStr s => Some (VNum (num_of_Z (Z.of_nat (String.length s))))
  | VArr xs => Some (VNum (num_of_Z (Z.of_nat (List.length xs))))
  | VObj ps => Some (match own_get ps "length" with Some x => x | None => VUndef end)
  | VFun _ => None
  | _ => Some VUndef
  end.

(** [Array.prototype.join(sep)]: [null] and [undefined] elements give [""]. *)
Fixpoint arr_join (sep : string) (xs : list val) : option string :=
  match xs with
  | [] => Some EmptyString
  | [x] => match x with VUndef | VNull => Some EmptyString | _ => to_string x end
  | x :: xs' =>
      a ← (match x with VUndef | VNull => Some EmptyString | _ => to_string x end);
      b ← arr_join sep xs';
      Some (a ++ sep ++ b)
  end.

(** [x.join(" ")]: only arrays have a [join] method in JSON data; on a
    string or an object it is a [TypeError]. *)
Definition join_space (v : val) : option string :=
  match v with VArr xs => arr_join " " xs | _ => None end.

(** [data.motd && data.motd[k] && data.motd[k].length]. *)
Definition motd_has (data : val) (k : string) : option bool :=
  m ← get_field data "motd";
  if negb (truthy m) then Some false
  else
    (c ← get_field m k;
     if negb (truthy c) then Some false
     else (n ← js_length c; Some (truthy n))).

(** [data.motd[k].join(" ").trim()]. *)
Definition motd_join (data : val) (k : string) : option string :=
  m ← get_field data "motd";
  c ← get_field m k;
  j ← join_space c;
  Some (trim j).

(** The MOTD text of lines 48-53. *)
Definition motd_text (data : val) : option string :=
  match motd_has data "clean" with
  | None => None
  | Some true => motd_join data "clean"
  | Some false =>
      match motd_has data "raw" with
      | None => None
      | Some true => motd_join data "raw"
      | Some false => Some EmptyString
      end
  end.

(** The players text of line 44. *)
Definition players_text (data : val) : option string :=
  p ← get_field data "players";
  if negb (truthy p) then Some em_dash
  else
    o ← get_field p "online";
    match o with
    | VNum _ =>
        a ← to_string o;
        mx ← get_field p "max";
        b ← to_string (js_or mx (VStr "?"));
        Some (a ++ "/" ++ b)
    | _ => Some em_dash
    end.

(** [updateServerCard()] in the current [year], with the global binding of
    [host] ([None]: there is none, and reading it is a [ReferenceError]) and
    the result of [fetchServerStatus] ([None] for its [null]: a network
    error or a non-OK response).  [None] is the rejection of the returned
    promise; the DOM changes made before it stay. *)
Definition updateServerCard (year : Z) (host : option val) (fetched : option val) (pg : Page)
  : option unit * Page :=
  match setText "year" (VNum (num_of_Z year)) pg with
  | None => (None, pg)
  | Some pg =>
  let data := match fetched with Some d => d | None => VNull end in
  if negb (truthy data) then
    match setText "srv-name" (VStr "Unable to fetch status") pg with None => (None, pg) | Some pg =>
    match setText "srv-motd" (VStr EmptyString) pg with None => (None, pg) | Some pg =>
    match setText "srv-online" (VStr "Unknown") pg with None => (None, pg) | Some pg =>
    match setText "srv-players" (VStr em_dash) pg with None => (None, pg) | Some pg =>
    match pg !! "srv-connect" with
    | Some el =>
        (Some tt, <[ "srv-connect" := mkElem ("Connect: " ++ serverToCheck)
                                            ("minecraft:///" ++ serverToCheck) ]> pg)
    | None => (Some tt, pg)
    end end end end end
  else
    match get_field data "online" with None => (None, pg) | Some on =>
    let online := match on with VBool true => true | _ => false end in
    match setText "srv-online" (VStr (if online then "Online" else "Offline")) pg with
    | None => (None, pg) | Some pg =>
    match players_text data with None => (None, pg) | Some pl =>
    match setText "srv-players" (VStr pl) pg with None => (None, pg) | Some pg =>
    match motd_text data with None => (None, pg) | Some motd =>
    match setText "srv-motd" (js_or (VStr motd) (VStr em_dash)) pg with
    | None => (None, pg) | Some pg =>
    match get_field data "hostname" with None => (None, pg) | Some hn =>
    match (if truthy hn then Some hn else option_map hostDisplayName host) with
    | None => (None, pg)
    | Some nm =>
    match setText "srv-name" nm pg with None => (None, pg) | Some pg =>
    match pg !! "srv-connect" with
    | None => (Some tt, pg)
    | Some el =>
        match host with
        | None => (None, pg)
        | Some h =>
            match to_string h with
            | None => (None, pg)
            | Some hs =>
                (Some tt, <[ "srv-connect" := mkElem ("Connect: " ++ hs) ("minecraft:///" ++ hs) ]> pg)
            end
        end
    end end end end end end end end end end
  end.

End App.

(* ------------------------------------------------------------------ *)
(** ** CSV lines and records *)

Definition no_char (c : ascii) (s : string) : bool := all_chars (fun d => negb (Ascii.eqb d c)) s.

Definition csv_cell (vals : list string) (i : nat) : val :=
  VStr (match nth_error vals i with Some v => v | None => EmptyString end).


(* ================================================================== *)
(** * Proofs *)

(* ------------------------------------------------------------------ *)
(** ** Strings *)

Lemma sapp_assoc (a b c : string) : (a ++ b) ++ c = a ++ (b ++ c).
Proof. induction a as [|x a IH]; simpl; [reflexivity | now rewrite IH]. Qed.

Lemma sapp_nil (a : string) : a ++ EmptyString = a.
Proof. induction a as [|x a IH]; simpl; [reflexivity | now rewrite IH]. Qed.

Lemma string_rev_app (a b : string) : string_rev (a ++ b) = string_rev b ++ string_rev a.
Proof.
  induction a as [|x a IH]; simpl.
  - now rewrite sapp_nil.
  - now rewrite IH, sapp_assoc.
Qed.

Lemma string_rev_involutive (a : string) : string_rev (string_rev a) = a.
Proof.
  induction a as [|x a IH]; simpl; [reflexivity|].
  rewrite string_rev_app, IH. reflexivity.
Qed.

Lemma all_chars_app p (a b : string) :
  all_chars p (a ++ b) = all_chars p a && all_chars p b.
Proof. induction a as [|x a IH]; simpl; [reflexivity|]. rewrite IH. apply andb_assoc. Qed.

(* ------------------------------------------------------------------ *)
(** ** [trim] *)

Lemma trim_start_app_nonspace (u : string) (c : ascii) :
  is_js_space c = false ->
  trim_start (u ++ String c EmptyString) = trim_start u ++ String c EmptyString.
Proof.
  intros Hc. induction u as [|a u IH]; simpl.
  - now rewrite Hc.
  - destruct (is_js_space a); [exact IH | reflexivity].
Qed.

Lemma trim_end_cons (c : ascii) (r : string) :
  is_js_space c = false -> trim_end (String c r) = String c (trim_end r).
Proof.
  intros Hc. unfold trim_end. simpl.
  rewrite trim_start_app_nonspace by exact Hc.
  rewrite string_rev_app. reflexivity.
Qed.

Lemma trim_start_idem (s : string) : trim_start (trim_start s) = trim_start s.
Proof.
  induction s as [|c s IH]; simpl; [reflexivity|].
  destruct (is_js_space c) eqn:E; [exact IH | simpl; now rewrite E].
Qed.

Lemma trim_end_idem (s : string) : trim_end (trim_end s) = trim_end s.
Proof. unfold trim_end. now rewrite string_rev_involutive, trim_start_idem. Qed.

Lemma trim_start_shape (s : string) :
  trim_start s = EmptyString \/
  exists c r, trim_start s = String c r /\ is_js_space c = false.
Proof.
  induction s as [|c s IH]; simpl; [now left|].
  destruct (is_js_space c) eqn:E; [exact IH | right; eauto].
Qed.

Lemma trim_idem (s : string) : trim (trim s) = trim s.
Proof.
  unfold trim at 2 3.
  destruct (trim_start_shape s) as [-> | (c & r & -> & Hc)]; [reflexivity|].
  rewrite trim_end_cons by exact Hc. unfold trim. simpl. rewrite Hc.
  rewrite trim_end_cons by exact Hc. now rewrite trim_end_idem.
Qed.

Lemma trim_all_nonspace (s : string) :
  all_chars (fun c => negb (is_js_space c)) s = true -> trim s = s.
Proof.
  intros H. unfold trim.
  assert (Hs : trim_start s = s).
  { destruct s as [|c r]; [reflexivity|]. simpl in *.
    destruct (is_js_space c); [discriminate | reflexivity]. }
  rewrite Hs. clear Hs. induction s as [|c r IH]; [reflexivity|].
  simpl in H. apply andb_true_iff in H as [Hc Hr].
  rewrite trim_end_cons by (now destruct (is_js_space c)). now rewrite IH.
Qed.

Lemma trim_empty : trim EmptyString = EmptyString.
Proof. reflexivity. Qed.

(* ------------------------------------------------------------------ *)
(** ** Decimal text of integers *)

Lemma digit_char_ok (d : N) :
  (d < 10)%N -> is_digit (digit_char d) = true /\ digit_val (digit_char d) = d.
Proof.
  intros Hd. unfold is_digit, digit_val, digit_char.
  rewrite N_ascii_embedding by lia.
  split; [apply andb_true_iff; split; apply N.leb_le; lia | lia].
Qed.

Lemma digit_char_code (d : N) : (d < 10)%N -> N_of_ascii (digit_char d) = (48 + d)%N.
Proof. intros Hd. unfold digit_char. apply N_ascii_embedding. lia. Qed.

Lemma digits_value_app (acc : N) (a b : string) :
  digits_value acc (a ++ b) =
  match digits_value acc a with Some x => digits_value x b | None => None end.
Proof.
  revert acc. induction a as [|c a IH]; intros acc; simpl; [reflexivity|].
  destruct (is_digit c); [apply IH | reflexivity].
Qed.

Lemma N_digits_S (f : nat) (n : N) :
  N_digits (S f) n =
  if (n <? 10)%N then String (digit_char n) EmptyString
  else N_digits f (n / 10) ++ String (digit_char (n mod 10)) EmptyString.
Proof. reflexivity. Qed.

Lemma N_digits_spec (f : nat) (n : N) :
  (n < 10 ^ N.of_nat (S f))%N ->
  digits_value 0 (N_digits (S f) n) = Some n /\
  all_chars is_digit (N_digits (S f) n) = true /\
  exists d rest, N_digits (S f) n = String (digit_char d) rest /\ (d < 10)%N /\
    (d = 0%N -> n = 0%N) /\ (n = 0%N -> rest = EmptyString).
Proof.
  revert n. induction f as [|f IH]; intros n Hn.
  - change (10 ^ N.of_nat 1)%N with 10%N in Hn.
    cbn [N_digits]. replace (n <? 10)%N with true by (symmetry; apply N.ltb_lt; lia).
    destruct (digit_char_ok n) as [H1 H2]; [lia|]. simpl. rewrite H1, H2.
    split; [f_equal; lia|]. split; [reflexivity|].
    exists n, EmptyString. repeat split; auto.
  - rewrite N_digits_S. destruct (n <? 10)%N eqn:E.
    + apply N.ltb_lt in E.
      destruct (digit_char_ok n) as [H1 H2]; [lia|]. simpl. rewrite H1, H2.
      split; [f_equal; lia|]. split; [reflexivity|].
      exists n, EmptyString. repeat split; auto.
    + apply N.ltb_ge in E.
      assert (Hq : (n / 10 < 10 ^ N.of_nat (S f))%N).
      { apply N.Div0.div_lt_upper_bound.
        rewrite Nat2N.inj_succ, N.pow_succ_r' in Hn. exact Hn. }
      destruct (IH (n / 10)%N Hq) as (Hv & Ha & d & rest & Heq & Hd & Hd0 & _).
      pose proof (N.mod_lt n 10) as Hm. pose proof (N.div_mod n 10) as Hdm.
      destruct (digit_char_ok (n mod 10)) as [H1 H2]; [lia|].
      split; [|split].
      * rewrite digits_value_app, Hv. simpl. rewrite H1, H2. f_equal. lia.
      * rewrite all_chars_app, Ha. simpl. now rewrite H1.
      * exists d, (rest ++ str1 (digit_char (n mod 10))). rewrite Heq.
        split; [reflexivity|]. split; [exact Hd|]. split; intros H0; [|lia].
        specialize (Hd0 H0). lia.
Qed.

Lemma N_to_dec_spec (n : N) :
  parse_digits (N_to_dec n) = Some n /\
  all_chars is_digit (N_to_dec n) = true /\
  exists d rest, N_to_dec n = String (digit_char d) rest /\ (d < 10)%N /\
    (d = 0%N -> n = 0%N) /\ (n = 0%N -> rest = EmptyString).
Proof.
  unfold N_to_dec.
  assert (Hn : (n < 10 ^ N.of_nat (S (N.to_nat (N.size n))))%N).
  { rewrite Nat2N.inj_succ, N2Nat.id, N.pow_succ_r'.
    pose proof (N.size_gt n).
    assert (2 ^ N.size n <= 10 ^ N.size n)%N by (apply N.pow_le_mono_l; lia).
    lia. }
  destruct (N_digits_spec _ _ Hn) as (Hv & Ha & d & rest & Heq & H).
  split; [|split; [exact Ha | eauto]].
  rewrite Heq in Hv |- *. exact Hv.
Qed.

Lemma is_digit_not_space (c : ascii) : is_digit c = true -> is_js_space c = false.
Proof.
  unfold is_digit, is_js_space. intros H.
  apply andb_true_iff in H as [H1 H2]. apply N.leb_le in H1, H2.
  simpl. repeat rewrite (proj2 (N.eqb_neq _ _)) by lia. reflexivity.
Qed.

Lemma all_chars_impl (p q : ascii -> bool) (s : string) :
  (forall c, p c = true -> q c = true) -> all_chars p s = true -> all_chars q s = true.
Proof.
  intros Hpq. induction s as [|c s IH]; simpl; [reflexivity|].
  intros H. apply andb_true_iff in H as [H1 H2]. now rewrite (Hpq c H1), IH.
Qed.

Section Binary64.
Local Open Scope Z_scope.

(** ** Binary64 arithmetic *)

Lemma log2_pos_size (m : positive) : Z.log2 (Zpos m) = (Zpos (Pos.size m) - 1)%Z.
Proof. destruct m; simpl; try lia. Qed.

Lemma digits2_pos_size (m : positive) : digits2_pos m = Pos.size m.
Proof. induction m; simpl; congruence. Qed.

Lemma canonical_exp (m : positive) (e : Z) :
  canonical_mantissa prec emax m e = true ->
  Z.max (Z.log2 (Zpos m) + e - (prec - 1)) (emin prec emax) = e.
Proof.
  unfold canonical_mantissa, fexp. rewrite digits2_pos_size, log2_pos_size.
  intros H. apply Z.eqb_eq in H. unfold prec, emax, emin in *. lia.
Qed.

Lemma canonical_bounds (m : positive) (e : Z) :
  canonical_mantissa prec emax m e = true ->
  (Zpos m < 2 ^ prec)%Z /\ (e = emin prec emax \/ 2 ^ (prec - 1) <= Zpos m)%Z /\
  (emin prec emax <= e)%Z.
Proof.
  intros H. apply canonical_exp in H.
  pose proof (Z.log2_spec (Zpos m) eq_refl) as [H1 H2].
  unfold prec, emin, emax in *.
  assert (HL : (Z.log2 (Zpos m) <= 52)%Z) by lia.
  split; [|split; [|lia]].
  - eapply Z.lt_le_trans; [exact H2|]. apply Z.pow_le_mono_r; lia.
  - destruct (Z.eq_dec e (3 - 1024 - 53)%Z) as [He|He]; [now left|right].
    replace (53 - 1)%Z with (Z.log2 (Zpos m)) by lia. exact H1.
Qed.

Lemma flog2_mul_pow2 (m k : Z) : (0 < m)%Z -> (0 <= k)%Z -> flog2 (m * 2 ^ k) 1 = (Z.log2 m + k)%Z.
Proof.
  intros Hm Hk. unfold flog2.
  assert (0 < 2 ^ k)%Z by (apply Z.pow_pos_nonneg; lia).
  replace (1 <=? m * 2 ^ k)%Z with true by (symmetry; apply Z.leb_le; nia).
  rewrite Z.div_1_r, Z.log2_mul_pow2 by lia. lia.
Qed.

Lemma cdiv_spec (a b : Z) : (0 < b)%Z -> (b * (cdiv a b - 1) < a <= b * cdiv a b)%Z.
Proof.
  intros Hb. unfold cdiv.
  pose proof (Z.div_mod a b ltac:(lia)). pose proof (Z.mod_pos_bound a b Hb).
  destruct (Z.eqb_spec (a mod b) 0); nia.
Qed.

Lemma flog2_div_pow2 (m k : Z) : (0 < m)%Z -> (0 <= k)%Z -> flog2 m (2 ^ k) = (Z.log2 m - k)%Z.
Proof.
  intros Hm Hk. unfold flog2.
  pose proof (Z.log2_spec m Hm) as [L1 L2]. pose proof (Z.log2_nonneg m).
  set (L := Z.log2 m) in *.
  destruct (Z.leb_spec (2 ^ k) m) as [Hle|Hlt].
  - rewrite <- Z.shiftr_div_pow2 by lia. rewrite Z.log2_shiftr by lia.
    assert (k <= L)%Z.
    { destruct (Z.le_gt_cases k L) as [|Hgt]; [assumption|].
      assert (2 ^ Z.succ L <= 2 ^ k)%Z by (apply Z.pow_le_mono_r; lia). lia. }
    lia.
  - assert (HkL : (L < k)%Z).
    { destruct (Z.lt_ge_cases L k) as [|Hge]; [assumption|].
      assert (2 ^ k <= 2 ^ L)%Z by (apply Z.pow_le_mono_r; lia). lia. }
    pose proof (cdiv_spec (2 ^ k) m Hm) as [C1 C2]. set (c := cdiv (2 ^ k) m) in *.
    assert (Hpk : (2 ^ k = 2 ^ (k - L) * 2 ^ L)%Z) by (rewrite <- Z.pow_add_r; [f_equal|..]; lia).
    rewrite (Z.log2_up_unique c (k - L)); [lia | lia |].
    assert (HpL : (2 ^ Z.succ L = 2 * 2 ^ L)%Z) by (rewrite Z.pow_succ_r; lia).
    assert (Hpk1 : (2 ^ (k - L) = 2 * 2 ^ Z.pred (k - L))%Z)
      by (rewrite <- Z.pow_succ_r by lia; f_equal; lia).
    assert (0 < 2 ^ L)%Z by (apply Z.pow_pos_nonneg; lia).
    assert (0 < 2 ^ Z.pred (k - L))%Z by (apply Z.pow_pos_nonneg; lia).
    split.
    + (* c * m >= 2^k = 2^(pred (k-L)) * 2^(L+1) > 2^(pred(k-L)) * m *)
      nia.
    + (* m * (c - 1) < 2^k <= m * 2^(k-L) *)
      nia.
Qed.

Lemma flog2_scale (p q c : Z) :
  (0 < p)%Z -> (0 < q)%Z -> (0 < c)%Z -> flog2 (p * c) (q * c) = flog2 p q.
Proof.
  intros Hp Hq Hc. unfold flog2, cdiv.
  replace (q * c <=? p * c)%Z with (q <=? p)%Z
    by (destruct (Z.leb_spec q p), (Z.leb_spec (q * c) (p * c)); nia).
  rewrite !Z.div_mul_cancel_r, Z.mul_mod_distr_r by lia.
  replace ((q mod p) * c =? 0)%Z with (q mod p =? 0)%Z
    by (destruct (Z.eqb_spec (q mod p) 0), (Z.eqb_spec (q mod p * c) 0); nia).
  reflexivity.
Qed.

Lemma round_frac_scale (neg : bool) (P Q e c : Z) :
  (0 < Q)%Z -> (0 < c)%Z -> round_frac neg (P * c) (Q * c) e = round_frac neg P Q e.
Proof.
  intros HQ Hc. unfold round_frac.
  rewrite Z.div_mul_cancel_r, Z.mul_mod_distr_r by lia.
  replace (Q * c <? 2 * (P mod Q * c))%Z with (Q <? 2 * (P mod Q))%Z
    by (destruct (Z.ltb_spec Q (2 * (P mod Q))), (Z.ltb_spec (Q * c) (2 * (P mod Q * c))); nia).
  replace (2 * (P mod Q * c) =? Q * c)%Z with (2 * (P mod Q) =? Q)%Z
    by (destruct (Z.eqb_spec (2 * (P mod Q)) Q), (Z.eqb_spec (2 * (P mod Q * c)) (Q * c)); nia).
  reflexivity.
Qed.

(** Rounding depends on the fraction [p / q] only. *)
Lemma round_pq_scale (neg : bool) (p q c : positive) :
  round_pq neg (p * c) (q * c) = round_pq neg p q.
Proof.
  unfold round_pq. rewrite !Pos2Z.inj_mul, flog2_scale by lia.
  set (e := Z.max _ _). destruct (Z.leb_spec 0 e).
  - replace (Zpos q * Zpos c * 2 ^ e)%Z with (Zpos q * 2 ^ e * Zpos c)%Z by ring.
    apply round_frac_scale; [|lia].
    assert (0 < 2 ^ e)%Z by (apply Z.pow_pos_nonneg; lia). lia.
  - replace (Zpos p * Zpos c * 2 ^ (- e))%Z with (Zpos p * 2 ^ (- e) * Zpos c)%Z by ring.
    apply round_frac_scale; lia.
Qed.

Lemma round_frac_exact (neg : bool) (m Q e : Z) :
  (0 < Q)%Z -> (0 < m < 2 ^ prec)%Z -> (e <= emax - prec)%Z ->
  round_frac neg (m * Q) Q e = S754_finite neg (Z.to_pos m) e.
Proof.
  intros HQ Hm He. unfold round_frac.
  rewrite Z.div_mul, Z.mod_mul by lia.
  replace (Q <? 2 * 0)%Z with false by (symmetry; apply Z.ltb_ge; lia).
  replace (2 * 0 =? Q)%Z with false by (symmetry; apply Z.eqb_neq; lia).
  simpl. replace (m =? 2 ^ prec)%Z with false by (symmetry; apply Z.eqb_neq; lia).
  replace (m =? 0)%Z with false by (symmetry; apply Z.eqb_neq; lia).
  replace (emax - prec <? e)%Z with false by (symmetry; apply Z.ltb_ge; lia).
  reflexivity.
Qed.

(** A double is the rounding of its own value. *)
Lemma round_dyadic_exact (s : bool) (m : positive) (e : Z) :
  valid_binary prec emax (S754_finite s m e) = true ->
  round_dyadic s m e = S754_finite s m e.
Proof.
  simpl. unfold bounded. intros H. apply andb_true_iff in H as [Hc He].
  apply Z.leb_le in He.
  pose proof (canonical_exp m e Hc) as Hx. pose proof (canonical_bounds m e Hc) as (Hm & _ & Hmin).
  unfold round_dyadic, round_pq. destruct (Z.leb_spec 0 e) as [He0|He0].
  - assert (Hp : (0 < 2 ^ e)%Z) by (apply Z.pow_pos_nonneg; lia).
    rewrite Pos2Z.inj_mul, Z2Pos.id by exact Hp.
    rewrite flog2_mul_pow2 by lia.
    replace (Z.max (Z.log2 (Zpos m) + e - (prec - 1)) (emin prec emax)) with e by (rewrite <- Hx at 1; f_equal; lia).
    replace (0 <=? e)%Z with true by (symmetry; apply Z.leb_le; lia).
    rewrite Z.mul_1_l, round_frac_exact by lia. reflexivity.
  - assert (Hp : (0 < 2 ^ (- e))%Z) by (apply Z.pow_pos_nonneg; lia).
    rewrite Z2Pos.id by exact Hp.
    rewrite flog2_div_pow2 by lia.
    replace (Z.max (Z.log2 (Zpos m) - - e - (prec - 1)) (emin prec emax)) with e by (rewrite <- Hx at 1; f_equal; lia).
    replace (0 <=? e)%Z with false by (symmetry; apply Z.leb_gt; lia).
    rewrite round_frac_exact by lia. reflexivity.
Qed.

Lemma dec_round_exact (s : bool) (m : positive) (e : Z) :
  valid_binary prec emax (S754_finite s m e) = true ->
  dec_round s (fst (exact_decimal m e)) (snd (exact_decimal m e)) = S754_finite s m e.
Proof.
  intros Hv. rewrite <- (round_dyadic_exact s m e Hv).
  unfold exact_decimal, dec_round, round_dyadic. destruct (Z.leb_spec 0 e) as [He|He]; simpl.
  - assert (Hp : (0 < 2 ^ e)%Z) by (apply Z.pow_pos_nonneg; lia).
    destruct (2 ^ e)%Z as [|q|q] eqn:Eq; try lia. simpl. f_equal. lia.
  - assert (Hp : (0 < 5 ^ (- e))%Z) by (apply Z.pow_pos_nonneg; lia).
    assert (Hq : (0 < 2 ^ (- e))%Z) by (apply Z.pow_pos_nonneg; lia).
    destruct (5 ^ (- e))%Z as [|c|c] eqn:E5; try lia. simpl.
    replace (0 <=? e)%Z with false by (symmetry; apply Z.leb_gt; lia).
    replace (Z.to_pos (10 ^ (- e))) with (Z.to_pos (2 ^ (- e)) * c)%positive.
    + apply round_pq_scale.
    + assert (H10 : (0 < 10 ^ (- e))%Z) by (apply Z.pow_pos_nonneg; lia).
      apply Pos2Z.inj. rewrite Pos2Z.inj_mul, !Z2Pos.id by lia.
      rewrite <- E5, <- Z.pow_mul_l. reflexivity.
Qed.

Lemma dec_round_strip (neg : bool) (d j : Z) :
  (0 < d)%Z -> (d mod 10 = 0)%Z -> dec_round neg (d / 10) (j + 1) = dec_round neg d j.
Proof.
  intros Hd Hm.
  assert (Hd' : d = (d / 10 * 10)%Z) by (pose proof (Z.div_mod d 10); lia).
  assert (Hq : (0 < d / 10)%Z) by lia.
  remember (d / 10)%Z as q eqn:Eq. clear Eq. subst d.
  destruct q as [|q|q]; try lia. unfold dec_round. simpl.
  destruct (Z.leb_spec 0 j) as [Hj|Hj].
  - replace (0 <=? j + 1)%Z with true by (symmetry; apply Z.leb_le; lia).
    f_equal. apply Pos2Z.inj.
    assert (0 < 10 ^ j)%Z by (apply Z.pow_pos_nonneg; lia).
    assert (0 < 10 ^ (j + 1))%Z by (apply Z.pow_pos_nonneg; lia).
    rewrite !Pos2Z.inj_mul, !Z2Pos.id by lia. rewrite Z.pow_add_r by lia. simpl. ring.
  - destruct (Z.eq_dec j (-1)) as [->|Hj1].
    + simpl. rewrite Pos.mul_1_r. rewrite <- (round_pq_scale neg q 1 10). reflexivity.
    + replace (0 <=? j + 1)%Z with false by (symmetry; apply Z.leb_gt; lia).
      assert (0 < 10 ^ (- (j + 1)))%Z by (apply Z.pow_pos_nonneg; lia).
      replace (Z.to_pos (10 ^ (- j))) with (Z.to_pos (10 ^ (- (j + 1))) * 10)%positive.
      * symmetry. apply round_pq_scale.
      * apply Pos2Z.inj. rewrite Pos2Z.inj_mul, !Z2Pos.id; [|apply Z.pow_pos_nonneg; lia|lia].
        replace (- j)%Z with (- (j + 1) + 1)%Z by lia. rewrite Z.pow_add_r by lia. ring.
Qed.

Lemma strip_zeros_spec (neg : bool) (f : nat) (s j : Z) :
  (0 < s)%Z ->
  (0 < fst (strip_zeros f s j))%Z /\
  dec_round neg (fst (strip_zeros f s j)) (snd (strip_zeros f s j)) = dec_round neg s j.
Proof.
  revert s j. induction f as [|f IH]; intros s j Hs; simpl; [auto|].
  destruct (Z.ltb_spec 0 s); simpl; [|lia].
  destruct (Z.eqb_spec (s mod 10) 0) as [Hm|Hm]; simpl; [|auto].
  assert (0 < s / 10)%Z.
  { pose proof (Z.div_mod s 10). apply Z.div_str_pos. lia. }
  destruct (IH (s / 10)%Z (j + 1)%Z H0) as [H1 H2]. split; [exact H1|].
  rewrite H2. apply dec_round_strip; lia.
Qed.

Lemma num_eqb_true (a b : num) : num_eqb a b = true -> a = b.
Proof.
  destruct a, b; simpl; try discriminate; intros H;
    repeat match goal with
           | H : _ && _ = true |- _ => apply andb_true_iff in H as [? ?]
           end;
    repeat match goal with
           | H : Bool.eqb _ _ = true |- _ => apply Bool.eqb_prop in H
           | H : Pos.eqb _ _ = true |- _ => apply Pos.eqb_eq in H
           | H : Z.eqb _ _ = true |- _ => apply Z.eqb_eq in H
           end; subst; reflexivity.
Qed.

Lemma shortest_spec (x : num) (neg : bool) (N E D : Z) (f : nat) (k : Z) (s j : Z) :
  shortest x neg N E D f k = Some (s, j) -> dec_round neg s j = x.
Proof.
  revert k. induction f as [|f IH]; intros k; simpl; [discriminate|].
  destruct (num_eqb (dec_round neg _ _) x) eqn:E1, (num_eqb (dec_round neg (_ + 1) _) x) eqn:E2;
    simpl; intros H; try (injection H as <- <-);
    try (apply num_eqb_true; assumption).
  - destruct (_ || _); apply num_eqb_true; assumption.
  - eapply IH. exact H.
Qed.

Lemma dec_round_pos (neg : bool) (s j : Z) (m : positive) (e : Z) :
  dec_round neg s j = S754_finite neg m e -> (0 < s)%Z.
Proof. destruct s; simpl; try discriminate; lia. Qed.

(** The digits chosen by [Number::toString] denote the number. *)
Lemma decimal_of_spec (neg : bool) (m : positive) (e : Z) :
  valid_binary prec emax (S754_finite neg m e) = true ->
  (0 < fst (decimal_of (S754_finite neg m e) neg m e))%Z /\
  dec_round neg (fst (decimal_of (S754_finite neg m e) neg m e))
                (snd (decimal_of (S754_finite neg m e) neg m e)) = S754_finite neg m e.
Proof.
  intros Hv. unfold decimal_of.
  pose proof (dec_round_exact neg m e Hv) as Hx.
  destruct (exact_decimal m e) as [N E]. simpl in Hx.
  set (D := String.length _).
  destruct (shortest _ _ _ _ _ _ _) as [[s j]|] eqn:Hs.
  - apply shortest_spec in Hs.
    pose proof (dec_round_pos _ _ _ _ _ Hs) as Hs0.
    destruct (strip_zeros_spec neg D s j Hs0) as [H1 H2]. split; [exact H1|]. congruence.
  - pose proof (dec_round_pos _ _ _ _ _ Hx) as Hs0.
    destruct (strip_zeros_spec neg D N E Hs0) as [H1 H2]. split; [exact H1|]. congruence.
Qed.

End Binary64.

Lemma span_digits_app (d : string) (c : ascii) (r : string) :
  all_chars is_digit d = true -> is_digit c = false ->
  span_digits (d ++ String c r) = (d, String c r).
Proof.
  intros Hd Hc. induction d as [|x d IH]; simpl.
  - now rewrite Hc.
  - simpl in Hd. apply andb_true_iff in Hd as [Hx Hd]. rewrite Hx, (IH Hd). reflexivity.
Qed.


Lemma digit_cases (d : N) : (d < 10)%N ->
  d = 0%N \/ d = 1%N \/ d = 2%N \/ d = 3%N \/ d = 4%N \/ d = 5%N \/ d = 6%N \/ d = 7%N \/ d = 8%N \/ d = 9%N.
Proof. intros. lia. Qed.

Lemma N_to_dec_not_minus (n : N) (X : string) :
  match N_to_dec n ++ X with String "-" r => (true, r) | _ => (false, N_to_dec n ++ X) end
  = (false, N_to_dec n ++ X).
Proof.
  destruct (N_to_dec_spec n) as (_ & _ & d & rest & Hn & Hd & _ & _). rewrite Hn.
  destruct (digit_cases d Hd) as [->|[->|[->|[->|[->|[->|[->|[->|[->| ->]]]]]]]]]; reflexivity.
Qed.

Lemma N_to_dec_no_lead_zero {A : Type} (n : N) (N0 K : A) :
  match N_to_dec n with EmptyString => N0 | String "0" (String _ _) => N0 | _ => K end = K.
Proof.
  destruct (N_to_dec_spec n) as (_ & _ & d & rest & Hn & Hd & H0 & Hr). rewrite Hn.
  destruct (digit_cases d Hd) as [->|[->|[->|[->|[->|[->|[->|[->|[->| ->]]]]]]]]];
    [rewrite (Hr (H0 eq_refl))|..]; reflexivity.
Qed.


Lemma span_digits_all (d : string) : all_chars is_digit d = true -> span_digits d = (d, EmptyString).
Proof.
  induction d as [|x d IH]; simpl; [reflexivity|].
  intros Hd. apply andb_true_iff in Hd as [Hx Hd]. rewrite Hx, (IH Hd). reflexivity.
Qed.


(** ** Text of numbers *)

Lemma digit_cases' (c : ascii) : is_digit c = true ->
  c = "0"%char \/ c = "1"%char \/ c = "2"%char \/ c = "3"%char \/ c = "4"%char \/
  c = "5"%char \/ c = "6"%char \/ c = "7"%char \/ c = "8"%char \/ c = "9"%char.
Proof.
  unfold is_digit. intros H. apply andb_true_iff in H as [H1 H2]. apply N.leb_le in H1, H2.
  rewrite <- (ascii_N_embedding c).
  assert (HC : (N_of_ascii c = 48 \/ N_of_ascii c = 49 \/ N_of_ascii c = 50 \/ N_of_ascii c = 51 \/
     N_of_ascii c = 52 \/ N_of_ascii c = 53 \/ N_of_ascii c = 54 \/ N_of_ascii c = 55 \/
     N_of_ascii c = 56 \/ N_of_ascii c = 57)%N) by lia.
  destruct HC as [->|[->|[->|[->|[->|[->|[->|[->|[->| ->]]]]]]]]]; auto 10.
Qed.

Lemma zeros_digits (t : nat) (acc : N) :
  all_chars is_digit (zeros t) = true /\ digits_value acc (zeros t) = Some (acc * 10 ^ N.of_nat t)%N.
Proof.
  revert acc. induction t as [|t IH]; intros acc; simpl.
  - split; [reflexivity|]. f_equal. lia.
  - destruct (IH (acc * 10 + digit_val "0")%N) as [H1 H2]. split; [exact H1|].
    rewrite H2. f_equal. rewrite Nat2N.inj_succ, N.pow_succ_r'. unfold digit_val. simpl. lia.
Qed.

Lemma zeros_length (t : nat) : String.length (zeros t) = t.
Proof. induction t; simpl; congruence. Qed.

Lemma split_at_spec (n : nat) (s : string) :
  fst (split_at n s) ++ snd (split_at n s) = s /\
  String.length (fst (split_at n s)) = Nat.min n (String.length s).
Proof.
  revert s. induction n as [|n IH]; intros s; simpl; [split; reflexivity|].
  destruct s as [|c s]; simpl; [split; reflexivity|].
  destruct (IH s) as [H1 H2]. destruct (split_at n s) as [a b]. simpl in *.
  split; [now rewrite H1 | now rewrite H2].
Qed.

Lemma slen_app' (a b : string) : String.length (a ++ b) = (String.length a + String.length b)%nat.
Proof. induction a; simpl; congruence. Qed.

(** [d * 10 ^ t] written out in full is read as [d] with exponent [t]. *)
Lemma dec_round_shift (neg : bool) (d t : Z) :
  (0 <= t)%Z -> dec_round neg (d * 10 ^ t) 0 = dec_round neg d t.
Proof.
  intros Ht. assert (H10 : (0 < 10 ^ t)%Z) by (apply Z.pow_pos_nonneg; lia).
  unfold dec_round. replace (0 <=? t)%Z with true by (symmetry; apply Z.leb_le; lia).
  destruct (10 ^ t)%Z as [|q|q] eqn:Eq; try lia.
  destruct d as [|p|p]; simpl; [reflexivity| |reflexivity].
  now rewrite Pos.mul_1_r.
Qed.

Lemma shape_exp (d : ascii) (r : string) (V : N) (n : Z) :
  digits_value 0 (String d r) = Some V -> all_chars is_digit (String d r) = true ->
  d <> "0"%char ->
  text_shape (String d r) V n
    (match String d r with
     | String d EmptyString => String d (exp_text (n - 1))
     | String d r => String d ("." ++ r ++ exp_text (n - 1))
     | EmptyString => EmptyString
     end).
Proof.
  intros Hv Hd Hd0. simpl in Hd. apply andb_true_iff in Hd as [Hd1 Hd2].
  exists (str1 d), r, (Some (n - 1)%Z), V. destruct r as [|c r'].
  - split; [reflexivity|]. split; [simpl; now rewrite Hd1|]. split; [reflexivity|].
    split; [right; exists d, EmptyString; auto|]. split; [exact Hv|].
    intros neg. f_equal. simpl. lia.
  - split; [reflexivity|]. split; [simpl; now rewrite Hd1|]. split; [exact Hd2|].
    split; [right; exists d, EmptyString; auto|]. split; [exact Hv|].
    intros neg. f_equal. simpl. lia.
Qed.

Lemma shape_point (ds : string) (V : N) (n : Z) :
  digits_value 0 ds = Some V -> all_chars is_digit ds = true ->
  (exists d r, ds = String d r /\ d <> "0"%char) ->
  (0 < n < Z.of_nat (String.length ds))%Z ->
  text_shape ds V n (let '(a, b) := split_at (Z.to_nat n) ds in a ++ "." ++ b).
Proof.
  intros Hv Hd (d & r & Hds & Hd0) Hn.
  destruct (split_at_spec (Z.to_nat n) ds) as [H1 H2].
  destruct (split_at (Z.to_nat n) ds) as [a b]. simpl in H1, H2.
  assert (Hlen : String.length ds = (String.length a + String.length b)%nat)
    by (rewrite <- H1; apply slen_app').
  assert (Ha : String.length a = Z.to_nat n) by lia.
  exists a, b, None, V.
  destruct b as [|cb b'].
  { simpl in Hlen. lia. }
  split; [unfold num_text; simpl; now rewrite sapp_nil|].
  rewrite <- H1, all_chars_app in Hd. apply andb_true_iff in Hd as [Hda Hdb].
  split; [exact Hda|]. split; [exact Hdb|].
  split.
  { right. destruct a as [|ca a']; [simpl in Ha; lia|].
    exists ca, a'. split; [reflexivity|]. simpl in H1. rewrite Hds in H1. congruence. }
  split; [now rewrite H1|].
  intros neg. f_equal. simpl default. rewrite Hlen. lia.
Qed.

Lemma shape_small (ds : string) (V : N) (n : Z) :
  digits_value 0 ds = Some V -> all_chars is_digit ds = true ->
  (exists d r, ds = String d r /\ d <> "0"%char) -> (n <= 0)%Z ->
  text_shape ds V n ("0." ++ zeros (Z.to_nat (- n)) ++ ds).
Proof.
  intros Hv Hd (d & r & Hds & Hd0) Hn.
  destruct (zeros_digits (Z.to_nat (- n)) 0) as [Hz1 Hz2].
  exists "0", (zeros (Z.to_nat (- n)) ++ ds), None, V.
  assert (Hne : exists c w, zeros (Z.to_nat (- n)) ++ ds = String c w).
  { destruct (Z.to_nat (- n)); simpl; [rewrite Hds|]; eauto. }
  destruct Hne as (c & w & Hcw).
  split; [unfold num_text; rewrite Hcw, sapp_nil; reflexivity|].
  split; [reflexivity|]. split; [now rewrite all_chars_app, Hz1, Hd|].
  split; [left; split; [reflexivity | now rewrite Hcw]|].
  split.
  { change ("0" ++ zeros (Z.to_nat (- n)) ++ ds) with (zeros (S (Z.to_nat (- n))) ++ ds).
    rewrite digits_value_app. destruct (zeros_digits (S (Z.to_nat (- n))) 0) as [_ ->].
    rewrite N.mul_0_l. exact Hv. }
  intros neg. f_equal. simpl default. rewrite slen_app', zeros_length. lia.
Qed.

Lemma format_decimal_shape (ds : string) (V : N) (n : Z) :
  digits_value 0 ds = Some V -> all_chars is_digit ds = true ->
  (exists d r, ds = String d r /\ d <> "0"%char) ->
  text_shape ds V n (format_decimal ds n).
Proof.
  intros Hv Hd Hh. pose proof Hh as (d & r & Hds & Hd0).
  unfold format_decimal. set (k := Z.of_nat (String.length ds)).
  assert (Hk : (1 <= k)%Z) by (unfold k; rewrite Hds; simpl; lia).
  destruct ((k <=? n)%Z && (n <=? 21)%Z) eqn:C1.
  - (* digits then zeros *)
    apply andb_true_iff in C1 as [Hkn Hn21]. apply Z.leb_le in Hkn, Hn21.
    destruct (zeros_digits (Z.to_nat (n - k)) V) as [Hz1 Hz2].
    exists (ds ++ zeros (Z.to_nat (n - k))), EmptyString, None, (V * 10 ^ N.of_nat (Z.to_nat (n - k)))%N.
    split; [unfold num_text; simpl; now rewrite !sapp_nil|].
    split; [now rewrite all_chars_app, Hd, Hz1|]. split; [reflexivity|].
    split; [right; exists d, (r ++ zeros (Z.to_nat (n - k))); now rewrite Hds|].
    split; [rewrite sapp_nil, digits_value_app, Hv; exact Hz2|].
    intros neg. simpl. fold k. rewrite <- (dec_round_shift neg (Z.of_N V) (n - k)) by lia.
    f_equal. rewrite N2Z.inj_mul, N2Z.inj_pow, nat_N_Z, Z2Nat.id by lia. reflexivity.
  - destruct ((0 <? n)%Z && (n <=? 21)%Z) eqn:C2.
    + apply andb_true_iff in C2 as [H0n Hn21]. apply Z.ltb_lt in H0n. apply Z.leb_le in Hn21.
      apply shape_point; try assumption. fold k. lia.
    + destruct ((-6 <? n)%Z && (n <=? 0)%Z) eqn:C3.
      * apply andb_true_iff in C3 as [_ Hn0]. apply Z.leb_le in Hn0.
        apply shape_small; assumption.
      * rewrite Hds in Hv, Hd |- *. apply shape_exp; assumption.
Qed.

Lemma num_stop_cases (r : string) : num_stop r ->
  r = EmptyString \/ exists r', r = String ","%char r' \/ r = String "]"%char r' \/
                               r = String "}"%char r' \/ r = String "010"%char r'.
Proof.
  unfold num_stop. intros [->|(c & r' & -> & Hc)]; [now left|right; exists r'].
  simpl in Hc. intuition congruence.
Qed.

Lemma span_digits_stop (d r : string) :
  all_chars is_digit d = true -> num_stop r -> span_digits (d ++ r) = (d, r).
Proof.
  intros Hd Hr. apply num_stop_cases in Hr as [->|(r' & [->|[->|[->| ->]]])];
    [rewrite sapp_nil; now apply span_digits_all | ..]; apply span_digits_app; auto.
Qed.

Lemma parse_exponent_text (z : Z) (r : string) : num_stop r ->
  parse_exponent ((if (z <? 0)%Z then "-" else "+") ++ N_to_dec (Z.abs_N z) ++ r) = Some (z, r).
Proof.
  intros Hr. destruct (N_to_dec_spec (Z.abs_N z)) as (Hp & Ha & d & rest & Hn & _).
  unfold parse_exponent.
  destruct (Z.ltb_spec z 0); simpl; rewrite span_digits_stop by assumption; rewrite Hn;
    cbv beta iota zeta; rewrite <- Hn; unfold parse_digits in Hp; rewrite Hn in Hp; rewrite <- Hn in Hp;
    rewrite Hp; f_equal; f_equal; lia.
Qed.

Lemma exp_text_eq (z : Z) (r : string) :
  exp_text z ++ r = String "e" ((if (z <? 0)%Z then "-" else "+") ++ N_to_dec (Z.abs_N z) ++ r).
Proof. unfold exp_text. simpl. now rewrite !sapp_assoc. Qed.

Lemma parse_decimal_text (ip fp : string) (xo : option Z) (W : N) (r : string) :
  ip <> EmptyString -> all_chars is_digit ip = true -> all_chars is_digit fp = true ->
  digits_value 0 (ip ++ fp) = Some W -> num_stop r ->
  parse_decimal (num_text ip fp xo ++ r)
  = Some (Z.of_N W, (default 0 xo - Z.of_nat (String.length fp))%Z, r).
Proof.
  intros Hip Hi Hf HW Hr. unfold num_text, parse_decimal. rewrite !sapp_assoc.
  destruct fp as [|f fp'].
  - rewrite sapp_nil in HW. change (EmptyString ++ ?x) with x.
    destruct xo as [z|].
    + rewrite exp_text_eq, span_digits_app by (auto; reflexivity). cbv beta iota zeta.
      rewrite (sapp_nil ip). destruct ip as [|a ip']; [congruence|].
      simpl is_exp_mark. cbv iota. rewrite parse_exponent_text by exact Hr.
      cbv beta iota zeta. rewrite HW. reflexivity.
    + change (EmptyString ++ ?x) with x. rewrite span_digits_stop by assumption.
      destruct ip as [|a ip']; [congruence|].
      apply num_stop_cases in Hr as [->|(r' & [->|[->|[->| ->]]])]; cbv beta iota zeta;
        rewrite (sapp_nil (String a ip')), HW; reflexivity.
  - change (("." ++ String f fp') ++ ?x) with (String "." (String f fp' ++ x)).
    rewrite span_digits_app by (auto; reflexivity). cbv beta iota zeta.
    destruct xo as [z|].
    + rewrite exp_text_eq, span_digits_app by (auto; reflexivity). cbv beta iota zeta.
      destruct ip as [|a ip']; [congruence|].
      change (String a ip' ++ ?x) with (String a (ip' ++ x)) in HW |- *.
      simpl is_exp_mark. cbv iota. rewrite parse_exponent_text by exact Hr.
      cbv beta iota zeta. rewrite HW. reflexivity.
    + change (EmptyString ++ ?x) with x. rewrite span_digits_stop by assumption.
      destruct ip as [|a ip']; [congruence|].
      change (String a ip' ++ ?x) with (String a (ip' ++ x)) in HW |- *.
      apply num_stop_cases in Hr as [->|(r' & [->|[->|[->| ->]]])]; cbv beta iota zeta;
        rewrite HW; reflexivity.
Qed.

Ltac eqb_lits :=
  repeat match goal with
  | |- context [Ascii.eqb (Ascii ?a1 ?a2 ?a3 ?a4 ?a5 ?a6 ?a7 ?a8) (Ascii ?b1 ?b2 ?b3 ?b4 ?b5 ?b6 ?b7 ?b8)] =>
      let t := constr:(Ascii.eqb (Ascii a1 a2 a3 a4 a5 a6 a7 a8) (Ascii b1 b2 b3 b4 b5 b6 b7 b8)) in
      let v := eval vm_compute in t in change t with v
  end; cbv beta iota zeta.

Lemma digit_neq (a c : ascii) : is_digit a = true -> is_digit c = false -> Ascii.eqb a c = false.
Proof.
  intros Ha Hc. destruct (Ascii.eqb_spec a c) as [->|]; [congruence|reflexivity].
Qed.

Lemma radix_prefix_nz (z : ascii) (t : string) :
  Ascii.eqb z "0" = false -> radix_prefix (String z t) = None.
Proof. intros H. destruct t; simpl; now rewrite ?H. Qed.

Lemma text_chars (P : ascii -> bool) (neg : bool) (ip fp : string) (xo : option Z) :
  (forall c, is_digit c = true -> P c = true) ->
  P "."%char = true -> P "e"%char = true -> P "+"%char = true -> P "-"%char = true ->
  all_chars is_digit ip = true -> all_chars is_digit fp = true ->
  all_chars P ((if neg then "-" else "") ++ num_text ip fp xo) = true.
Proof.
  intros HP Hdot He Hplus Hminus Hi Hf.
  assert (Hd : forall s, all_chars is_digit s = true -> all_chars P s = true).
  { intros s Hs. now apply (all_chars_impl is_digit). }
  unfold num_text. rewrite !all_chars_app. apply andb_true_iff; split;
    [destruct neg; simpl; now rewrite ?Hminus|].
  rewrite Hd by exact Hi. destruct fp as [|f fp']; cbv iota;
  [|rewrite all_chars_app, (Hd (String f fp') Hf); simpl all_chars at 1; rewrite Hdot];
  (destruct xo as [z|]; [|reflexivity]); unfold exp_text; rewrite !all_chars_app;
  destruct (z <? 0)%Z; cbn [all_chars]; rewrite He, ?Hplus, ?Hminus; cbn [andb];
  apply Hd, N_to_dec_spec.
Qed.

Lemma text_nonspace (neg : bool) (ip fp : string) (xo : option Z) :
  all_chars is_digit ip = true -> all_chars is_digit fp = true ->
  all_chars (fun c => negb (is_js_space c)) ((if neg then "-" else "") ++ num_text ip fp xo) = true.
Proof.
  intros. apply text_chars; auto. intros c Hc. now rewrite is_digit_not_space.
Qed.

Lemma str_to_num_dec (t u : string) (neg : bool) (d x : Z) :
  trim t = t -> t <> EmptyString -> radix_prefix t = None -> split_sign t = (neg, u) ->
  String.eqb u "Infinity" = false -> parse_decimal u = Some (d, x, EmptyString) ->
  str_to_num t = dec_round neg d x.
Proof.
  intros Ht Hne Hr Hs Hi Hp. unfold str_to_num. rewrite Ht.
  destruct t as [|a t]; [congruence|]. cbv beta iota zeta.
  rewrite Hr, Hs. cbv beta iota zeta. now rewrite Hi, Hp.
Qed.

Lemma str_to_num_text (neg : bool) (ip fp : string) (xo : option Z) (W : N) :
  all_chars is_digit ip = true -> all_chars is_digit fp = true ->
  (ip = "0" \/ exists a ip', ip = String a ip' /\ a <> "0"%char) ->
  digits_value 0 (ip ++ fp) = Some W ->
  str_to_num ((if neg then "-" else "") ++ num_text ip fp xo)
  = dec_round neg (Z.of_N W) (default 0 xo - Z.of_nat (String.length fp))%Z.
Proof.
  intros Hi Hf Hlead HW.
  assert (Hip : exists a ip', ip = String a ip' /\ is_digit a = true).
  { destruct Hlead as [->|(a & ip' & -> & _)]; [now exists "0"%char, ""|].
    exists a, ip'. split; [reflexivity|]. simpl in Hi. now apply andb_true_iff in Hi as [? _]. }
  destruct Hip as (a & ip' & Eip & Had).
  apply (str_to_num_dec _ (num_text ip fp xo)).
  - now apply trim_all_nonspace, text_nonspace.
  - rewrite Eip. now destruct neg.
  - destruct Hlead as [->|(a' & ip'' & -> & Ha)].
    + destruct neg; [reflexivity|]. unfold num_text. destruct fp; [destruct xo|]; reflexivity.
    + destruct neg; [reflexivity|]. apply radix_prefix_nz.
      destruct (Ascii.eqb_spec a' "0"); congruence.
  - destruct neg; [reflexivity|]. rewrite Eip. unfold num_text. cbn [String.append].
    unfold split_sign. now rewrite (digit_neq a "+"), (digit_neq a "-") by auto.
  - rewrite Eip. unfold num_text. cbn [String.append]. simpl String.eqb.
    now rewrite (digit_neq a "I") by auto.
  - rewrite <- (sapp_nil (num_text ip fp xo)). apply parse_decimal_text; auto.
    + now rewrite Eip.
    + now left.
Qed.

Lemma json_sign_text (neg : bool) (t : string) :
  match t with EmptyString => True | String a _ => is_digit a = true end ->
  json_sign ((if neg then "-" else "") ++ t) = (neg, t).
Proof.
  intros H. destruct neg; [reflexivity|]. destruct t as [|a t]; [reflexivity|].
  simpl. now rewrite (digit_neq a "-") by auto.
Qed.

Lemma parse_json_number_text (neg : bool) (ip fp : string) (xo : option Z) (W : N) (r : string) :
  all_chars is_digit ip = true -> all_chars is_digit fp = true ->
  (ip = "0" \/ exists a ip', ip = String a ip' /\ a <> "0"%char) ->
  digits_value 0 (ip ++ fp) = Some W -> num_stop r ->
  parse_json_number ((if neg then "-" else "") ++ num_text ip fp xo ++ r)
  = Some (dec_round neg (Z.of_N W) (default 0 xo - Z.of_nat (String.length fp))%Z, r).
Proof.
  intros Hi Hf Hlead HW Hr.
  assert (Hip : exists a ip', ip = String a ip' /\ (Ascii.eqb a "0" && negb (String.eqb ip' "")) = false).
  { destruct Hlead as [->|(a & ip' & -> & Ha)]; [now exists "0"%char, ""|].
    exists a, ip'. split; [reflexivity|]. destruct (Ascii.eqb_spec a "0"); [congruence|reflexivity]. }
  destruct Hip as (a & ip' & -> & Hz).
  unfold parse_json_number. rewrite json_sign_text
    by (unfold num_text; simpl in Hi |- *; now apply andb_true_iff in Hi as [? _]).
  cbv beta iota zeta. unfold num_text. rewrite !sapp_assoc.
  destruct fp as [|f fp'].
  - rewrite sapp_nil in HW. change (EmptyString ++ ?x) with x.
    destruct xo as [z|].
    + rewrite exp_text_eq, span_digits_app by (auto; reflexivity). cbv beta iota zeta.
      rewrite Hz. eqb_lits.
      simpl is_exp_mark. cbv iota. rewrite parse_exponent_text by exact Hr.
      cbv beta iota zeta. rewrite (sapp_nil (String a ip')), HW. reflexivity.
    + change (EmptyString ++ ?x) with x. rewrite span_digits_stop by assumption.
      cbv beta iota zeta. rewrite Hz.
      apply num_stop_cases in Hr as [->|(r' & [->|[->|[->| ->]]])]; cbv beta iota zeta; eqb_lits;
        rewrite (sapp_nil (String a ip')), HW; reflexivity.
  - change (("." ++ String f fp') ++ ?x) with (String "." (String f fp' ++ x)).
    rewrite span_digits_app by (auto; reflexivity). cbv beta iota zeta; eqb_lits. rewrite Hz.
    cbv beta iota zeta; eqb_lits.
    destruct xo as [z|].
    + rewrite exp_text_eq, span_digits_app by (auto; reflexivity). cbv beta iota zeta; eqb_lits.
      simpl is_exp_mark. cbv iota. rewrite parse_exponent_text by exact Hr.
      cbv beta iota zeta; eqb_lits. rewrite HW. reflexivity.
    + change (EmptyString ++ ?x) with x. rewrite span_digits_stop by assumption.
      apply num_stop_cases in Hr as [->|(r' & [->|[->|[->| ->]]])]; cbv beta iota zeta; eqb_lits;
        rewrite HW; reflexivity.
Qed.

Lemma num_to_string_finite (neg : bool) (m : positive) (e : Z) :
  valid_binary prec emax (S754_finite neg m e) = true ->
  exists ip fp xo W,
    num_to_string (S754_finite neg m e) = (if neg then "-" else "") ++ num_text ip fp xo /\
    all_chars is_digit ip = true /\ all_chars is_digit fp = true /\
    (ip = "0" \/ exists a ip', ip = String a ip' /\ a <> "0"%char) /\
    digits_value 0 (ip ++ fp) = Some W /\
    dec_round neg (Z.of_N W) (default 0 xo - Z.of_nat (String.length fp))%Z = S754_finite neg m e.
Proof.
  intros Hv. destruct (decimal_of_spec neg m e Hv) as [Hpos Hround].
  unfold num_to_string. destruct (decimal_of (S754_finite neg m e) neg m e) as [s j] eqn:Hd.
  simpl in Hpos, Hround.
  destruct (N_to_dec_spec (Z.to_N s)) as (Hp & Ha & d & rest & Hn & Hd10 & Hd0 & _).
  assert (Hv' : digits_value 0 (N_to_dec (Z.to_N s)) = Some (Z.to_N s)).
  { unfold parse_digits in Hp. rewrite Hn in Hp. now rewrite Hn. }
  assert (Hlead : exists d' r, N_to_dec (Z.to_N s) = String d' r /\ d' <> "0"%char).
  { exists (digit_char d), rest. split; [exact Hn|]. intros E.
    pose proof (digit_char_code d Hd10) as Hc. rewrite E in Hc. simpl in Hc.
    assert (d = 0%N) by lia. specialize (Hd0 H). lia. }
  destruct (format_decimal_shape _ _ (Z.of_nat (String.length (N_to_dec (Z.to_N s))) + j) Hv' Ha Hlead)
    as (ip & fp & xo & W & Ht & Hi & Hf & Hl & HW & Hr).
  exists ip, fp, xo, W. rewrite Ht. do 4 (split; [auto|]).
  - destruct Hl as [[-> _]|(d' & r & -> & Hd')]; [now left | right; eauto].
  - split; [exact HW|]. rewrite Hr. rewrite <- Hround.
    rewrite Z2N.id by lia. f_equal. lia.
Qed.

Lemma str_to_num_print (x : num) :
  num_ok x = true ->
  str_to_num (num_to_string x) = match x with S754_zero _ => S754_zero false | _ => x end.
Proof.
  intros Hv. destruct x as [s|[|]| |s m e]; try reflexivity.
  destruct (num_to_string_finite s m e Hv) as (ip & fp & xo & W & -> & Hi & Hf & Hl & HW & Hr).
  now rewrite (str_to_num_text s ip fp xo W).
Qed.

Lemma parse_json_number_print (x : num) (r : string) :
  num_ok x = true -> num_finite x = true -> num_stop r ->
  parse_json_number (num_to_string x ++ r)
  = Some (match x with S754_zero _ => S754_zero false | _ => x end, r).
Proof.
  intros Hv Hfin Hr. destruct x as [s|[|]| |s m e]; try discriminate.
  - apply num_stop_cases in Hr as [->|(r' & [->|[->|[->| ->]]])]; reflexivity.
  - destruct (num_to_string_finite s m e Hv) as (ip & fp & xo & W & -> & Hi & Hf & Hl & HW & Hrd).
    rewrite sapp_assoc, (parse_json_number_text s ip fp xo W) by assumption. now rewrite Hrd.
Qed.
Section Valid.
Local Open Scope Z_scope.

Lemma valid_finite (s : bool) (m : positive) (e : Z) :
  Zpos m < 2 ^ prec -> (e = emin prec emax \/ 2 ^ (prec - 1) <= Zpos m) ->
  emin prec emax <= e -> e <= emax - prec ->
  valid_binary prec emax (S754_finite s m e) = true.
Proof.
  intros H1 H2 H3 H4. unfold valid_binary, bounded, canonical_mantissa, fexp.
  rewrite digits2_pos_size. apply andb_true_iff. split; [|apply Z.leb_le; exact H4].
  apply Z.eqb_eq.
  pose proof (log2_pos_size m) as HL. pose proof (Z.log2_spec (Zpos m) eq_refl) as [L1 L2].
  assert (Hs : Z.log2 (Zpos m) < prec).
  { apply Z.log2_lt_pow2; lia. }
  destruct H2 as [He|H2].
  - unfold prec, emax, emin in *. lia.
  - assert (prec - 1 <= Z.log2 (Zpos m)) by (apply Z.log2_le_pow2; unfold prec in *; lia).
    unfold prec, emax, emin in *. lia.
Qed.

Lemma round_frac_valid (neg : bool) (P Q e : Z) :
  0 < Q -> 0 <= P -> P < Q * 2 ^ prec -> emin prec emax <= e ->
  (e = emin prec emax \/ Q * 2 ^ (prec - 1) <= P) ->
  valid_binary prec emax (round_frac neg P Q e) = true.
Proof.
  intros HQ HP HPQ He Hn. unfold round_frac.
  set (m0 := P / Q). set (r := P mod Q).
  assert (Hm0 : 0 <= m0 < 2 ^ prec).
  { split; [apply Z.div_pos; lia|]. apply Z.div_lt_upper_bound; lia. }
  assert (Hr : 0 <= r < Q) by (apply Z.mod_pos_bound; lia).
  assert (Hn' : e = emin prec emax \/ 2 ^ (prec - 1) <= m0).
  { destruct Hn as [Hn|Hn]; [now left|right]. apply Z.div_le_lower_bound; lia. }
  set (m := if (Q <? 2 * r) || ((2 * r =? Q) && Z.odd m0) then m0 + 1 else m0).
  assert (Hm : m0 <= m <= m0 + 1) by (unfold m; destruct (_ || _); lia).
  clearbody m.
  assert (Hp : 2 ^ prec = 2 * 2 ^ (prec - 1)) by (unfold prec; reflexivity).
  destruct (Z.eqb_spec m (2 ^ prec)) as [Hc|Hc].
  - cbv zeta. replace (2 ^ (prec - 1) =? 0) with false by (unfold prec; reflexivity).
    destruct (Z.ltb_spec (emax - prec) (e + 1)); [reflexivity|].
    apply valid_finite; unfold prec, emax, emin in *; simpl; lia.
  - destruct (Z.eqb_spec m 0); [reflexivity|].
    destruct (Z.ltb_spec (emax - prec) e); [reflexivity|].
    apply valid_finite; try rewrite Z2Pos.id by lia; try lia.
Qed.

Lemma flog2_spec (p q : Z) : 0 < p -> 0 < q ->
  (0 <= flog2 p q /\ q * 2 ^ flog2 p q <= p < q * 2 ^ (flog2 p q + 1)) \/
  (flog2 p q < 0 /\ q <= p * 2 ^ (- flog2 p q) /\ p * 2 ^ (- flog2 p q - 1) < q).
Proof.
  intros Hp Hq. unfold flog2. destruct (Z.leb_spec q p) as [Hle|Hlt].
  - left. assert (H1 : 1 <= p / q) by (apply Z.div_le_lower_bound; lia).
    pose proof (Z.log2_spec (p / q) ltac:(lia)) as [L1 L2].
    pose proof (Z.log2_nonneg (p / q)).
    pose proof (Z.mul_div_le p q Hq). pose proof (Z.mod_pos_bound p q Hq).
    pose proof (Z.div_mod p q ltac:(lia)).
    rewrite Z.pow_succ_r in L2 by lia.
    replace (2 ^ (Z.log2 (p / q) + 1)) with (2 * 2 ^ Z.log2 (p / q))
      by (rewrite Z.add_1_r, Z.pow_succ_r by lia; ring).
    split; [lia|]. nia.
  - right. pose proof (cdiv_spec q p Hp) as [C1 C2].
    assert (Hc : 1 < cdiv q p) by nia.
    pose proof (Z.log2_up_spec (cdiv q p) Hc) as [U1 U2].
    pose proof (Z.log2_up_pos (cdiv q p) Hc).
    rewrite Z.opp_involutive. split; [lia|]. split.
    + nia.
    + replace (Z.log2_up (cdiv q p) - 1) with (Z.pred (Z.log2_up (cdiv q p))) by lia. nia.
Qed.

Lemma round_pq_args (neg : bool) (p q : positive) :
  exists P Q e, round_pq neg p q = round_frac neg P Q e /\
    0 < Q /\ 0 <= P /\ P < Q * 2 ^ prec /\ emin prec emax <= e /\
    (e = emin prec emax \/ Q * 2 ^ (prec - 1) <= P) /\
    (Zpos q <= Zpos p * 2 ^ (- emin prec emax) -> Q <= P).
Proof.
  unfold round_pq. set (f := flog2 (Zpos p) (Zpos q)).
  set (e := Z.max (f - (prec - 1)) (emin prec emax)).
  assert (Hf := flog2_spec (Zpos p) (Zpos q) eq_refl eq_refl). fold f in Hf.
  assert (He1 : f - (prec - 1) <= e) by lia. assert (He2 : emin prec emax <= e) by lia.
  assert (He3 : e = emin prec emax \/ e = f - (prec - 1)) by lia.
  pose proof (Pos2Z.is_pos p). pose proof (Pos2Z.is_pos q).
  assert (P52 : 0 < 2 ^ (prec - 1)) by (apply Z.pow_pos_nonneg; unfold prec; lia).
  destruct (Z.leb_spec 0 e) as [E|E].
  - assert (0 < 2 ^ e) by (apply Z.pow_pos_nonneg; lia).
    destruct Hf as [(F0 & F1 & F2)|(F0 & _)]; [|unfold emin, prec, emax in *; lia].
    assert (He : e = f - (prec - 1)) by (unfold emin, prec, emax in *; lia).
    assert (HA : Zpos q * 2 ^ e * 2 ^ (prec - 1) <= Zpos p).
    { rewrite <- Z.mul_assoc, <- Z.pow_add_r by (unfold prec; lia).
      replace (e + (prec - 1)) with f by lia. lia. }
    do 3 eexists. split; [reflexivity|].
    split; [nia|]. split; [lia|]. split; [|split; [lia|split; [right; exact HA|]]].
    + rewrite <- Z.mul_assoc, <- Z.pow_add_r by (unfold prec; lia).
      replace (e + prec) with (f + 1) by (unfold prec in *; lia). lia.
    + intros _. nia.
  - assert (0 < 2 ^ (- e)) by (apply Z.pow_pos_nonneg; lia).
    assert (HB : e = emin prec emax \/ Zpos q * 2 ^ (prec - 1) <= Zpos p * 2 ^ (- e)).
    { destruct He3 as [He3|He3]; [now left|right].
      destruct Hf as [(F0 & F1 & F2)|(F0 & F1 & F2)].
      * assert (Hk : 2 ^ (prec - 1) = 2 ^ f * 2 ^ (- e))
          by (rewrite <- Z.pow_add_r by lia; f_equal; lia).
        rewrite Hk. nia.
      * replace (- e) with (prec - 1 + - f) by lia.
        rewrite Z.pow_add_r by (unfold prec in *; lia). nia. }
    do 3 eexists. split; [reflexivity|].
    split; [lia|]. split; [nia|]. split; [|split; [lia|split; [exact HB|]]].
    + destruct Hf as [(F0 & F1 & F2)|(F0 & F1 & F2)].
      * assert (Hk : 2 ^ prec = 2 ^ (prec + e) * 2 ^ (- e))
          by (rewrite <- Z.pow_add_r by (unfold prec in *; lia); f_equal; lia).
        assert (Hk2 : 2 ^ (f + 1) <= 2 ^ (prec + e)) by (apply Z.pow_le_mono_r; unfold prec in *; lia).
        rewrite Hk. nia.
      * assert (Hk : 2 ^ (- e) <= 2 ^ (- f - 1) * 2 ^ prec)
          by (rewrite <- Z.pow_add_r by (unfold prec in *; lia); apply Z.pow_le_mono_r; unfold prec in *; lia).
        nia.
    + intros Hq. destruct HB as [HB|HB]; [rewrite HB; lia|nia].
Qed.

Lemma round_pq_valid (neg : bool) (p q : positive) :
  valid_binary prec emax (round_pq neg p q) = true.
Proof.
  destruct (round_pq_args neg p q) as (P & Q & e & -> & H1 & H2 & H3 & H4 & H5 & _).
  now apply round_frac_valid.
Qed.

(** A rounded value is zero only when it is below the least subnormal. *)
Lemma round_frac_nonzero (neg : bool) (P Q e : Z) :
  0 < Q <= P ->
  round_frac neg P Q e = S754_infinity neg \/
  exists m e', round_frac neg P Q e = S754_finite neg m e'.
Proof.
  intros HQ. unfold round_frac.
  assert (Hm0 : 1 <= P / Q) by (apply Z.div_le_lower_bound; lia).
  set (m := if (Q <? 2 * (P mod Q)) || ((2 * (P mod Q) =? Q) && Z.odd (P / Q)) then P / Q + 1 else P / Q).
  assert (Hm : 1 <= m) by (unfold m; destruct (_ || _); lia). clearbody m.
  destruct (Z.eqb_spec m (2 ^ prec)).
  - cbv zeta. replace (2 ^ (prec - 1) =? 0) with false by (unfold prec; reflexivity).
    destruct (emax - prec <? e + 1); [now left | right; eauto].
  - replace (m =? 0) with false by (symmetry; apply Z.eqb_neq; lia).
    destruct (emax - prec <? e); [now left | right; eauto].
Qed.

Lemma round_pq_nonzero (neg : bool) (p q : positive) :
  Zpos q <= Zpos p * 2 ^ (- emin prec emax) ->
  round_pq neg p q = S754_infinity neg \/ exists m e, round_pq neg p q = S754_finite neg m e.
Proof.
  intros Hq. destruct (round_pq_args neg p q) as (P & Q & e & -> & H1 & _ & _ & _ & _ & H6).
  apply round_frac_nonzero. specialize (H6 Hq). lia.
Qed.

Lemma round_dyadic_nonzero (neg : bool) (a : positive) (e : Z) :
  emin prec emax <= e ->
  round_dyadic neg a e = S754_infinity neg \/ exists m e', round_dyadic neg a e = S754_finite neg m e'.
Proof.
  intros He. unfold round_dyadic. pose proof (Pos2Z.is_pos a).
  assert (P0 : 0 < 2 ^ (- emin prec emax)) by (apply Z.pow_pos_nonneg; unfold emin, prec, emax; lia).
  destruct (Z.leb_spec 0 e).
  - apply round_pq_nonzero.
    assert (0 < 2 ^ e) by (apply Z.pow_pos_nonneg; lia).
    rewrite Pos2Z.inj_mul, Z2Pos.id by lia. simpl. nia.
  - apply round_pq_nonzero. rewrite Z2Pos.id by (apply Z.pow_pos_nonneg; lia).
    assert (2 ^ (- e) <= 2 ^ (- emin prec emax)) by (apply Z.pow_le_mono_r; lia). nia.
Qed.

Lemma round_dyadic_valid (neg : bool) (a : positive) (e : Z) :
  valid_binary prec emax (round_dyadic neg a e) = true.
Proof. unfold round_dyadic. destruct (0 <=? e); apply round_pq_valid. Qed.

Lemma dec_round_valid (neg : bool) (d e : Z) :
  valid_binary prec emax (dec_round neg d e) = true.
Proof. unfold dec_round. destruct d; [reflexivity| |reflexivity]. destruct (0 <=? e); apply round_pq_valid. Qed.

Lemma str_to_num_valid (s : string) : valid_binary prec emax (str_to_num s) = true.
Proof.
  unfold str_to_num. destruct (trim s) as [|c r]; [reflexivity|].
  destruct (radix_prefix (String c r)) as [[b u]|].
  - unfold radix_int. destruct u; [reflexivity|].
    destruct (radix_value _ _ _); [apply dec_round_valid|reflexivity].
  - destruct (split_sign (String c r)) as [neg u].
    destruct (String.eqb u "Infinity"); [reflexivity|].
    destruct (parse_decimal u) as [[[d x] [|? ?]]|]; try reflexivity. apply dec_round_valid.
Qed.

(** The exact value of a finite double, scaled by [2 ^ - e]. *)
Lemma SFcompare_finite (sx sy : bool) (mx my : positive) (ex ey : Z) :
  valid_binary prec emax (S754_finite sx mx ex) = true ->
  valid_binary prec emax (S754_finite sy my ey) = true ->
  SFcompare (S754_finite sx mx ex) (S754_finite sy my ey) =
  Some (Z.compare (cond_neg sx (Zpos mx * 2 ^ (ex - Z.min ex ey)))
                  (cond_neg sy (Zpos my * 2 ^ (ey - Z.min ex ey)))).
Proof.
  intros Hx Hy. unfold valid_binary, bounded in Hx, Hy.
  apply andb_true_iff in Hx as [Hx _]. apply andb_true_iff in Hy as [Hy _].
  apply canonical_bounds in Hx as (X1 & X2 & X3). apply canonical_bounds in Hy as (Y1 & Y2 & Y3).
  assert (Hp : 2 ^ prec = 2 * 2 ^ (prec - 1)) by (unfold prec; reflexivity).
  assert (Hlt : forall (m1 m2 : positive) (e1 e2 : Z), e1 < e2 -> Zpos m1 < 2 ^ prec ->
            (e2 = emin prec emax \/ 2 ^ (prec - 1) <= Zpos m2) -> emin prec emax <= e1 ->
            Zpos m1 * 2 ^ (e1 - e1) < Zpos m2 * 2 ^ (e2 - e1)).
  { intros m1 m2 e1 e2 H12 H1 H2 H3. destruct H2 as [H2|H2]; [lia|].
    rewrite Z.sub_diag, Z.pow_0_r, Z.mul_1_r.
    assert (2 <= 2 ^ (e2 - e1)).
    { replace 2 with (2 ^ 1) at 1 by reflexivity. apply Z.pow_le_mono_r; lia. }
    nia. }
  simpl SFcompare. f_equal.
  destruct (Z.compare_spec ex ey) as [E|E|E].
  - subst ey. rewrite Z.min_id, Z.sub_diag, Z.pow_0_r, !Z.mul_1_r.
    destruct sx, sy; simpl; try reflexivity.
  - rewrite Z.min_l by lia. specialize (Hlt mx my ex ey E X1 Y2 X3).
    destruct sx, sy; simpl cond_neg; symmetry.
    + apply Z.compare_gt_iff. lia.
    + apply Z.compare_lt_iff. lia.
    + apply Z.compare_gt_iff. nia.
    + apply Z.compare_lt_iff. lia.
  - rewrite Z.min_r by lia. specialize (Hlt my mx ey ex E Y1 X2 Y3).
    destruct sx, sy; simpl cond_neg; symmetry.
    + apply Z.compare_lt_iff. lia.
    + apply Z.compare_lt_iff. nia.
    + apply Z.compare_gt_iff. lia.
    + apply Z.compare_gt_iff. lia.
Qed.

(** The comparator [(a, b) => a - b] is [<= 0] exactly when [a <= b]. *)
Lemma cmp_le0_sub (a b : num) :
  valid_binary prec emax a = true -> valid_binary prec emax b = true ->
  a <> S754_nan -> b <> S754_nan ->
  cmp_le0 (num_sub a b) = SFleb a b.
Proof.
  intros Ha Hb Na Nb.
  destruct a as [sx|sx| |sx mx ex]; [| |congruence|];
    (destruct b as [sy|sy| |sy my ey]; [| |congruence|]);
    try (destruct sx; destruct sy; reflexivity).
  unfold num_sub, SFleb. rewrite SFcompare_finite by assumption.
  pose proof Ha as Ha'. unfold valid_binary, bounded in Ha'.
  apply andb_true_iff in Ha' as [Ha' _]. apply canonical_bounds in Ha' as (_ & _ & A3).
  pose proof Hb as Hb'. unfold valid_binary, bounded in Hb'.
  apply andb_true_iff in Hb' as [Hb' _]. apply canonical_bounds in Hb' as (_ & _ & B3).
  cbv zeta.
  set (X := cond_neg sx (Zpos mx * 2 ^ (ex - Z.min ex ey))).
  set (Y := cond_neg sy (Zpos my * 2 ^ (ey - Z.min ex ey))).
  assert (He : emin prec emax <= Z.min ex ey) by lia.
  destruct (X - Y) as [|d|d] eqn:E.
  - replace (X ?= Y) with Eq by (symmetry; apply Z.compare_eq_iff; lia). reflexivity.
  - replace (X ?= Y) with Gt by (symmetry; apply Z.compare_gt_iff; lia).
    destruct (round_dyadic_nonzero false d _ He) as [->|(m & e' & ->)]; reflexivity.
  - replace (X ?= Y) with Lt by (symmetry; apply Z.compare_lt_iff; lia).
    destruct (round_dyadic_nonzero true d _ He) as [->|(m & e' & ->)]; reflexivity.
Qed.

(** [SFcompare] on numbers other than [NaN] is the lexicographic order of
    these keys. *)
Lemma SFleb_key (x y : num) : x <> S754_nan -> y <> S754_nan ->
  SFleb x y = true <-> lex_le (sf_key x) (sf_key y).
Proof.
  intros Hx Hy. unfold SFleb, lex_le.
  destruct x as [sx|sx| |sx mx ex]; [| |congruence|];
    (destruct y as [sy|sy| |sy my ey]; [| |congruence|]);
    destruct sx; try destruct sy; simpl; try (split; [discriminate|lia]); try (split; [lia|reflexivity]);
    try (split; intros; [lia|reflexivity]).
  - (* both negative *)
    destruct (Z.compare_spec ex ey); simpl; [subst|split; [discriminate|lia]|split; [lia|reflexivity]].
    rewrite <- Pos.compare_antisym. destruct (Pos.compare_spec my mx); simpl; split; intros; try lia; try discriminate; try reflexivity.
  - (* both positive *)
    destruct (Z.compare_spec ex ey); simpl; [subst|split; [lia|reflexivity]|split; [discriminate|lia]].
    change (Pos.compare_cont Eq mx my) with (Pos.compare mx my).
    destruct (Pos.compare_spec mx my); simpl; split; intros; try lia; try discriminate; try reflexivity.
Qed.

Lemma SFleb_trans (x y z : num) : x <> S754_nan -> y <> S754_nan -> z <> S754_nan ->
  SFleb x y = true -> SFleb y z = true -> SFleb x z = true.
Proof.
  intros Hx Hy Hz H1 H2. apply SFleb_key in H1, H2; try assumption. apply SFleb_key; try assumption.
  destruct (sf_key x) as [[a1 b1] c1], (sf_key y) as [[a2 b2] c2], (sf_key z) as [[a3 b3] c3].
  simpl in *. lia.
Qed.

Lemma SFleb_total (x y : num) : x <> S754_nan -> y <> S754_nan ->
  SFleb x y = true \/ SFleb y x = true.
Proof.
  intros Hx Hy. rewrite !SFleb_key by assumption.
  destruct (sf_key x) as [[a1 b1] c1], (sf_key y) as [[a2 b2] c2]. simpl. lia.
Qed.

End Valid.


(* ------------------------------------------------------------------ *)
(** ** [normalizePlayer] *)

Lemma num_or_zero_cases (n : num) :
  (num_truthy n = true /\ num_or_zero n = n) \/
  (num_truthy n = false /\ num_or_zero n = S754_zero false).
Proof. unfold num_or_zero. destruct (num_truthy n); auto. Qed.

Lemma num_or_zero_not_nan (n : num) : num_or_zero n <> NaN.
Proof.
  destruct (num_or_zero_cases n) as [[H ->] | [_ ->]]; [|discriminate].
  intros ->. discriminate.
Qed.

Lemma num_or_zero_idem (n : num) : num_or_zero (num_or_zero n) = num_or_zero n.
Proof.
  destruct (num_or_zero_cases n) as [[H E] | [_ E]]; rewrite E; [|reflexivity].
  unfold num_or_zero. now rewrite H.
Qed.

Lemma num_or_zero_ok (n : num) : num_ok n = true -> num_ok (num_or_zero n) = true.
Proof. destruct (num_or_zero_cases n) as [[_ ->] | [_ ->]]; auto. Qed.

Lemma num_is_nan_false (n : num) : n <> NaN -> num_is_nan n = false.
Proof. destruct n; simpl; congruence. Qed.

Lemma normalize_canon tm r n t z : trim t = t -> num_or_zero r = r -> num_or_zero z = z ->
  normalizePlayer tm (player r n t z) = Some (player r (if String.eqb n "" then "Unknown" else n) t z).
Proof.
  intros Ht Hr Hz. unfold normalizePlayer, player. simpl.
  rewrite (num_is_nan_false z) by (rewrite <- Hz; apply num_or_zero_not_nan).
  destruct t as [|c t]; destruct n as [|d n]; simpl; rewrite ?Hr, ?Hz; try reflexivity;
    rewrite Ht; reflexivity.
Qed.

Lemma tier_out_trim (s : string) : (if String.eqb (trim s) EmptyString then EmptyString else trim s) = trim s.
Proof. destruct (String.eqb_spec (trim s) EmptyString); congruence. Qed.

Lemma normalize_out tm x y : normalizePlayer tm x = Some y ->
  exists r n t z ip a b, y = player r n t z /\ trim t = t /\
   r = num_or_zero a /\ z = num_or_zero b /\
   (exists ir, get_field x "rank" = Some ir /\ to_number ir = Some a) /\
   get_field x "points" = Some ip /\
   ((nullish ip = true \/ ip = VStr "" \/ to_number ip = Some NaN) ->
      to_number (js_coalesce (obj_get tm t) (VNum (S754_zero false))) = Some b) /\
   (forall m, nullish ip = false -> ip <> VStr "" -> to_number ip = Some m -> m <> NaN -> b = m).
Proof.
  intros H. unfold normalizePlayer in H.
  repeat match type of H with
  | context [mbind _ ?m] => let E := fresh "E" in destruct m eqn:E; simpl in H; [|discriminate]
  end.
  injection H as <-.
  exists (num_or_zero n), s0, (trim s), (num_or_zero n0), v2, n, n0. rewrite tier_out_trim.
  split; [reflexivity|]. split; [apply trim_idem|]. split; [reflexivity|]. split; [reflexivity|].
  split; [eauto|]. split; [reflexivity|]. split.
  - intros Hmiss.
    destruct (nullish v2 || match v2 with VStr "" => true | _ => false end) eqn:Enull.
    + injection E4 as <-. exact E11.
    + destruct (to_number v2) as [n1|] eqn:Ev; simpl in E4; [|discriminate].
      injection E4 as <-.
      destruct Hmiss as [Hm | [Hm | Hm]].
      * rewrite Hm in Enull. discriminate.
      * subst v2. discriminate.
      * injection Hm as ->. exact E11.
  - intros m Hn Hs Hv Hm.
    assert (Enull : nullish v2 || match v2 with VStr "" => true | _ => false end = false).
    { rewrite Hn. simpl. destruct v2; try reflexivity.
      destruct s1 as [|c s1]; [congruence | reflexivity]. }
    rewrite Enull, Hv in E4. injection E4 as <-. simpl in E11.
    rewrite num_is_nan_false in E11 by exact Hm. injection E11 as <-. reflexivity.
Qed.

(** Claim C3 (corrected).  Every output of [normalizePlayer] is a record
    [player r n t z]; normalizing it again gives the same record except that
    an empty name becomes ["Unknown"], so the second pass changes nothing
    exactly when the name is non-empty. *)
Theorem normalizePlayer_twice (tm : obj) (x y : val) :
  normalizePlayer tm x = Some y ->
  exists r n t z, y = player r n t z /\
    normalizePlayer tm y = Some (player r (if String.eqb n "" then "Unknown" else n) t z) /\
    (n <> "" -> normalizePlayer tm y = Some y).
Proof.
  intros H. destruct (normalize_out tm x y H) as (r & n & t & z & ip & a & b & -> & Ht & Hr & Hz & _).
  exists r, n, t, z. split; [reflexivity|].
  rewrite normalize_canon by (exact Ht || (subst; apply num_or_zero_idem)). split; [reflexivity|].
  intros Hn. destruct (String.eqb_spec n ""); [contradiction | reflexivity].
Qed.

Lemma normalizePlayer_twice_witness :
  exists r n t z, player_Z 0 "Steve" "HT1" 0 = player r n t z /\
    normalizePlayer [] (player_Z 0 "Steve" "HT1" 0) =
      Some (player r (if String.eqb n "" then "Unknown" else n) t z) /\
    (n <> "" -> normalizePlayer [] (player_Z 0 "Steve" "HT1" 0) = Some (player_Z 0 "Steve" "HT1" 0)).
Proof.
  apply (normalizePlayer_twice [] (VObj [("name", VStr "Steve"); ("tier", VStr " HT1 ")])).
  vm_compute. reflexivity.
Defined.

(** A name that [String] turns into the empty string ([[]]) is kept empty
    by the first pass and replaced by ["Unknown"] by the second. *)
Lemma normalizePlayer_twice_counterexample :
  normalizePlayer [] (VObj [("name", VArr [])]) = Some (player_Z 0 "" "" 0) /\
  normalizePlayer [] (player_Z 0 "" "" 0) = Some (player_Z 0 "Unknown" "" 0) /\
  player_Z 0 "Unknown" "" 0 <> player_Z 0 "" "" 0.
Proof. split; [vm_compute; reflexivity | split; [vm_compute; reflexivity | discriminate]]. Qed.

(** Claim C4 (corrected).  The output points [z] are always a number, never
    [NaN], but they are not clamped.  When the input supplies a number [m]
    (its points are not [undefined], [null] or [""], and [Number] of them is
    not [NaN]), [z] is [m || 0]: [m] itself, negative values included, or
    [0] for [-0].  When the input points are absent, [null], [""] or not
    numeric, [z] is [Number(tierMapping[tier] ?? 0) || 0] for the output
    tier, which is non-negative when the mapped value is. *)
Theorem normalizePlayer_points (tm : obj) (x y : val) :
  normalizePlayer tm x = Some y ->
  exists r n t z ip, y = player r n t z /\ get_field x "points" = Some ip /\ z <> NaN /\
    ((nullish ip = true \/ ip = VStr "" \/ to_number ip = Some NaN) ->
       exists m, to_number (js_coalesce (obj_get tm t) (VNum (S754_zero false))) = Some m /\
                 z = num_or_zero m) /\
    (forall m, nullish ip = false -> ip <> VStr "" -> to_number ip = Some m -> m <> NaN ->
       z = num_or_zero m).
Proof.
  intros H.
  destruct (normalize_out tm x y H) as (r & n & t & z & ip & a & b & Hy & _ & _ & Hz & _ & Hip & H1 & H2).
  exists r, n, t, z, ip. split; [exact Hy|]. split; [exact Hip|].
  split; [subst z; apply num_or_zero_not_nan|]. split.
  - intros Hm. exists b. split; [exact (H1 Hm) | exact Hz].
  - intros m Hn Hs Hv Hnan. rewrite Hz. f_equal. exact (H2 m Hn Hs Hv Hnan).
Qed.

Lemma normalizePlayer_points_witness :
  exists r n t z ip, player_Z 0 "Unknown" "HT1" 100 = player r n t z /\
    get_field (VObj [("tier", VStr "HT1"); ("points", VStr "abc")]) "points" = Some ip /\ z <> NaN /\
    ((nullish ip = true \/ ip = VStr "" \/ to_number ip = Some NaN) ->
       exists m, to_number (js_coalesce (obj_get mappingDefault t) (VNum (S754_zero false))) = Some m /\
                 z = num_or_zero m) /\
    (forall m, nullish ip = false -> ip <> VStr "" -> to_number ip = Some m -> m <> NaN ->
       z = num_or_zero m).
Proof.
  apply (normalizePlayer_points mappingDefault (VObj [("tier", VStr "HT1"); ("points", VStr "abc")])).
  vm_compute. reflexivity.
Defined.

(** A supplied negative number is kept, and so is a fraction. *)
Lemma normalizePlayer_points_counterexample :
  normalizePlayer [] (VObj [("points", VNum (num_of_Z (-5)))]) = Some (player_Z 0 "Unknown" "" (-5)) /\
  normalizePlayer [] (VObj [("points", VStr "-1.5")]) =
    Some (player (num_of_Z 0) "Unknown" "" (str_to_num "-1.5")) /\
  num_to_string (str_to_num "-1.5") = "-1.5".
Proof. split; [|split]; vm_compute; reflexivity. Qed.

(* ------------------------------------------------------------------ *)
(** ** CSV fields *)

Lemma splitCSVLine_go_open (r : string) (res : list string) (cur : string) :
  splitCSVLine_go (String dq r) res cur false = splitCSVLine_go r res cur true.
Proof. destruct r; reflexivity. Qed.

Lemma splitCSVLine_go_quoted (s cur : string) (res : list string) (rest : string) :
  (rest = EmptyString \/ exists r, rest = String "," r) ->
  splitCSVLine_go (csv_escape s ++ String dq rest) res cur true =
  splitCSVLine_go rest res (cur ++ s) false.
Proof.
  intros Hrest. revert cur. induction s as [|c s IH]; intros cur.
  - simpl. rewrite sapp_nil.
    destruct Hrest as [-> | [r ->]]; reflexivity.
  - simpl. destruct (Ascii.eqb_spec c dq) as [->|Hc].
    + simpl. rewrite IH, sapp_assoc. reflexivity.
    + simpl. replace (Ascii.eqb c dq) with false by (symmetry; now apply Ascii.eqb_neq).
      simpl. rewrite andb_false_r, IH, sapp_assoc. reflexivity.
Qed.

Lemma splitCSVLine_go_comma (r : string) (res : list string) (cur : string) :
  splitCSVLine_go ("," ++ r) res cur false = splitCSVLine_go r (app res [cur]) EmptyString false.
Proof. reflexivity. Qed.

Lemma csv_quote_app (f rest : string) :
  csv_quote f ++ rest = String dq (csv_escape f ++ String dq rest).
Proof. unfold csv_quote, str1. simpl. now rewrite sapp_assoc. Qed.

Lemma splitCSVLine_go_fields (fs : list string) (f : string) (res : list string) :
  splitCSVLine_go (join "," (map csv_quote (f :: fs))) res EmptyString false = app res (f :: fs).
Proof.
  revert f res. induction fs as [|g fs IH]; intros f res.
  - change (join "," (map csv_quote [f])) with (csv_quote f).
    rewrite <- (sapp_nil (csv_quote f)), csv_quote_app.
    rewrite splitCSVLine_go_open, splitCSVLine_go_quoted by now left. reflexivity.
  - change (join "," (map csv_quote (f :: g :: fs)))
      with (csv_quote f ++ "," ++ join "," (map csv_quote (g :: fs))).
    rewrite csv_quote_app.
    rewrite splitCSVLine_go_open, splitCSVLine_go_quoted by (right; eauto).
    rewrite splitCSVLine_go_comma, IH, <- app_assoc. reflexivity.
Qed.

(** Claim C7 (confirmed).  [splitCSVLine] reads fields written in double
    quotes, with embedded double quotes doubled ([csv_quote]), back as the
    original strings: commas inside quotes are no delimiters and a doubled
    quote gives one quote.  In particular importing the file [players.csv]
    with header [rank,name,tier,points] and the row whose name field is
    [rock_name] written by [csv_quote] ([rock_csv]) succeeds and yields one
    record whose name is [rock_name], the text Smith, then a comma, a space
    and The Rock in double quotes. *)
Theorem splitCSVLine_quoted_fields :
  (forall f fs, splitCSVLine (join "," (map csv_quote (f :: fs))) = f :: fs) /\
  (forall st, fst (importDataFromFile "players.csv" rock_csv st) = Some tt /\
              players (snd (importDataFromFile "players.csv" rock_csv st)) =
                [player_Z 1 rock_name "HT1" 100]).
Proof.
  split.
  - intros f fs. apply splitCSVLine_go_fields.
  - intros [ps tm eid sto lg]. split; vm_compute; reflexivity.
Qed.

(* ------------------------------------------------------------------ *)
(** ** Objects *)

Lemma own_get_obj_set_eq (ps : obj) (k : string) (v : val) :
  own_get (obj_set ps k v) k = Some v.
Proof.
  induction ps as [|[k' v'] ps IH]; simpl.
  - now rewrite String.eqb_refl.
  - destruct (String.eqb_spec k k') as [->|Hne]; simpl.
    + now rewrite String.eqb_refl.
    + apply String.eqb_neq in Hne. now rewrite Hne.
Qed.

Lemma own_get_obj_set_neq (ps : obj) (k0 k : string) (v : val) :
  k <> k0 -> own_get (obj_set ps k0 v) k = own_get ps k.
Proof.
  intros Hne. induction ps as [|[k' v'] ps IH]; simpl.
  - apply String.eqb_neq in Hne. now rewrite Hne.
  - destruct (String.eqb_spec k0 k') as [->|Hne']; simpl.
    + apply String.eqb_neq in Hne. now rewrite Hne.
    + now rewrite IH.
Qed.

Lemma own_get_not_in (ps : obj) (k : string) : ~ In k (map fst ps) -> own_get ps k = None.
Proof.
  induction ps as [|[k' v'] ps IH]; simpl; intros H; [reflexivity|].
  destruct (String.eqb_spec k k') as [->|_]; [tauto|]. apply IH. tauto.
Qed.

Lemma own_get_spread (ps dst : obj) (k : string) :
  NoDup (map fst ps) ->
  own_get (spread dst (VObj ps)) k =
  match own_get ps k with Some v => Some v | None => own_get dst k end.
Proof.
  unfold spread. revert dst. induction ps as [|[k0 v0] ps IH]; intros dst Hnd; simpl; [reflexivity|].
  apply NoDup_cons in Hnd as [Hnin Hnd']. rewrite list_elem_of_In in Hnin.
  rewrite IH by exact Hnd'.
  destruct (String.eqb_spec k k0) as [->|Hne].
  - rewrite own_get_not_in by exact Hnin. apply own_get_obj_set_eq.
  - destruct (own_get ps k); [reflexivity|]. now apply own_get_obj_set_neq.
Qed.

Lemma with_mapped_points_spec (tm : obj) (p p' : val) :
  plain_record p -> with_mapped_points tm p = Some p' -> points_from_mapping tm p p'.
Proof.
  destruct p as [| | | | | | ps |]; simpl; try contradiction. intros Hnd H.
  unfold with_mapped_points in H. simpl in H.
  destruct (to_string _) as [key|] eqn:Ek; simpl in H; [|discriminate].
  destruct (to_number _) as [n|] eqn:En; simpl in H; [|discriminate].
  injection H as <-. exists key, n. simpl. split; [exact Ek|]. split; [exact En|].
  split; [apply own_get_obj_set_eq|].
  intros k Hk. rewrite own_get_obj_set_neq by exact Hk.
  change (fold_left (fun o '(k, v) => obj_set o k v) ps []) with (spread [] (VObj ps)).
  rewrite own_get_spread by exact Hnd. destruct (own_get ps k); reflexivity.
Qed.

Lemma map_opt_Forall2 {A B} (f : A -> option B) (l : list A) (l' : list B) :
  map_opt f l = Some l' -> Forall2 (fun x y => f x = Some y) l l'.
Proof.
  revert l'. induction l as [|x l IH]; intros l' H; simpl in H.
  - injection H as <-. constructor.
  - destruct (f x) as [y|] eqn:Ef; simpl in H; [|discriminate].
    destruct (map_opt f l) as [ys|] eqn:Em; simpl in H; [|discriminate].
    injection H as <-. constructor; [exact Ef | now apply IH].
Qed.

Lemma Forall2_strengthen {A B} (P : A -> Prop) (R R' : A -> B -> Prop) l l' :
  Forall P l -> Forall2 R l l' -> (forall x y, P x -> R x y -> R' x y) -> Forall2 R' l l'.
Proof.
  intros HP HR Himp. induction HR as [|x y l l' Hxy HR IH]; constructor.
  - inversion HP; subst. now apply Himp.
  - inversion HP; subst. now apply IH.
Qed.

(* ------------------------------------------------------------------ *)
(** ** Mapping actions *)

Lemma applyMappingToAllPlayers_run (st st1 : St) :
  applyMappingToAllPlayers true st = (Some tt, st1) ->
  map_opt (with_mapped_points (tierMapping st)) (players st) = Some (players st1) /\
  store st1 !! STORAGE_KEY = Some (JSON_stringify (VArr (players st1))).
Proof.
  intros H.
  cbv [applyMappingToAllPlayers negb bind get_tm get_players lift set_players savePlayers
       setItem emit applyFiltersAndRender ret throw] in H. simpl in H.
  destruct (map_opt _ _) as [ps'|] eqn:E; [|discriminate].
  destruct (forallb table_ok ps'); inversion H; subst; simpl.
  split; [reflexivity | cbn; apply lookup_insert_eq].
Qed.

Lemma applyMappingToEmptyPlayers_run (st st2 : St) :
  applyMappingToEmptyPlayers st = (Some tt, st2) ->
  map_opt (fill_if_empty (tierMapping st)) (players st) = Some (players st2) /\
  store st2 !! STORAGE_KEY = Some (JSON_stringify (VArr (players st2))).
Proof.
  intros H.
  cbv [applyMappingToEmptyPlayers bind get_tm get_players lift set_players savePlayers
       setItem emit applyFiltersAndRender ret throw] in H. simpl in H.
  destruct (map_opt _ _) as [ps'|] eqn:E; [|discriminate].
  destruct (forallb table_ok ps'); inversion H; subst; simpl.
  split; [reflexivity | cbn; apply lookup_insert_eq].
Qed.

(** Claim C8 (confirmed).  After a confirmed "apply to all", every record
    [p] of the list (an object, as records are) is replaced by [p] with its
    points set to [Number(tierMapping[p.tier] ?? 0)], whatever they were, all
    other fields kept, and the new list is stored.  After "apply to empty
    only", a record whose points are truthy (non-zero, non-empty) is kept
    unchanged and every other record (points [0], [""], missing, [null] or
    [NaN]) gets its points from the mapping in the same way. *)
Theorem applyMapping_sets_points (st st1 st2 : St) :
  Forall plain_record (players st) ->
  applyMappingToAllPlayers true st = (Some tt, st1) ->
  applyMappingToEmptyPlayers st = (Some tt, st2) ->
  Forall2 (points_from_mapping (tierMapping st)) (players st) (players st1) /\
  store st1 !! STORAGE_KEY = Some (JSON_stringify (VArr (players st1))) /\
  Forall2 (fun p p' =>
             if truthy (match own_field p "points" with Some v => v | None => VUndef end)
             then p' = p else points_from_mapping (tierMapping st) p p')
          (players st) (players st2) /\
  store st2 !! STORAGE_KEY = Some (JSON_stringify (VArr (players st2))).
Proof.
  intros Hrec H1 H2.
  destruct (applyMappingToAllPlayers_run st st1 H1) as [E1 S1].
  destruct (applyMappingToEmptyPlayers_run st st2 H2) as [E2 S2].
  split; [|split; [exact S1 | split; [|exact S2]]].
  - eapply Forall2_strengthen; [exact Hrec | apply map_opt_Forall2, E1 |].
    intros p p' Hp Hm. now apply with_mapped_points_spec.
  - eapply Forall2_strengthen; [exact Hrec | apply map_opt_Forall2, E2 |].
    intros p p' Hp Hm. destruct p as [| | | | | | ps |]; simpl in Hp; try contradiction.
    unfold fill_if_empty in Hm. simpl in Hm |- *.
    destruct (truthy _).
    + now injection Hm as <-.
    + now apply with_mapped_points_spec.
Qed.

Lemma applyMapping_sets_points_witness :
  Forall2 (points_from_mapping mappingDefault) (players mapping_state)
    (players (snd (applyMappingToAllPlayers true mapping_state))) /\
  store (snd (applyMappingToAllPlayers true mapping_state)) !! STORAGE_KEY =
    Some (JSON_stringify (VArr (players (snd (applyMappingToAllPlayers true mapping_state))))) /\
  Forall2 (fun p p' =>
             if truthy (match own_field p "points" with Some v => v | None => VUndef end)
             then p' = p else points_from_mapping mappingDefault p p')
          (players mapping_state) (players (snd (applyMappingToEmptyPlayers mapping_state))) /\
  store (snd (applyMappingToEmptyPlayers mapping_state)) !! STORAGE_KEY =
    Some (JSON_stringify (VArr (players (snd (applyMappingToEmptyPlayers mapping_state))))).
Proof.
  apply (applyMapping_sets_points mapping_state).
  - repeat constructor; simpl; set_solver.
  - vm_compute. reflexivity.
  - vm_compute. reflexivity.
Defined.

(* ------------------------------------------------------------------ *)
(** ** Keys of parsed objects *)

Lemma obj_set_keys (ps : obj) (k x : string) (v : val) :
  In x (map fst (obj_set ps k v)) -> x = k \/ In x (map fst ps).
Proof.
  induction ps as [|[k' v'] ps IH]; simpl.
  - intros [H|[]]. now left.
  - destruct (String.eqb k k'); simpl; [tauto|].
    intros [H|H]; [tauto|]. destruct (IH H); tauto.
Qed.

Lemma obj_set_nodup (ps : obj) (k : string) (v : val) :
  NoDup (map fst ps) -> NoDup (map fst (obj_set ps k v)).
Proof.
  induction ps as [|[k' v'] ps IH]; simpl; intros Hnd.
  - constructor; [apply not_elem_of_nil | constructor].
  - apply NoDup_cons in Hnd as [Hnin Hnd]. rewrite list_elem_of_In in Hnin.
    destruct (String.eqb_spec k k') as [->|Hne]; simpl.
    + apply NoDup_cons. rewrite list_elem_of_In. auto.
    + apply NoDup_cons. rewrite list_elem_of_In. split; [|now apply IH].
      intros Hin. destruct (obj_set_keys ps k k' v Hin); [congruence | contradiction].
Qed.



Section ParsedKeys.

#[local] Arguments parse_json_number : simpl never.
#[local] Arguments parse_str_body : simpl never.


End ParsedKeys.


(* ------------------------------------------------------------------ *)
(** ** Loading from [localStorage] *)







(* ------------------------------------------------------------------ *)
(** ** Import *)





(* ------------------------------------------------------------------ *)
(** ** Row Edit / Delete *)

Lemma dom_text_cons (c : ascii) (r : string) :
  Ascii.eqb c "013" = false -> Ascii.eqb c "000" = false ->
  dom_text (String c r) = String c (dom_text r).
Proof.
  intros H1 H2. destruct c as [[] [] [] [] [] [] [] []]; try discriminate; reflexivity.
Qed.

Lemma dom_text_plain (s : string) : no_cr_nul s = true -> dom_text s = s.
Proof.
  unfold no_cr_nul. induction s as [|c s IH]; [reflexivity|].
  intros H. cbn [all_chars] in H. apply andb_true_iff in H as [Hc Hs].
  apply andb_true_iff in Hc as [H1 H2]. apply negb_true_iff in H1, H2.
  rewrite dom_text_cons by assumption. now rewrite IH.
Qed.

Lemma num_to_string_plain (x : num) : num_ok x = true -> no_cr_nul (num_to_string x) = true.
Proof.
  intros Hx. destruct x as [s|s| |s m e]; [reflexivity | destruct s; reflexivity | reflexivity |].
  destruct (num_to_string_finite s m e Hx) as (ip & fp & xo & W & -> & Hip & Hfp & _).
  unfold no_cr_nul. apply text_chars; [|reflexivity..|exact Hip|exact Hfp].
  intros c Hc. unfold is_digit in Hc. apply andb_true_iff in Hc as [Ha1 Ha2].
  apply N.leb_le in Ha1, Ha2.
  destruct (Ascii.eqb_spec c "013") as [->|_]; [simpl in *; lia|].
  destruct (Ascii.eqb_spec c "000") as [->|_]; [simpl in *; lia|]. reflexivity.
Qed.

Lemma SFeqb_canon (x y : num) :
  SFeqb x (match y with S754_zero _ => S754_zero false | _ => y end) = SFeqb x y.
Proof. destruct y as [b| | |]; [|reflexivity..]. destruct x; reflexivity. Qed.

Lemma SFeqb_refl (x : num) : x <> NaN -> SFeqb x x = true.
Proof.
  intros Hx. destruct x as [s|s| |s m e]; [reflexivity | destruct s; reflexivity | congruence |].
  unfold SFeqb, SFcompare. rewrite Z.compare_refl, Pos.compare_cont_refl. destruct s; reflexivity.
Qed.

Lemma strict_eq_num_field (v : val) (r : num) :
  strict_eq_num v (match r with S754_zero _ => S754_zero false | _ => r end) =
  field_eq (Some v) (Some (VNum r)).
Proof. destruct v; try reflexivity. apply SFeqb_canon. Qed.

Lemma strict_eq_str_field (v : val) (s : string) :
  strict_eq_str v s = field_eq (Some v) (Some (VStr s)).
Proof. destruct v; reflexivity. Qed.

Lemma strict_eq_str_iff (v : val) (s : string) : strict_eq_str v s = true <-> v = VStr s.
Proof.
  destruct v; simpl; split; intros H; try discriminate; try congruence.
  - apply String.eqb_eq in H. now subst.
  - injection H as ->. apply String.eqb_refl.
Qed.

Lemma get_field_obj (p : val) (k : string) :
  table_ok p = true -> exists v, get_field p k = Some v.
Proof. destruct p; simpl; try discriminate; eauto. Qed.

Lemma own_field_get_field (q : val) (k : string) (v : val) :
  get_field q k = Some v -> v <> VUndef -> own_field q k = Some v.
Proof.
  destruct q; simpl; intros H Hv; try discriminate; try (injection H as <-; contradiction).
  destruct (own_get ps k); [congruence | injection H as <-; contradiction].
Qed.

(** The row of a record shown exactly, and how its buttons compare a record
    with it: by [===] on the four fields. *)
Lemma row_match_shown (q : val) :
  shown_exactly q ->
  exists row, row_cells q = Some row /\
    forall p, table_ok p = true ->
      row_match row p =
      Some (forallb (fun k => field_eq (get_field p k) (get_field q k)) ["rank"; "name"; "tier"; "points"]).
Proof.
  intros (r & n & t & z & Hr & Hn & Ht & Hz & Hrok & _ & Hzok & _ & Hn' & Ht').
  exists (mkRow (num_to_string r) n t (num_to_string z)). split.
  - unfold row_cells.
    rewrite (own_field_get_field q "rank" _ Hr), (own_field_get_field q "name" _ Hn),
      (own_field_get_field q "tier" _ Ht), (own_field_get_field q "points" _ Hz) by discriminate.
    simpl. rewrite (dom_text_plain (num_to_string r)), (dom_text_plain (num_to_string z)),
      (dom_text_plain n), (dom_text_plain t) by (try apply num_to_string_plain; assumption).
    reflexivity.
  - intros p Hp. unfold row_match. simpl. rewrite Hr, Hn, Ht, Hz.
    destruct (get_field_obj p "rank" Hp) as [a ->]. destruct (get_field_obj p "name" Hp) as [b ->].
    destruct (get_field_obj p "tier" Hp) as [c ->]. destruct (get_field_obj p "points" Hp) as [d ->].
    simpl. rewrite !str_to_num_print by assumption.
    rewrite !strict_eq_num_field, !strict_eq_str_field, andb_true_r, !andb_assoc. reflexivity.
Qed.

Lemma find_index_none (f : val -> option bool) (l : list val) (i : nat) :
  Forall (fun p => f p = Some false) l -> find_index f l i = Some None.
Proof.
  intros H. revert i. induction H as [|x l Hx _ IH]; intros i; simpl; [reflexivity|].
  rewrite Hx. apply IH.
Qed.

Lemma find_index_first (f : val -> option bool) (P : val -> Prop) (l : list val) (i k : nat) (q : val) :
  (forall x, In x l -> exists b, f x = Some b /\ (b = true <-> P x)) ->
  l !! k = Some q -> P q ->
  exists j p, find_index f l i = Some (Some (i + j)) /\ j <= k /\ l !! j = Some p /\ P p /\
    (forall m p', m < j -> l !! m = Some p' -> ~ P p').
Proof.
  revert i k. induction l as [|x l IH]; intros i k Hf Hk Hq; [discriminate|].
  destruct (Hf x (or_introl eq_refl)) as [b [Hb Hbp]]. simpl. rewrite Hb.
  destruct b.
  - exists 0, x. rewrite Nat.add_0_r. repeat split; intros; try lia; tauto.
  - destruct k as [|k].
    + simpl in Hk. injection Hk as ->. exfalso. apply (proj1 (not_iff_compat Hbp) ltac:(discriminate)). exact Hq.
    + simpl in Hk. destruct (IH (S i) k (fun y Hy => Hf y (or_intror Hy)) Hk Hq)
        as (j & p & Hfind & Hjk & Hj & Hp & Hmin).
      exists (S j), p. rewrite Hfind. repeat split; try (f_equal; f_equal; lia); try lia; auto.
      intros [|m] p' Hm Hm'.
      * simpl in Hm'. injection Hm' as <-. intros Hx. apply Hbp in Hx. discriminate.
      * apply (Hmin m p'); [lia | exact Hm'].
Qed.

(** Claim C9 (corrected).  The Edit and Delete buttons of a row find their
    record by content, with [===] on the four fields.  When no record of
    the list matches the clicked row, both buttons do nothing.  For a list
    the table renders and a record [q] at index [k] whose rank and points
    are numbers other than [NaN] and whose name and tier are strings without
    CR or NUL, the row showing [q] resolves to the FIRST index [j] whose
    record has fields [===] to those of [q] ([j <= k], and no earlier record
    has them); Edit sets [editingId] to [j] and a confirmed Delete removes
    index [j].  So every duplicate of [q] acts on the earliest one. *)
Theorem row_click_targets_first (st : St) :
  Forall (fun p => table_ok p = true) (players st) ->
  (forall row, Forall (fun p => row_match row p = Some false) (players st) ->
     forall action c, row_click action row c st = (Some tt, st)) /\
  (forall k q, players st !! k = Some q -> shown_exactly q ->
   exists row j p, row_cells q = Some row /\ j <= k /\ players st !! j = Some p /\
    same_fields p q /\
    (forall m p', m < j -> players st !! m = Some p' -> ~ same_fields p' q) /\
    (forall c, editingId (snd (row_click "edit" row c st)) = Some j) /\
    players (snd (row_click "delete" row true st)) = list_remove j (players st)).
Proof.
  intros HF. split.
  - intros row Hno action c. cbv [row_click bind get_players lift].
    rewrite find_index_none by exact Hno. simpl.
    destruct (String.eqb action "edit"), (String.eqb action "delete"); reflexivity.
  - intros k q Hk Hs.
    destruct (row_match_shown q Hs) as [row [Hrow Hm]].
    destruct (find_index_first (row_match row) (fun p => same_fields p q)
                (players st) 0 k q) as (j & p & Hfind & Hjk & Hj & Hp & Hmin).
    { intros x Hx. exists (forallb (fun k => field_eq (get_field x k) (get_field q k))
                          ["rank"; "name"; "tier"; "points"]).
      split; [|reflexivity]. apply Hm. rewrite Forall_forall in HF. apply HF.
      apply list_elem_of_In, Hx. }
    { exact Hk. }
    { destruct Hs as (r & n & t & z & Hr & Hn & Ht & Hz & _ & Hr' & _ & Hz' & _).
      unfold same_fields. simpl. rewrite Hr, Hn, Ht, Hz. simpl.
      rewrite !SFeqb_refl, !String.eqb_refl by assumption. reflexivity. }
    exists row, j, p. repeat split; try assumption.
    + intros c. cbv [row_click bind get_players lift]. rewrite Hfind. simpl. reflexivity.
    + cbv [row_click bind get_players lift]. rewrite Hfind. simpl.
      cbv [doDelete savePlayers populateTierFilter applyFiltersAndRender bind get_players
           set_players setItem emit ret throw].
      simpl. destruct (forallb _ _); [destruct (forallb _ _)|]; reflexivity.
Qed.

Lemma row_click_targets_first_witness :
  Forall (fun p => table_ok p = true) (players dup_state) /\
  (forall row, Forall (fun p => row_match row p = Some false) (players dup_state) ->
     forall action c, row_click action row c dup_state = (Some tt, dup_state)) /\
  (forall k q, players dup_state !! k = Some q -> shown_exactly q ->
   exists row j p, row_cells q = Some row /\ j <= k /\ players dup_state !! j = Some p /\
    same_fields p q /\
    (forall m p', m < j -> players dup_state !! m = Some p' -> ~ same_fields p' q) /\
    (forall c, editingId (snd (row_click "edit" row c dup_state)) = Some j) /\
    players (snd (row_click "delete" row true dup_state)) = list_remove j (players dup_state)).
Proof.
  assert (HF : Forall (fun p => table_ok p = true) (players dup_state)).
  { apply List.Forall_forall, List.forallb_forall. vm_compute. reflexivity. }
  split; [exact HF|]. apply (row_click_targets_first dup_state HF).
Defined.

(** C9 (counterexample): two records with points [null] show the same row
    ["0", "a", "HT1", ""]; [Number("")] is [0] and [null === 0] is false, so no
    record matches: Delete removes nothing and Edit selects nothing, although
    both records have the displayed rank, name and tier. *)
Lemma row_click_targets_first_counterexample :
  row_cells null_points_rec = Some (mkRow "0" "a" "HT1" "") /\
  players (snd (row_click "delete" (mkRow "0" "a" "HT1" "") true null_dup_state))
    = [null_points_rec; null_points_rec] /\
  editingId (snd (row_click "edit" (mkRow "0" "a" "HT1" "") true null_dup_state)) = None.
Proof. vm_compute. repeat split. Qed.

Lemma SFleb_not_nan (x y : num) : SFleb x y = true -> x <> NaN /\ y <> NaN.
Proof.
  intros H. split; intros ->; unfold SFleb, SFcompare in H; [|destruct x]; discriminate.
Qed.

Lemma rank_le_trans a b c : rank_le a b -> rank_le b c -> rank_le a c.
Proof.
  intros (x & y & Ha & Hb & Hxy) (y' & z & Hb' & Hc & Hyz).
  rewrite Hb in Hb'. injection Hb' as <-. exists x, z. repeat split; auto.
  destruct (SFleb_not_nan x y Hxy), (SFleb_not_nan y z Hyz).
  apply (SFleb_trans x y z); assumption.
Qed.

Lemma insert_by_cons cmp x y l :
  insert_by cmp x (y :: l) =
  (c ← cmp x y; if cmp_le0 c then Some (x :: y :: l)
                else r ← insert_by cmp x l; Some (y :: r)).
Proof. reflexivity. Qed.

Lemma insert_by_rank (x : val) (l : list val) :
  has_num_rank x -> Forall has_num_rank l -> StronglySorted rank_le l ->
  exists l', insert_by rank_cmp x l = Some l' /\ Permutation l' (x :: l) /\
    StronglySorted rank_le l'.
Proof.
  intros (kx & Hx & Hxok & Hxn). induction l as [|a l IH]; intros Hl Hs.
  - exists [x]. repeat constructor.
  - inversion Hl as [|? ? (ka & Ha & Haok & Han) Hl']; subst. inversion Hs as [|? ? Hs' Ha_l]; subst.
    assert (Hc : rank_cmp x a = Some (num_sub kx ka)) by (unfold rank_cmp; rewrite Hx, Ha; reflexivity).
    rewrite insert_by_cons, Hc. simpl. rewrite (cmp_le0_sub kx ka Hxok Haok Hxn Han).
    destruct (SFleb kx ka) eqn:Hle.
    + exists (x :: a :: l). split; [reflexivity|split; [reflexivity|]].
      constructor; [exact Hs|]. constructor.
      * exists kx, ka. auto.
      * eapply Forall_impl; [exact Ha_l|]. intros b Hb. eapply rank_le_trans; [|exact Hb].
        exists kx, ka. auto.
    + destruct (IH Hl' Hs') as (r & Hr & Hperm & Hsr). rewrite Hr. simpl.
      exists (a :: r). split; [reflexivity|]. split.
      * rewrite Hperm. apply perm_swap.
      * constructor; [exact Hsr|].
        apply (Permutation_Forall (Permutation_sym Hperm)). constructor; [|exact Ha_l].
        exists ka, kx. repeat split; auto.
        destruct (SFleb_total kx ka Hxn Han) as [H|H]; [congruence | exact H].
Qed.

Lemma sort_by_rank (l : list val) :
  Forall has_num_rank l ->
  exists s, sort_by rank_cmp l = Some s /\ Permutation s l /\ StronglySorted rank_le s.
Proof.
  induction l as [|x l IH]; intros Hl.
  - exists []. repeat constructor.
  - inversion Hl as [|? ? Hx Hl']; subst.
    destruct (IH Hl') as (s & Hs & Hp & Hss).
    destruct (insert_by_rank x s Hx (Permutation_Forall (Permutation_sym Hp) Hl') Hss)
      as (s' & Hs' & Hp' & Hss').
    exists s'. simpl. rewrite Hs. simpl. split; [exact Hs'|]. split; [|exact Hss'].
    rewrite Hp'. now rewrite Hp.
Qed.

Lemma has_num_rank_not_undef p : has_num_rank p -> is_undef p = false.
Proof. intros (z & H & _). destruct p; try reflexivity. discriminate. Qed.

Lemma js_sort_rank (l : list val) :
  Forall has_num_rank l ->
  exists s, js_sort rank_cmp l = Some s /\ Permutation s l /\ StronglySorted rank_le s.
Proof.
  intros Hl.
  assert (Hf1 : filter (fun x => negb (is_undef x)) l = l).
  { induction Hl as [|x l Hx Hl IH]; [reflexivity|]. unfold filter, list_filter.
    pose proof (has_num_rank_not_undef x Hx) as Hu.
    case_decide as Hd; [f_equal; exact IH | rewrite Hu in Hd; exfalso; exact (Hd I)]. }
  assert (Hf2 : filter is_undef l = []).
  { clear Hf1. induction Hl as [|x l Hx Hl IH]; [reflexivity|]. unfold filter, list_filter.
    pose proof (has_num_rank_not_undef x Hx) as Hu.
    case_decide as Hd; [rewrite Hu in Hd; destruct Hd | exact IH]. }
  destruct (sort_by_rank l Hl) as (s & Hs & Hp & Hss).
  exists s. unfold js_sort. rewrite Hf1, Hs. simpl. rewrite Hf2, app_nil_r. auto.
Qed.

Lemma rank_key_player r n t z : rank_key (player r n t z) = Some (num_or_zero r).
Proof.
  unfold rank_key, player, num_or_zero, num_truthy. simpl. unfold js_or.
  destruct r as [[]|[]| |[]]; reflexivity.
Qed.

Lemma has_num_rank_player r n t z : num_ok r = true -> has_num_rank (player r n t z).
Proof.
  intros Hr. exists (num_or_zero r). split; [apply rank_key_player|].
  split; [now apply num_or_zero_ok | apply num_or_zero_not_nan].
Qed.

Lemma has_num_rank_all (l : list val) :
  forallb (fun p => match rank_key p with
                    | Some x => num_ok x && negb (num_is_nan x)
                    | None => false
                    end) l = true ->
  Forall has_num_rank l.
Proof.
  intros H. apply List.Forall_forall. intros p Hp. apply List.forallb_forall with (x := p) in H;
    [|exact Hp].
  destruct (rank_key p) as [x|] eqn:E; [|discriminate]. apply andb_true_iff in H as [H1 H2].
  exists x. split; [exact E|]. split; [exact H1|]. intros ->. discriminate.
Qed.

(** C10 (amended): after a submission whose name is not empty and whose
    record normalizes, with the edited index (if any) inside the list and
    every record's key [Number(rank || 0)] a number, the list kept in memory
    and written to the store is sorted in ascending order of that key, and is
    a permutation of the list with the new record appended or written over
    the edited index. *)
Theorem submit_persists_sorted (st : St) (rankIn nameIn tierIn pointsIn : string) (np : val) :
  trim nameIn <> EmptyString ->
  normalizePlayer (tierMapping st) (form_record (tierMapping st) rankIn nameIn tierIn pointsIn) = Some np ->
  (editingId st = None \/ exists i, editingId st = Some i /\ i < length (players st)) ->
  Forall has_num_rank (players st) ->
  let st' := snd (submit rankIn nameIn tierIn pointsIn st) in
  exists ps', players st' = ps' /\
    store st' !! STORAGE_KEY = Some (JSON_stringify (VArr ps')) /\
    StronglySorted rank_le ps' /\
    Permutation ps' (submit_base (editingId st) (players st) np).
Proof.
  intros Hname Hn Heid Hr st'.
  destruct (normalize_out _ _ _ Hn) as (r & n & t & z & ip & a & b & -> & _ & Hra & _ & (ir & Hir & Ha) & _).
  assert (Hall : Forall has_num_rank (submit_base (editingId st) (players st) (player r n t z))).
  { assert (Hp : has_num_rank (player r n t z)).
    { apply has_num_rank_player. subst r. apply num_or_zero_ok.
      simpl in Hir. injection Hir as <-. simpl in Ha. injection Ha as <-.
      apply num_or_zero_ok, str_to_num_valid. }
    destruct Heid as [-> | (i & -> & Hi)]; simpl.
    - apply Forall_app; split; [exact Hr | now constructor].
    - apply Forall_insert; assumption. }
  destruct (js_sort_rank _ Hall) as (s & Hs & Hp & Hss).
  exists s. subst st'.
  unfold submit.
  cbv [bind get_tm get_players set_players lift get_editingId set_editingId ret].
  apply String.eqb_neq in Hname. rewrite Hname. rewrite Hn.
  assert (Harr : forall i, i < length (players st) -> array_set (players st) i (player r n t z) = <[i := player r n t z]> (players st)).
  { intros i Hi. unfold array_set. apply Nat.ltb_lt in Hi. now rewrite Hi. }
  destruct Heid as [Heid | (i & Heid & Hi)]; rewrite Heid in Hs, Hp |- *; cbn [submit_base] in Hs, Hp |- *;
    simpl; [| rewrite (Harr i Hi)]; rewrite Hs;
    cbv [savePlayers populateTierFilter applyFiltersAndRender bind get_players setItem emit ret throw];
    simpl; destruct (forallb _ _); try destruct (forallb _ _); simpl;
    (split; [reflexivity | split; [apply lookup_insert_eq | split; assumption]]).
Qed.

Lemma submit_persists_sorted_witness :
  (trim "Zed" <> EmptyString /\
   normalizePlayer (tierMapping mapping_state)
     (form_record (tierMapping mapping_state) "2" "Zed" "LT3" "") = Some (player_Z 2 "Zed" "LT3" 50) /\
   (editingId mapping_state = None \/
    exists i, editingId mapping_state = Some i /\ i < length (players mapping_state)) /\
   Forall has_num_rank (players mapping_state)) /\
  let st' := snd (submit "2" "Zed" "LT3" "" mapping_state) in
  exists ps', players st' = ps' /\
    store st' !! STORAGE_KEY = Some (JSON_stringify (VArr ps')) /\
    StronglySorted rank_le ps' /\
    Permutation ps' (submit_base (editingId mapping_state) (players mapping_state)
                       (player_Z 2 "Zed" "LT3" 50)).
Proof.
  assert (H1 : trim "Zed" <> EmptyString) by (vm_compute; discriminate).
  assert (H2 : normalizePlayer (tierMapping mapping_state)
     (form_record (tierMapping mapping_state) "2" "Zed" "LT3" "") = Some (player_Z 2 "Zed" "LT3" 50))
    by (vm_compute; reflexivity).
  assert (H3 : editingId mapping_state = None \/
    exists i, editingId mapping_state = Some i /\ i < length (players mapping_state))
    by (left; reflexivity).
  assert (H4 : Forall has_num_rank (players mapping_state))
    by (apply has_num_rank_all; vm_compute; reflexivity).
  split; [repeat split; assumption |].
  exact (submit_persists_sorted mapping_state "2" "Zed" "LT3" "" (player_Z 2 "Zed" "LT3" 50) H1 H2 H3 H4).
Defined.

(** C10 (counterexample): the comparator reads [true || 0] as [1], not as
    the [0] the claim gives a non-numeric rank.  Adding C with rank 5 after X
    (rank 1) and B (rank [true]) keeps X before B, and this list is stored,
    although X's key in the claim's words is 1 and B's is 0. *)
Lemma submit_persists_sorted_counterexample :
  let st' := snd (submit "5" "C" "HT1" "" true_rank_state) in
  players st' = [player_Z 1 "X" "HT1" 100; true_rank_rec; player_Z 5 "C" "HT1" 100] /\
  store st' !! STORAGE_KEY =
    Some (JSON_stringify (VArr [player_Z 1 "X" "HT1" 100; true_rank_rec; player_Z 5 "C" "HT1" 100])) /\
  claim_rank (player_Z 1 "X" "HT1" 100) = num_of_Z 1 /\ claim_rank true_rank_rec = S754_zero false.
Proof. vm_compute. repeat split. Qed.

(* ------------------------------------------------------------------ *)
(** ** Exported JSON text read back *)


Lemma num_to_string_head (x : num) (X : string) :
  num_ok x = true -> num_finite x = true ->
  exists h w, num_to_string x ++ X = String h w /\ (h = "-"%char \/ is_digit h = true).
Proof.
  intros Hok Hfin. destruct x as [s|s| |s m e]; try discriminate.
  - eexists _, _. split; [reflexivity | right; reflexivity].
  - destruct (num_to_string_finite s m e Hok) as (ip & fp & xo & W & -> & Hip & _ & Hi0 & _).
    destruct s.
    + eexists _, _. split; [reflexivity | now left].
    + destruct Hi0 as [-> | (a & ip' & -> & _)].
      * eexists _, _. split; [reflexivity | right; reflexivity].
      * cbn [all_chars] in Hip. apply andb_true_iff in Hip as [Ha _].
        eexists _, _. split; [reflexivity | now right].
Qed.





Section JsonText.

#[local] Arguments parse_json_number : simpl never.
#[local] Arguments parse_str_body : simpl never.

Lemma parse_value_numeric (f : nat) (h : ascii) (w : string) :
  h = "-"%char \/ is_digit h = true ->
  parse_value (S f) (String h w) =
  option_map (fun '(n, r') => (VNum n, r')) (parse_json_number (String h w)).
Proof.
  intros [->|Hd]; [reflexivity|].
  destruct (digit_cases' h Hd) as [E|[E|[E|[E|[E|[E|[E|[E|[E|E]]]]]]]]]; subst h; reflexivity.
Qed.

Lemma parse_value_num (f : nat) (x : num) (r : string) :
  num_ok x = true -> num_finite x = true -> num_stop r ->
  parse_value (S f) (num_to_string x ++ r) =
  Some (VNum (match x with S754_zero _ => S754_zero false | _ => x end), r).
Proof.
  intros Hok Hfin Hr. pose proof (parse_json_number_print x r Hok Hfin Hr) as Hp.
  destruct (num_to_string_head x r Hok Hfin) as (h & w & Hhw & Hh). rewrite Hhw in Hp |- *.
  rewrite parse_value_numeric by exact Hh. rewrite Hp. reflexivity.
Qed.

End JsonText.

Lemma parse_str_body_quote_char (c : ascii) (r : string) :
  parse_str_body (quote_char c ++ r) =
  option_map (fun '(t, r') => (String c t, r')) (parse_str_body r).
Proof. destruct c as [[] [] [] [] [] [] [] []]; reflexivity. Qed.

Lemma parse_str_body_quote (s r : string) :
  parse_str_body (quote_body s ++ String dq r) = Some (s, r).
Proof.
  induction s as [|c s IH]; [reflexivity|].
  simpl. rewrite sapp_assoc, parse_str_body_quote_char, IH. reflexivity.
Qed.





Lemma parse_members_step (f : nat) (acc : obj) (s r : string) :
  skip_ws s = String dq r ->
  parse_members (S f) acc s =
  match parse_str_body r with
  | Some (k, r1) =>
      match skip_ws r1 with
      | String ":" r2 =>
          match parse_value f r2 with
          | Some (v, r3) =>
              match skip_ws r3 with
              | String "," r4 => parse_members f (obj_set acc k v) r4
              | String "}" r4 => Some (VObj (obj_set acc k v), r4)
              | _ => None
              end
          | None => None
          end
      | _ => None
      end
  | None => None
  end.
Proof. intros H. simpl. rewrite H. reflexivity. Qed.

Section PlayerText.

#[local] Arguments parse_value : simpl never.
#[local] Arguments parse_members : simpl never.
#[local] Arguments parse_elems : simpl never.



End PlayerText.


Lemma parse_elems_step (f : nat) (acc : list val) (s : string) :
  parse_elems (S f) acc s =
  match parse_value f s with
  | Some (v, r) =>
      match skip_ws r with
      | String "," r' => parse_elems f (app acc [v]) r'
      | String "]" r' => Some (VArr (app acc [v]), r')
      | _ => None
      end
  | None => None
  end.
Proof. reflexivity. Qed.



Lemma join_cons_map (sep a : string) (f : val -> string) (y : val) (l : list val) :
  join sep (a :: map f (y :: l)) = a ++ sep ++ join sep (map f (y :: l)).
Proof. reflexivity. Qed.

Section PlayerList.

#[local] Arguments parse_value : simpl never.
#[local] Arguments parse_members : simpl never.
#[local] Arguments parse_elems : simpl never.


End PlayerList.

Lemma slen_app (a b : string) : String.length (a ++ b) = String.length a + String.length b.
Proof. induction a as [|c a IH]; simpl; [reflexivity | now rewrite IH]. Qed.









(* ------------------------------------------------------------------ *)
(** ** escapeHtml *)

Lemma replace_all_app c rep (a b : string) :
  replace_all c rep (a ++ b) = replace_all c rep a ++ replace_all c rep b.
Proof. induction a as [|x a IH]; simpl; [reflexivity|]. rewrite IH. now rewrite sapp_assoc. Qed.

Lemma escape_html_str_cons (x : ascii) (r : string) :
  escape_html_str (String x r) = escape_html_str (str1 x) ++ escape_html_str r.
Proof.
  unfold escape_html_str. change (String x r) with (str1 x ++ r).
  rewrite !replace_all_app. reflexivity.
Qed.

Lemma html_decode_escape_char (x : ascii) (r : string) :
  html_decode (escape_html_str (str1 x) ++ r) = String x (html_decode r).
Proof. destruct x as [[] [] [] [] [] [] [] []]; reflexivity. Qed.

(** [escapeHtml] loses nothing: decoding the four character references
    it writes gives the original string back. *)
Theorem html_decode_escape (s : string) : html_decode (escape_html_str s) = s.
Proof.
  induction s as [|x s IH]; [reflexivity|].
  rewrite escape_html_str_cons, html_decode_escape_char, IH. reflexivity.
Qed.

Lemma escape_char_safe (x : ascii) :
  all_chars (fun c => negb (html_special c)) (escape_html_str (str1 x)) = true.
Proof. destruct x as [[] [] [] [] [] [] [] []]; reflexivity. Qed.

(** The output of [escapeHtml] contains no [<], [>] or double quote, so it
    cannot open a tag or close an attribute value. *)
Theorem escape_html_safe (s : string) :
  all_chars (fun c => negb (html_special c)) (escape_html_str s) = true.
Proof.
  induction s as [|x s IH]; [reflexivity|].
  rewrite escape_html_str_cons, all_chars_app, escape_char_safe, IH. reflexivity.
Qed.

(* ------------------------------------------------------------------ *)
(** ** getUniqueTiers *)

Lemma index_of_ge (l : list string) (a : string) : (-1 <= index_of l a)%Z.
Proof.
  induction l as [|x l IH]; simpl; [lia|].
  destruct (String.eqb x a); [lia|].
  destruct (Z.eqb_spec (index_of l a) (-1)); lia.
Qed.

Lemma index_of_neg (l : list string) (a : string) : index_of l a = (-1)%Z <-> ~ In a l.
Proof.
  induction l as [|x l IH]; simpl; [tauto|].
  destruct (String.eqb_spec x a) as [->|Hne].
  - split; [lia|tauto].
  - pose proof (index_of_ge l a).
    destruct (Z.eqb_spec (index_of l a) (-1)) as [He|He].
    + split; [intros _ [Hq|Hq]; [congruence|apply IH in He; tauto] | reflexivity].
    + split; [lia|]. intros Hn. exfalso. apply He, IH. tauto.
Qed.

Lemma index_of_inj (l : list string) (a b : string) :
  index_of l a = index_of l b -> In a l -> a = b.
Proof.
  induction l as [|x l IH]; simpl; [tauto|].
  pose proof (index_of_ge l a). pose proof (index_of_ge l b).
  intros E Hin.
  destruct (String.eqb_spec x a) as [Hxa|Ha]; destruct (String.eqb_spec x b) as [Hxb|Hb].
  - congruence.
  - destruct (Z.eqb_spec (index_of l b) (-1)); lia.
  - destruct (Z.eqb_spec (index_of l a) (-1)); lia.
  - destruct Hin as [->|Hin]; [congruence|].
    assert (index_of l a <> (-1)%Z) by (intros Hq; apply index_of_neg in Hq; contradiction).
    destruct (Z.eqb_spec (index_of l a) (-1)); [contradiction|].
    destruct (Z.eqb_spec (index_of l b) (-1)); [lia|].
    apply IH; [lia|exact Hin].
Qed.

Lemma cmp_le0_num_of_Z (z : Z) : cmp_le0 (num_of_Z z) = (z <=? 0)%Z.
Proof.
  unfold num_of_Z, dec_round. destruct z as [|p|p]; [reflexivity| |];
    cbn [Z.ltb Z.compare Z.leb]; change (Z.to_pos (10 ^ 0)) with 1%positive;
    [change (Z.abs (Zpos p)) with (Zpos p) | change (Z.abs (Zneg p)) with (Zpos p)];
    cbv iota beta.
  - destruct (round_pq_nonzero false (p * 1) 1) as [E | (m & e & E)];
      [ pose proof (Pos2Z.is_pos (p * 1)); unfold emin, prec, emax; lia | rewrite E; reflexivity..].
  - destruct (round_pq_nonzero true (p * 1) 1) as [E | (m & e & E)];
      [ pose proof (Pos2Z.is_pos (p * 1)); unfold emin, prec, emax; lia | rewrite E; reflexivity..].
Qed.

Lemma tier_cmp_cc lc x y : tier_idx x <> (-1)%Z -> tier_idx y <> (-1)%Z ->
  tier_cmp lc (VStr x) (VStr y) = Some (num_of_Z (tier_idx x - tier_idx y)).
Proof.
  unfold tier_cmp, tier_idx; intros Hx Hy.
  apply Z.eqb_neq in Hx, Hy. rewrite Hx, Hy. reflexivity.
Qed.

Lemma tier_cmp_cn lc x y : tier_idx x <> (-1)%Z -> tier_idx y = (-1)%Z ->
  tier_cmp lc (VStr x) (VStr y) = Some (num_of_Z (-1)).
Proof.
  unfold tier_cmp, tier_idx; intros Hx Hy.
  apply Z.eqb_neq in Hx. apply Z.eqb_eq in Hy. rewrite Hx, Hy. reflexivity.
Qed.

Lemma tier_cmp_nc lc x y : tier_idx x = (-1)%Z -> tier_idx y <> (-1)%Z ->
  tier_cmp lc (VStr x) (VStr y) = Some (num_of_Z 1).
Proof.
  unfold tier_cmp, tier_idx; intros Hx Hy.
  apply Z.eqb_eq in Hx. apply Z.eqb_neq in Hy. rewrite Hx, Hy. reflexivity.
Qed.

Lemma tier_cmp_str lc x y : exists n, tier_cmp lc (VStr x) (VStr y) = Some n.
Proof.
  unfold tier_cmp. repeat destruct (_ && _); eauto.
  destruct (negb _); eauto. destruct (negb _); eauto.
Qed.

Lemma insert_tier_str lc x l : exists r,
  insert_by (tier_cmp lc) (VStr x) (map VStr l) = Some (map VStr r) /\ Permutation (x :: l) r.
Proof.
  induction l as [|y l IH].
  - exists [x]. split; reflexivity.
  - destruct (tier_cmp_str lc x y) as [c Hc]. destruct IH as [r [Hr Hp]].
    cbn [map]. rewrite insert_by_cons, Hc. cbn.
    destruct (cmp_le0 c).
    + exists (x :: y :: l). split; reflexivity.
    + rewrite Hr. exists (y :: r). split; [reflexivity|].
      rewrite perm_swap. constructor. exact Hp.
Qed.

Lemma insert_tier_canon lc x c n :
  tier_idx x <> (-1)%Z -> ~ In x c -> Forall (fun t => tier_idx t <> (-1)%Z) c ->
  StronglySorted idx_lt c -> Forall (fun t => tier_idx t = (-1)%Z) n ->
  exists c', insert_by (tier_cmp lc) (VStr x) (map VStr (c ++ n)) = Some (map VStr (c' ++ n))
    /\ Permutation (x :: c) c' /\ StronglySorted idx_lt c'.
Proof.
  intros Hx. induction c as [|y c IH]; intros Hnin Hc Hs Hn.
  - exists [x]. split; [|split; [reflexivity|repeat constructor]].
    destruct n as [|z n]; [reflexivity|].
    inversion Hn; subst. cbn [app map]. rewrite insert_by_cons, (tier_cmp_cn lc x z) by assumption.
    reflexivity.
  - inversion Hc as [|? ? Hy Hc']; subst. inversion Hs as [|? ? Hs' Hall]; subst.
    cbn [app map]. rewrite insert_by_cons, (tier_cmp_cc lc x y) by assumption.
    remember (tier_idx x - tier_idx y)%Z as d eqn:Hd. cbn. rewrite cmp_le0_num_of_Z.
    assert (x <> y) by (intros ->; apply Hnin; left; reflexivity).
    assert (tier_idx x <> tier_idx y).
    { intros E. apply index_of_inj in E; [congruence|].
      destruct (In_dec string_dec x TIER_ORDER) as [?|Hni]; [assumption|].
      apply index_of_neg in Hni. contradiction. }
    destruct (Z.leb_spec d 0).
    + exists (x :: y :: c). split; [reflexivity|split; [reflexivity|]].
      constructor; [exact Hs|]. constructor; [unfold idx_lt; lia|].
      eapply Forall_impl; [exact Hall|]. unfold idx_lt; intros; lia.
    + destruct IH as [c' [Hr [Hp Hs'']]]; [intros ?; apply Hnin; right; assumption|assumption|assumption|assumption|].
      rewrite Hr. exists (y :: c'). split; [reflexivity|split].
      * rewrite perm_swap. constructor. exact Hp.
      * constructor; [exact Hs''|]. eapply Permutation_Forall; [exact Hp|].
        constructor; [unfold idx_lt; lia|exact Hall].
Qed.

Lemma insert_tier_noncanon lc x c n :
  tier_idx x = (-1)%Z -> Forall (fun t => tier_idx t <> (-1)%Z) c ->
  exists n', insert_by (tier_cmp lc) (VStr x) (map VStr (c ++ n)) = Some (map VStr (c ++ n'))
    /\ Permutation (x :: n) n'.
Proof.
  intros Hx. induction c as [|y c IH]; intros Hc.
  - apply insert_tier_str.
  - inversion Hc as [|? ? Hy Hc']; subst. cbn [app map].
    rewrite insert_by_cons, (tier_cmp_nc lc x y) by assumption. cbn.
    destruct (IH Hc') as [n' [Hr Hp]]. rewrite Hr. exists n'. split; [reflexivity|exact Hp].
Qed.

Lemma sort_tiers lc l : NoDup l -> exists c n,
  sort_by (tier_cmp lc) (map VStr l) = Some (map VStr (c ++ n)) /\ Permutation l (c ++ n)
  /\ Forall (fun t => tier_idx t <> (-1)%Z) c /\ Forall (fun t => tier_idx t = (-1)%Z) n
  /\ StronglySorted idx_lt c.
Proof.
  induction l as [|x l IH]; intros Hnd.
  - exists [], []. repeat split; constructor.
  - inversion Hnd as [|? ? Hnin Hnd']; subst.
    destruct (IH Hnd') as [c [n [Hs [Hp [Hc [Hn Hss]]]]]].
    cbn [map sort_by]. rewrite Hs. cbn.
    destruct (Z.eq_dec (tier_idx x) (-1)%Z) as [Hx|Hx].
    + destruct (insert_tier_noncanon lc x c n Hx Hc) as [n' [Hr Hp']].
      rewrite Hr. exists c, n'. split; [reflexivity|]. split; [|split; [exact Hc|split; [|exact Hss]]].
      * rewrite Hp, Permutation_middle. apply Permutation_app_head. exact Hp'.
      * eapply Permutation_Forall; [exact Hp'|]. constructor; assumption.
    + assert (Hxc : ~ In x c).
      { intros Hi. apply Hnin. apply list_elem_of_In.
        eapply Permutation_in; [symmetry; exact Hp|]. apply in_or_app. left. exact Hi. }
      destruct (insert_tier_canon lc x c n Hx Hxc Hc Hss Hn) as [c' [Hr [Hp' Hs']]].
      rewrite Hr. exists c', n. split; [reflexivity|]. split; [|split; [|split; [exact Hn|exact Hs']]].
      * rewrite Hp. exact (Permutation_app_tail n Hp').
      * eapply Permutation_Forall; [exact Hp'|]. constructor; assumption.
Qed.

Lemma sorted_idx_unique (l1 l2 : list string) :
  StronglySorted idx_lt l1 -> StronglySorted idx_lt l2 ->
  (forall x, In x l1 <-> In x l2) -> l1 = l2.
Proof.
  revert l2. induction l1 as [|a l1 IH]; intros l2 H1 H2 E.
  - destruct l2 as [|b l2]; [reflexivity|]. exfalso. apply (E b). left. reflexivity.
  - destruct l2 as [|b l2]; [exfalso; apply (E a); left; reflexivity|].
    inversion H1 as [|? ? H1' A1]; subst. inversion H2 as [|? ? H2' A2]; subst.
    rewrite List.Forall_forall in A1, A2.
    assert (a = b).
    { destruct (proj1 (E a) (or_introl eq_refl)) as [|Ha]; [congruence|].
      destruct (proj2 (E b) (or_introl eq_refl)) as [|Hb]; [congruence|].
      apply A1 in Hb. apply A2 in Ha. unfold idx_lt in *. lia. }
    subst b. f_equal. apply IH; [assumption|assumption|].
    intros x. split; intros Hx.
    + destruct (proj1 (E x) (or_intror Hx)) as [<-|]; [|assumption].
      apply A1 in Hx. unfold idx_lt in Hx. lia.
    + destruct (proj2 (E x) (or_intror Hx)) as [<-|]; [|assumption].
      apply A2 in Hx. unfold idx_lt in Hx. lia.
Qed.

Lemma TIER_ORDER_sorted : StronglySorted idx_lt TIER_ORDER.
Proof. repeat constructor. Qed.

Lemma fold_set_add (l s : list string) : NoDup s ->
  NoDup (fold_left set_add l s) /\ (forall x, In x (fold_left set_add l s) <-> In x s \/ In x l).
Proof.
  revert s. induction l as [|y l IH]; intros s Hs; simpl.
  - split; [exact Hs|tauto].
  - assert (Hs' : NoDup (set_add s y) /\ forall x, In x (set_add s y) <-> In x s \/ x = y).
    { unfold set_add. destruct (existsb (String.eqb y) s) eqn:E.
      - apply existsb_exists in E as [z [Hz Ez]]. apply String.eqb_eq in Ez. subst z.
        split; [exact Hs|]. intros x; split; [tauto|intros [?| ->]; assumption].
      - split.
        + apply NoDup_app. split; [exact Hs|split; [|apply NoDup_singleton]].
          intros x Hx Hy. apply list_elem_of_singleton in Hy. subst x.
          apply list_elem_of_In in Hx.
          assert (existsb (String.eqb y) s = true) by (apply existsb_exists; exists y; split; [exact Hx|apply String.eqb_refl]).
          congruence.
        + intros x. rewrite in_app_iff. simpl. intuition. }
    destruct Hs' as [Hnd Hin]. destruct (IH _ Hnd) as [H1 H2]. split; [exact H1|].
    intros x. rewrite H2, Hin. intuition.
Qed.

Lemma NoDup_List_filter {A} (f : A -> bool) (l : list A) : NoDup l -> NoDup (List.filter f l).
Proof.
  induction 1 as [|x l Hx Hl IH]; simpl; [constructor|].
  destruct (f x); [|exact IH]. constructor; [|exact IH].
  intros Hin. apply Hx. apply list_elem_of_In in Hin. apply filter_In in Hin.
  apply list_elem_of_In. tauto.
Qed.

Lemma map_opt_In {A B} (f : A -> option B) (l : list A) (l' : list B) :
  map_opt f l = Some l' -> forall y, In y l' <-> exists x, In x l /\ f x = Some y.
Proof.
  revert l'. induction l as [|x l IH]; intros l' H y; simpl in H.
  - injection H as <-. simpl. split; [tauto|intros [? [[] _]]].
  - destruct (f x) as [b|] eqn:Ef; [|discriminate]. simpl in H.
    destruct (map_opt f l) as [bs|]; [|discriminate]. simpl in H. injection H as <-.
    simpl. rewrite (IH bs eq_refl). split.
    + intros [<-|[z [Hz Ez]]]; [exists x; tauto|exists z; tauto].
    + intros [z [[<-|Hz] Ez]]; [left; congruence|right; exists z; tauto].
Qed.

Lemma map_opt_None {A B} (f : A -> option B) (l : list A) :
  map_opt f l = None <-> exists x, In x l /\ f x = None.
Proof.
  induction l as [|x l IH]; simpl.
  - split; [discriminate|intros [? [[] _]]].
  - destruct (f x) eqn:Ef; simpl.
    + destruct (map_opt f l) eqn:E; simpl.
      * split; [discriminate|]. intros [z [[<-|Hz] Ez]]; [congruence|].
        pose proof (proj2 IH (ex_intro _ z (conj Hz Ez))). discriminate.
      * split; [intros _|reflexivity]. destruct (proj1 IH eq_refl) as [z [? ?]]. exists z. tauto.
    + split; [intros _; exists x; tauto|reflexivity].
Qed.

Lemma filter_not_undef_str (l : list string) :
  filter (fun x => negb (is_undef x)) (map VStr l) = map VStr l.
Proof.
  induction l as [|x l IH]; [reflexivity|].
  cbn [map]. unfold filter, list_filter. case_decide as Hd; [|simpl in Hd; tauto].
  f_equal. exact IH.
Qed.

Lemma filter_undef_str (l : list string) : filter is_undef (map VStr l) = [].
Proof.
  induction l as [|x l IH]; [reflexivity|].
  cbn [map]. unfold filter, list_filter. case_decide as Hd; [simpl in Hd; tauto|].
  exact IH.
Qed.

Lemma js_sort_tiers lc l : NoDup l -> exists c n,
  js_sort (tier_cmp lc) (map VStr l) = Some (map VStr (c ++ n)) /\ Permutation l (c ++ n)
  /\ Forall (fun t => tier_idx t <> (-1)%Z) c /\ Forall (fun t => tier_idx t = (-1)%Z) n
  /\ StronglySorted idx_lt c.
Proof.
  intros Hnd. destruct (sort_tiers lc l Hnd) as [c [n [Hs R]]].
  exists c, n. split; [|exact R].
  unfold js_sort. rewrite filter_not_undef_str, Hs, filter_undef_str. simpl.
  rewrite app_nil_r. reflexivity.
Qed.

Lemma tier_of_ok (p : val) : tier_of p = None <-> tierfilter_ok p = false.
Proof.
  unfold tier_of; destruct p as [| | | | | |ps|]; simpl; try (split; congruence).
  destruct (own_get ps "tier") as [t|]; simpl; [|split; congruence].
  unfold js_or. destruct (truthy t); [|simpl; split; congruence].
  destruct t; simpl; split; congruence.
Qed.

Lemma TIER_ORDER_nonempty t : In t TIER_ORDER -> t <> EmptyString.
Proof. simpl. intros H; repeat destruct H as [<-|H]; try discriminate; contradiction. Qed.

(** [getUniqueTiers] lists the ten tiers of [TIER_ORDER] first, in that
    order, whatever [localeCompare] does; then each other non-empty trimmed
    tier of a player, once. *)
Theorem getUniqueTiers_order (lc : string -> string -> Z) (ps out : list val) :
  getUniqueTiers lc ps = Some out ->
  exists extra, out = map VStr (TIER_ORDER ++ extra) /\ NoDup extra /\
    forall t, In t extra <->
      (~ In t TIER_ORDER /\ t <> EmptyString /\ exists p, In p ps /\ tier_of p = Some t).
Proof.
  unfold getUniqueTiers. destruct (map_opt tier_of ps) as [ts|] eqn:Hts; [|discriminate].
  cbn [mbind option_bind]. cbv zeta.
  set (ne := fun t => negb (String.eqb t EmptyString)).
  destruct (fold_set_add (List.filter ne ts) [] NoDup_nil_2) as [N1 I1].
  set (s1 := fold_left set_add (List.filter ne ts) []) in *.
  destruct (fold_set_add TIER_ORDER s1 N1) as [N2 I2].
  set (s2 := fold_left set_add TIER_ORDER s1) in *.
  assert (N3 : NoDup (List.filter ne s2)).
  { apply NoDup_List_filter. exact N2. }
  assert (I3 : forall x, In x (List.filter ne s2) <->
                 (In x TIER_ORDER \/ (x <> EmptyString /\ In x ts))).
  { intros x. rewrite filter_In, I2, I1, filter_In. unfold ne.
    destruct (String.eqb_spec x EmptyString) as [->|Hx]; simpl.
    - split; [intuition congruence|]. intros [H|[H _]]; [|congruence].
      apply TIER_ORDER_nonempty in H. congruence.
    - intuition. }
  destruct (js_sort_tiers lc _ N3) as [c [n [Hs [Hp [Hc [Hn Hss]]]]]].
  rewrite Hs. intros H; injection H as <-.
  assert (Hcn : forall x, In x (c ++ n) <-> In x TIER_ORDER \/ (x <> EmptyString /\ In x ts)).
  { intros x. rewrite <- I3. split; apply Permutation_in; [symmetry|]; exact Hp. }
  assert (Hcanon : forall x, tier_idx x <> (-1)%Z <-> In x TIER_ORDER).
  { intros x. unfold tier_idx. rewrite index_of_neg. split; [|tauto].
    intros H. destruct (In_dec string_dec x TIER_ORDER); tauto. }
  rewrite List.Forall_forall in Hc, Hn.
  assert (Ec : c = TIER_ORDER).
  { apply sorted_idx_unique; [exact Hss|exact TIER_ORDER_sorted|].
    intros x. split.
    - intros Hx. apply Hcanon, Hc, Hx.
    - intros Hx. assert (Hi : In x (c ++ n)) by (apply Hcn; tauto).
      apply in_app_or in Hi as [Hi|Hi]; [exact Hi|].
      apply Hn in Hi. apply Hcanon in Hx. contradiction. }
  subst c. exists n. split; [reflexivity|]. split.
  - rewrite Hp in N3. apply NoDup_app in N3. tauto.
  - intros t. rewrite <- (map_opt_In _ _ _ Hts). split.
    + intros Ht. pose proof (Hn t Ht) as Hnt.
      assert (~ In t TIER_ORDER) by (rewrite <- Hcanon; tauto).
      assert (Hi : In t (TIER_ORDER ++ n)) by (apply in_or_app; right; exact Ht).
      apply Hcn in Hi. tauto.
    + intros [Hni [Hne Hin]].
      assert (Hi : In t (TIER_ORDER ++ n)) by (apply Hcn; tauto).
      apply in_app_or in Hi as [Hi|Hi]; [contradiction|exact Hi].
Qed.

Lemma getUniqueTiers_order_witness :
  exists extra, map VStr (TIER_ORDER ++ ["Gold"]) = map VStr (TIER_ORDER ++ extra) /\ NoDup extra /\
    forall t, In t extra <->
      (~ In t TIER_ORDER /\ t <> EmptyString /\
       exists p, In p [player_Z 1 "A" "HT1" 1; player_Z 2 "B" " Gold " 2; player_Z 3 "C" "LT5" 3] /\
                 tier_of p = Some t).
Proof.
  apply (getUniqueTiers_order (fun _ _ => 0%Z)
           [player_Z 1 "A" "HT1" 1; player_Z 2 "B" " Gold " 2; player_Z 3 "C" "LT5" 3]).
  vm_compute. reflexivity.
Defined.

(** [getUniqueTiers] throws exactly when some player is [null] or
    [undefined], or has a truthy [tier] that is not a string: the case the
    [populateTierFilter] model reports. *)
Theorem getUniqueTiers_throws (lc : string -> string -> Z) (ps : list val) :
  getUniqueTiers lc ps = None <-> forallb tierfilter_ok ps = false.
Proof.
  unfold getUniqueTiers. destruct (map_opt tier_of ps) as [ts|] eqn:Hts;
    cbn [mbind option_bind]; cbv zeta.
  - split.
    + set (ne := fun t => negb (String.eqb t EmptyString)).
      destruct (fold_set_add (List.filter ne ts) [] NoDup_nil_2) as [N1 _].
      destruct (fold_set_add TIER_ORDER _ N1) as [N2 _].
      assert (N3 : NoDup (List.filter ne (fold_left set_add TIER_ORDER (fold_left set_add (List.filter ne ts) [])))).
      { apply NoDup_List_filter. exact N2. }
      destruct (js_sort_tiers lc _ N3) as [c [n [Hs _]]]. rewrite Hs. discriminate.
    + intros Hf. exfalso. apply not_true_iff_false in Hf. apply Hf, forallb_forall.
      intros p Hp. destruct (tierfilter_ok p) eqn:E; [reflexivity|].
      apply tier_of_ok in E. assert (map_opt tier_of ps = None) by (apply map_opt_None; eauto).
      congruence.
  - split; [intros _|reflexivity].
    apply map_opt_None in Hts as [p [Hp Ep]]. apply tier_of_ok in Ep.
    apply not_true_iff_false. intros Hf. rewrite forallb_forall in Hf.
    rewrite (Hf p Hp) in Ep. discriminate.
Qed.

(* ------------------------------------------------------------------ *)
(** ** JSON round trip *)

Lemma val_ind' (P : val -> Prop)
  (HU : P VUndef) (HN : P VNull) (HB : forall b, P (VBool b)) (HNum : forall n, P (VNum n))
  (HS : forall s, P (VStr s)) (HA : forall xs, Forall P xs -> P (VArr xs))
  (HO : forall ps, Forall (fun kv => P (snd kv)) ps -> P (VObj ps))
  (HF : forall n, P (VFun n)) : forall v, P v.
Proof.
  exact (fix go (v : val) : P v :=
    match v with
    | VUndef => HU | VNull => HN | VBool b => HB b | VNum n => HNum n | VStr s => HS s
    | VArr xs => HA xs ((fix gol (l : list val) : Forall P l :=
                           match l with
                           | [] => List.Forall_nil _
                           | x :: l' => @List.Forall_cons _ P x l' (go x) (gol l')
                           end) xs)
    | VObj ps => HO ps ((fix gop (l : obj) : Forall (fun kv => P (snd kv)) l :=
                           match l with
                           | [] => List.Forall_nil _
                           | (k, x) :: l' => @List.Forall_cons _ (fun kv => P (snd kv)) (k, x) l' (go x) (gop l')
                           end) ps)
    | VFun n => HF n
    end).
Qed.


Lemma follow_num_stop (r : string) : follow_ok r -> num_stop r.
Proof.
  intros [-> | (c & r' & -> & Hc)]; [now left|]. right. exists c, r'. split; [reflexivity|].
  destruct Hc as [-> | [-> | ->]]; simpl; tauto.
Qed.

Section JsonData.

#[local] Arguments parse_json_number : simpl never.
#[local] Arguments parse_str_body : simpl never.

Lemma parse_value_quote (f : nat) (s r : string) :
  parse_value (S f) (quote s ++ r) = Some (VStr s, r).
Proof.
  unfold quote. rewrite !sapp_assoc. simpl. rewrite parse_str_body_quote. reflexivity.
Qed.

End JsonData.

Lemma ser_some (g i : string) (v : val) :
  v <> VUndef -> (forall n, v <> VFun n) -> exists t, ser g i v = Some t.
Proof.
  intros H1 H2. destruct v as [| |[]|[]| | |ps|n]; simpl; try congruence;
    try (exfalso; eapply H2; reflexivity);
    repeat (match goal with |- context [match ?m with [] => _ | _ :: _ => _ end] => destruct m end);
    repeat (match goal with |- context [if ?b then _ else _] => destruct b end); eauto.
Qed.

Lemma json_data_ser (g i : string) (v : val) : json_data v = true -> exists t, ser g i v = Some t.
Proof. intros H. apply ser_some; [intros ->; discriminate|intros n ->; discriminate]. Qed.

(** The first character of a value's compact text. *)
Lemma ser_head (i : string) (v : val) (t : string) :
  json_data v = true ->
  ser "" i v = Some t -> exists h w, t = String h w /\ is_json_ws h = false /\ h <> "]"%char.
Proof.
  intros Hd H. destruct v as [| |[]|n| | |ps|m]; simpl in H; try discriminate;
    repeat (match type of H with context [match ?m with [] => _ | _ :: _ => _ end] => destruct m end);
    injection H as <-;
    try (eexists _, _; split; [reflexivity|split; [reflexivity|discriminate]]).
  simpl in Hd. destruct (num_finite n) eqn:Hf;
    [|eexists _, _; split; [reflexivity|split; [reflexivity|discriminate]]].
  destruct (num_to_string_head n EmptyString Hd Hf) as (h & w & Hhw & Hh). rewrite sapp_nil in Hhw.
  rewrite Hhw. exists h, w. split; [reflexivity|].
  destruct Hh as [-> | Hh]; [split; [reflexivity|discriminate]|].
  destruct (digit_cases' h Hh) as [->|[->|[->|[->|[->|[->|[->|[->|[->| ->]]]]]]]]];
    split; try reflexivity; discriminate.
Qed.

Lemma parse_value_arr_open (f : nat) (X : string) :
  (exists h w, X = String h w /\ is_json_ws h = false /\ h <> "]"%char) ->
  parse_value (S f) (String "[" X) = parse_elems f [] X.
Proof.
  intros (h & w & -> & H1 & H2).
  destruct h as [[] [] [] [] [] [] [] []]; try reflexivity; try discriminate H1;
    exfalso; apply H2; reflexivity.
Qed.

Lemma parse_value_obj_open (f : nat) (w : string) :
  parse_value (S f) (String "{" (String dq w)) = parse_members f [] (String dq w).
Proof. reflexivity. Qed.

Lemma join_head_app (sep a : string) (l : list string) (X : string) :
  exists Y, join sep (a :: l) ++ X = a ++ Y.
Proof.
  destruct l as [|b l].
  - exists X. reflexivity.
  - exists (sep ++ join sep (b :: l) ++ X). change (join sep (a :: b :: l)) with (a ++ sep ++ join sep (b :: l)).
    rewrite !sapp_assoc. reflexivity.
Qed.

Lemma obj_set_fresh (acc : obj) (k : string) (v : val) :
  ~ In k (map fst acc) -> obj_set acc k v = app acc [(k, v)].
Proof.
  induction acc as [|[k' v'] acc IH]; simpl; [reflexivity|].
  intros Hn. destruct (String.eqb_spec k k') as [->|]; [exfalso; tauto|].
  rewrite IH by tauto. reflexivity.
Qed.

Section JsonLists.

#[local] Arguments parse_value : simpl never.
#[local] Arguments parse_members : simpl never.
#[local] Arguments parse_elems : simpl never.
#[local] Arguments parse_str_body : simpl never.

Lemma parse_elems_ser (j : string) (xs : list val) :
  Forall parses_back xs -> forallb json_data xs = true ->
  forall F acc r, xs <> [] -> list_sum (map (fun x => S (fsize x)) xs) <= F -> follow_ok r ->
  parse_elems (S F) acc
    (join "," (map (fun x => match ser "" j x with Some t => t | None => "null" end) xs)
     ++ String "]" r) = Some (VArr (app acc (map json_canon xs)), r).
Proof.
  induction xs as [|x xs IH]; intros HP Hok F acc r Hne HF Hr; [congruence|].
  inversion HP as [|? ? Px HP']; subst. simpl in Hok. apply andb_true_iff in Hok as [Hx Hok].
  destruct (json_data_ser "" j x Hx) as [t Ht].
  destruct F as [|F]; [simpl in HF; lia|].
  rewrite parse_elems_step.
  destruct xs as [|y ys].
  - cbn [map join]. rewrite Ht.
    rewrite (Px j t F (String "]" r) Hx Ht) by (simpl in HF; lia || (right; eexists _, _; split; [reflexivity|right; left; reflexivity])).
    reflexivity.
  - set (g := fun x => match ser "" j x with Some t => t | None => "null" end).
    rewrite (map_cons g x (y :: ys)), join_cons_map.
    replace (g x) with t by (unfold g; rewrite Ht; reflexivity).
    set (J := join "," (map g (y :: ys))).
    rewrite !sapp_assoc.
    simpl in HF.
    rewrite (Px j t F) by (assumption || lia || (right; eexists _, _; split; [reflexivity|left; reflexivity])).
    simpl.
    subst J; unfold g. rewrite (IH HP' Hok F (app acc [json_canon x]) r) by (discriminate || simpl; lia || assumption).
    rewrite <- app_assoc. reflexivity.
Qed.

Lemma parse_members_ser (j : string) (ps : obj) :
  Forall (fun kv => parses_back (snd kv)) ps -> forallb (fun kv => json_data (snd kv)) ps = true ->
  keys_unique ps = true ->
  forall F acc r, ps <> [] -> (forall k, In k (map fst ps) -> ~ In k (map fst acc)) ->
  list_sum (map (fun kv => S (fsize (snd kv))) ps) <= F -> follow_ok r ->
  parse_members (S F) acc
    (join "," (map (fun '(k, x) => quote k ++ ":" ++
                      match ser "" j x with Some t => t | None => "null" end) ps)
     ++ String "}" r) = Some (VObj (app acc (map (fun kv => (fst kv, json_canon (snd kv))) ps)), r).
Proof.
  induction ps as [|[k x] ps IH]; intros HP Hok Hu F acc r Hne Hdis HF Hr; [congruence|].
  inversion HP as [|? ? Px HP']; subst. cbn [snd] in Px. simpl in Hok. apply andb_true_iff in Hok as [Hx Hok].
  simpl in Hu. apply andb_true_iff in Hu as [Hk Hu].
  destruct (json_data_ser "" j x Hx) as [t Ht].
  simpl in HF. destruct F as [|F]; [lia|].
  assert (Hset : obj_set acc k (json_canon x) = app acc [(k, json_canon x)]).
  { apply obj_set_fresh, Hdis. left. reflexivity. }
  destruct ps as [|[k2 y] ys].
  - cbn [map join]. rewrite Ht. unfold quote. rewrite !sapp_assoc.
    unfold str1. cbn [String.append].
    erewrite parse_members_step by reflexivity. rewrite parse_str_body_quote. simpl.
    rewrite (Px j t F (String "}" r) Hx Ht) by (lia || (right; eexists _, _; split; [reflexivity|right; right; reflexivity])).
    simpl. rewrite Hset. reflexivity.
  - set (g := fun '(k, x) => quote k ++ ":" ++ match ser "" j x with Some t => t | None => "null" end).
    change (join "," (map g ((k, x) :: (k2, y) :: ys)))
      with (g (k, x) ++ "," ++ join "," (map g ((k2, y) :: ys))).
    replace (g (k, x)) with (quote k ++ ":" ++ t) by (unfold g; rewrite Ht; reflexivity).
    set (J := join "," (map g ((k2, y) :: ys))).
    unfold quote at 1. rewrite !sapp_assoc.
    unfold str1. cbn [String.append].
    erewrite parse_members_step by reflexivity. rewrite parse_str_body_quote. simpl.
    rewrite (Px j t F) by (assumption || lia || (right; eexists _, _; split; [reflexivity|left; reflexivity])).
    simpl. rewrite Hset.
    subst J; unfold g. rewrite (IH HP' Hok Hu F (app acc [(k, json_canon x)]) r).
    + rewrite <- app_assoc. reflexivity.
    + discriminate.
    + intros k' Hk' Hin. rewrite map_app, in_app_iff in Hin. destruct Hin as [Hin|[<-|[]]].
      * apply (Hdis k'); [right; exact Hk'|exact Hin].
      * apply negb_true_iff in Hk. apply not_true_iff_false in Hk. apply Hk.
        apply existsb_exists. exists k. split; [exact Hk'|apply String.eqb_refl].
    + lia.
    + exact Hr.
Qed.

End JsonLists.

Lemma flat_map_members (j : string) (ps : obj) :
  forallb (fun kv => json_data (snd kv)) ps = true ->
  flat_map (fun '(k, x) => match ser "" j x with Some t => [quote k ++ ":" ++ t] | None => [] end) ps
  = map (fun '(k, x) => quote k ++ ":" ++ match ser "" j x with Some t => t | None => "null" end) ps.
Proof.
  induction ps as [|[k x] ps IH]; simpl; [reflexivity|].
  intros H. apply andb_true_iff in H as [Hx H].
  destruct (json_data_ser "" j x Hx) as [t Ht]. rewrite Ht. simpl. f_equal. exact (IH H).
Qed.

Lemma keys_unique_NoDup (ps : obj) : keys_unique ps = true -> NoDup (map fst ps).
Proof.
  induction ps as [|[k x] ps IH]; simpl; [constructor|].
  intros H. apply andb_true_iff in H as [Hk H]. constructor; [|exact (IH H)].
  intros Hin. apply list_elem_of_In in Hin.
  apply negb_true_iff, not_true_iff_false in Hk. apply Hk, existsb_exists.
  exists k. split; [exact Hin|apply String.eqb_refl].
Qed.

Lemma ser_arr_cons (i : string) (x : val) (xs : list val) :
  ser "" i (VArr (x :: xs)) =
  Some ("[" ++ join "," (map (fun x => match ser "" (i ++ "") x with Some t => t | None => "null" end) (x :: xs)) ++ "]").
Proof. reflexivity. Qed.

Lemma ser_obj_ok (i : string) (ps : obj) :
  forallb (fun kv => json_data (snd kv)) ps = true -> ps <> [] ->
  ser "" i (VObj ps) =
  Some ("{" ++ join "," (map (fun '(k, x) => quote k ++ ":" ++ match ser "" (i ++ "") x with Some t => t | None => "null" end) ps) ++ "}").
Proof.
  intros H Hne. cbn [ser]. cbn [String.eqb]. rewrite flat_map_members by exact H.
  destruct ps; [congruence|reflexivity].
Qed.

Lemma Some_eq_str (a b : string) : Some a = Some b -> b = a.
Proof. congruence. Qed.

Lemma parse_ser (v : val) : parses_back v.
Proof.
  induction v as [| |b|n|s|xs IHxs|ps IHps|n] using val_ind';
    intros i t f r Hok Hser Hf Hr; simpl in Hok; try discriminate.
  - injection Hser as <-. reflexivity.
  - destruct b; injection Hser as <-; reflexivity.
  - injection Hser as <-. destruct (num_finite n) eqn:Hfin.
    + rewrite parse_value_num by (assumption || now apply follow_num_stop).
      destruct n; try discriminate; reflexivity.
    + destruct n; try discriminate; reflexivity.
  - injection Hser as <-. apply parse_value_quote.
  - destruct xs as [|x xs']; [injection Hser as <-; reflexivity|].
    rewrite ser_arr_cons in Hser. apply Some_eq_str in Hser. subst t.
    set (g := fun x => match ser "" (i ++ "") x with Some t => t | None => "null" end).
    set (J := join "," (map g (x :: xs'))).
    assert (HJ : exists h w, J ++ String "]" r = String h w /\ is_json_ws h = false /\ h <> "]"%char).
    { simpl in Hok. apply andb_true_iff in Hok as [Hx _].
      destruct (json_data_ser "" (i ++ "") x Hx) as [tx Htx].
      destruct (ser_head _ _ _ Hx Htx) as (h & w & Htw & Hh1 & Hh2).
      destruct (join_head_app "," (g x) (map g xs') (String "]" r)) as [Y HY].
      exists h, (w ++ Y). split; [|tauto]. unfold J. rewrite map_cons, HY.
      unfold g. rewrite Htx, Htw. reflexivity. }
    rewrite !sapp_assoc. simpl String.append at 1.
    rewrite parse_value_arr_open by exact HJ.
    destruct f as [|F]; [simpl in Hf; lia|].
    unfold J, g. rewrite (parse_elems_ser (i ++ "") (x :: xs') IHxs Hok F [] r).
    + reflexivity.
    + discriminate.
    + simpl in Hf |- *. lia.
    + exact Hr.
  - apply andb_true_iff in Hok as [Hu Hok].
    destruct ps as [|[k x] ps']; [injection Hser as <-; reflexivity|].
    rewrite ser_obj_ok in Hser by (exact Hok || discriminate). apply Some_eq_str in Hser. subst t.
    set (g := fun '(k, x) => quote k ++ ":" ++ match ser "" (i ++ "") x with Some t => t | None => "null" end).
    set (J := join "," (map g ((k, x) :: ps'))).
    assert (HJ : exists w, J ++ String "}" r = String dq w).
    { destruct (join_head_app "," (g (k, x)) (map g ps') (String "}" r)) as [Y HY].
      unfold J. rewrite map_cons, HY. eexists. unfold g, quote. rewrite !sapp_assoc. reflexivity. }
    rewrite !sapp_assoc. simpl String.append at 1.
    destruct HJ as [w HJ]. rewrite HJ, parse_value_obj_open, <- HJ.
    destruct f as [|F]; [simpl in Hf; lia|].
    unfold J, g.
    rewrite (parse_members_ser (i ++ "") ((k, x) :: ps') IHps Hok Hu F [] r).
    + reflexivity.
    + discriminate.
    + intros ? _ [].
    + simpl in Hf |- *. lia.
    + exact Hr.
Qed.

Lemma join_len_ge (sep : string) (l : list string) :
  list_sum (map String.length l) <= String.length (join sep l).
Proof.
  induction l as [|a l IH]; [simpl; lia|].
  destruct l as [|b l]; [simpl; lia|].
  change (join sep (a :: b :: l)) with (a ++ sep ++ join sep (b :: l)).
  rewrite !slen_app. simpl map in *. simpl list_sum in *. lia.
Qed.

Lemma list_sum_map_le {A} (f g : A -> nat) (l : list A) :
  (forall x, In x l -> f x <= g x) -> list_sum (map f l) <= list_sum (map g l).
Proof.
  induction l as [|x l IH]; simpl; [lia|]. intros H.
  specialize (H x (or_introl eq_refl)) as Hx. specialize (IH (fun y Hy => H y (or_intror Hy))). lia.
Qed.

Lemma quote_len (s : string) : 2 <= String.length (quote s).
Proof. unfold quote. rewrite !slen_app. simpl. lia. Qed.

Lemma fsize_len (v : val) : forall i t, json_data v = true -> ser "" i v = Some t ->
  fsize v < String.length t.
Proof.
  induction v as [| |b|n|s|xs IHxs|ps IHps|n] using val_ind';
    intros i t Hok Hser; simpl in Hok; try discriminate.
  - injection Hser as <-. simpl. lia.
  - destruct b; injection Hser as <-; simpl; lia.
  - injection Hser as <-. destruct (num_finite n) eqn:Hf; [|simpl; lia].
    destruct (num_to_string_head n EmptyString Hok Hf) as (h & w & Hhw & _). rewrite sapp_nil in Hhw.
    rewrite Hhw. simpl. lia.
  - injection Hser as <-. pose proof (quote_len s). simpl. lia.
  - destruct xs as [|x xs']; [injection Hser as <-; simpl; lia|].
    rewrite ser_arr_cons in Hser. apply Some_eq_str in Hser. subst t.
    set (g := fun x => match ser "" (i ++ "") x with Some t => t | None => "null" end).
    pose proof (join_len_ge "," (map g (x :: xs'))) as HJ.
    rewrite map_map in HJ.
    enough (list_sum (map (fun x => S (fsize x)) (x :: xs')) <=
            list_sum (map (fun x => String.length (g x)) (x :: xs'))).
    { change (fsize (VArr (x :: xs'))) with (S (list_sum (map (fun x => S (fsize x)) (x :: xs')))).
      rewrite !slen_app. cbn [String.length]. lia. }
    apply list_sum_map_le. intros y Hy.
    rewrite List.Forall_forall in IHxs.
    assert (Hyok : json_data y = true) by (apply forallb_forall with (x := y) in Hok; assumption).
    destruct (json_data_ser "" (i ++ "") y Hyok) as [ty Hty]. unfold g. rewrite Hty.
    pose proof (IHxs y Hy (i ++ "") ty Hyok Hty). lia.
  - apply andb_true_iff in Hok as [Hu Hok].
    destruct ps as [|[k x] ps']; [injection Hser as <-; simpl; lia|].
    rewrite ser_obj_ok in Hser by (exact Hok || discriminate). apply Some_eq_str in Hser. subst t.
    set (g := fun '(k, x) => quote k ++ ":" ++ match ser "" (i ++ "") x with Some t => t | None => "null" end).
    pose proof (join_len_ge "," (map g ((k, x) :: ps'))) as HJ.
    rewrite map_map in HJ.
    enough (list_sum (map (fun kv => S (fsize (snd kv))) ((k, x) :: ps')) <=
            list_sum (map (fun kv => String.length (g kv)) ((k, x) :: ps'))).
    { change (fsize (VObj ((k, x) :: ps'))) with (S (list_sum (map (fun kv => S (fsize (snd kv))) ((k, x) :: ps')))).
      rewrite !slen_app. cbn [String.length]. lia. }
    apply list_sum_map_le. intros [k' y] Hy.
    rewrite List.Forall_forall in IHps.
    assert (Hyok : json_data y = true) by (apply forallb_forall with (x := (k', y)) in Hok; assumption).
    destruct (json_data_ser "" (i ++ "") y Hyok) as [ty Hty].
    unfold g. rewrite Hty, !slen_app. pose proof (quote_len k').
    pose proof (IHps (k', y) Hy (i ++ "") ty Hyok Hty). simpl in *. lia.
Qed.

Lemma stringify_parse_data (v : val) :
  json_data v = true -> JSON_parse (JSON_stringify v) = Some (json_canon v).
Proof.
  intros Hok. destruct (json_data_ser "" "" v Hok) as [t Ht].
  unfold JSON_parse, JSON_stringify. rewrite Ht.
  assert (Hlen : fsize v <= 2 * String.length t + 1) by (pose proof (fsize_len v "" t Hok Ht); lia).
  replace (2 * String.length t + 2) with (S (2 * String.length t + 1)) by lia.
  pose proof (parse_ser v "" t _ EmptyString Hok Ht Hlen (or_introl eq_refl)) as P.
  rewrite sapp_nil in P. rewrite P. reflexivity.
Qed.

(** [JSON.parse(JSON.stringify(v))] gives [v] back for JSON data, except
    that [NaN] and the infinities come back as [null] and [-0] as [0]. *)
Theorem JSON_roundtrip (v : val) :
  json_data v = true -> JSON_parse (JSON_stringify v) = Some (json_canon v).
Proof. apply stringify_parse_data. Qed.

Lemma JSON_roundtrip_witness :
  JSON_parse (JSON_stringify (VArr [VObj [("motd", VArr [VStr "hi"; VNull]); ("n", VNum (num_of_Z (-7)))];
                                    VNum (str_to_num "2.5"); VNum (S754_infinity false);
                                    VNum (S754_zero true); VBool false; VStr (str1 dq)])) =
  Some (json_canon (VArr [VObj [("motd", VArr [VStr "hi"; VNull]); ("n", VNum (num_of_Z (-7)))];
                          VNum (str_to_num "2.5"); VNum (S754_infinity false);
                          VNum (S754_zero true); VBool false; VStr (str1 dq)])).
Proof. apply JSON_roundtrip. vm_compute. reflexivity. Defined.

(* ------------------------------------------------------------------ *)
(** ** Saving and reloading *)

Lemma json_ok_data (v : val) : json_ok v = true -> json_data v = true /\ json_canon v = v.
Proof.
  induction v as [| |b|n|s|xs IHxs|ps IHps|n] using val_ind'; simpl; intros H; try discriminate;
    try (split; reflexivity).
  - unfold num_plain in H. apply andb_true_iff in H as [H1 H2]. split; [exact H1|].
    destruct n as [[]| | |]; try discriminate; reflexivity.
  - induction IHxs as [|x xs Hx _ IH]; [split; reflexivity|].
    simpl in H. apply andb_true_iff in H as [H1 H2].
    destruct (Hx H1) as [D1 C1]. destruct (IH H2) as [D2 C2].
    simpl. rewrite D1, D2, C1. injection C2 as ->. split; reflexivity.
  - apply andb_true_iff in H as [Hu H]. rewrite Hu. simpl. clear Hu.
    induction IHps as [|[k x] ps Hx _ IH]; [split; reflexivity|].
    simpl in H. apply andb_true_iff in H as [H1 H2].
    destruct (Hx H1) as [D1 C1]. destruct (IH H2) as [D2 C2].
    simpl in D1, C1 |- *. rewrite D1, D2, C1. injection C2 as ->. split; reflexivity.
Qed.

Lemma stringify_parse (v : val) : json_ok v = true -> JSON_parse (JSON_stringify v) = Some v.
Proof.
  intros Hok. destruct (json_ok_data v Hok) as [Hd Hc]. rewrite <- Hc at 2.
  now apply stringify_parse_data.
Qed.

Lemma stringify_not_missing_data (v : val) :
  json_data v = true -> raw_missing (Some (JSON_stringify v)) = false.
Proof.
  intros Hok. pose proof (stringify_parse_data v Hok) as P. unfold raw_missing.
  destruct (String.eqb_spec (JSON_stringify v) EmptyString) as [He|]; [|reflexivity].
  rewrite He in P. discriminate.
Qed.

Lemma stringify_not_missing (v : val) :
  json_ok v = true -> raw_missing (Some (JSON_stringify v)) = false.
Proof.
  intros Hok. pose proof (stringify_parse v Hok) as P. unfold raw_missing.
  destruct (String.eqb_spec (JSON_stringify v) EmptyString) as [He|]; [|reflexivity].
  rewrite He in P. discriminate.
Qed.

(** When every player is JSON data whose numbers are finite and not [-0]
    ([json_ok]), the list [savePlayers] writes is read back unchanged by the editor's and by the viewer's [loadPlayers], and
    neither load changes the state (no reseeding, no write). *)
Theorem savePlayers_reload (st : St) :
  forallb json_ok (players st) = true ->
  let st1 := snd (savePlayers st) in
  loadPlayers st1 = (Some (players st), st1) /\
  View.loadPlayers st1 = (Some (players st), st1).
Proof.
  intros Hok st1.
  assert (Hv : json_ok (VArr (players st)) = true) by exact Hok.
  assert (Hs : store st1 !! STORAGE_KEY = Some (JSON_stringify (VArr (players st)))).
  { subst st1. cbv [savePlayers bind get_players setItem emit]. simpl. apply lookup_insert_eq. }
  pose proof (stringify_parse _ Hv) as P. pose proof (stringify_not_missing _ Hv) as N.
  split; cbv [loadPlayers View.loadPlayers try_catch bind getItem lift ret]; rewrite Hs, N;
    cbn [raw_text]; rewrite P; reflexivity.
Qed.

Lemma savePlayers_reload_witness :
  loadPlayers (snd (savePlayers (mkSt initialData mappingDefault None ∅ []))) =
    (Some initialData, snd (savePlayers (mkSt initialData mappingDefault None ∅ []))) /\
  View.loadPlayers (snd (savePlayers (mkSt initialData mappingDefault None ∅ []))) =
    (Some initialData, snd (savePlayers (mkSt initialData mappingDefault None ∅ []))).
Proof. apply (savePlayers_reload (mkSt initialData mappingDefault None ∅ [])). vm_compute. reflexivity. Defined.

Lemma NoDup_keys_unique (ps : obj) : NoDup (map fst ps) -> keys_unique ps = true.
Proof.
  induction ps as [|[k x] ps IH]; simpl; [reflexivity|].
  intros Hnd. apply NoDup_cons in Hnd as [Hn Hnd]. rewrite list_elem_of_In in Hn.
  rewrite (IH Hnd), andb_true_r. apply negb_true_iff.
  destruct (existsb (String.eqb k) (map fst ps)) eqn:E; [|reflexivity].
  apply existsb_exists in E as [k' [Hk' Heq]]. apply String.eqb_eq in Heq. subst. tauto.
Qed.

Lemma obj_set_values (ps : obj) (k : string) (v : val) (P : val -> Prop) :
  Forall (fun kv => P (snd kv)) ps -> P v -> Forall (fun kv => P (snd kv)) (obj_set ps k v).
Proof.
  intros Hps Hv. induction Hps as [|[k' v'] ps Hx Hps IH]; simpl.
  - exact (@List.Forall_cons _ (fun kv => P (snd kv)) (k, v) [] Hv (List.Forall_nil _)).
  - destruct (String.eqb k k').
    + exact (@List.Forall_cons _ (fun kv => P (snd kv)) (k', v) ps Hv Hps).
    + exact (@List.Forall_cons _ (fun kv => P (snd kv)) (k', v') _ Hx IH).
Qed.

Lemma json_ok_obj (ps : obj) :
  json_ok (VObj ps) = true <->
  NoDup (map fst ps) /\ Forall (fun kv => json_ok (snd kv) = true) ps.
Proof.
  simpl. rewrite andb_true_iff, List.Forall_forall, forallb_forall. split.
  - intros [Hk Hv]. split; [apply keys_unique_NoDup; exact Hk|exact Hv].
  - intros [Hk Hv]. split; [apply NoDup_keys_unique; exact Hk|exact Hv].
Qed.

Lemma json_data_obj (ps : obj) :
  json_data (VObj ps) = true <->
  NoDup (map fst ps) /\ Forall (fun kv => json_data (snd kv) = true) ps.
Proof.
  simpl. rewrite andb_true_iff, List.Forall_forall, forallb_forall. split.
  - intros [Hk Hv]. split; [apply keys_unique_NoDup; exact Hk|exact Hv].
  - intros [Hk Hv]. split; [apply NoDup_keys_unique; exact Hk|exact Hv].
Qed.

Lemma json_data_num_or_zero (s : string) : json_data (VNum (num_or_zero (str_to_num s))) = true.
Proof. simpl. apply num_or_zero_ok, str_to_num_valid. Qed.

Lemma read_inputs_data (inputs : list (string * string)) (o : obj) :
  json_data (VObj o) = true -> json_data (VObj (fold_left read_input inputs o)) = true.
Proof.
  revert o. induction inputs as [|[t s] inputs IH]; intros o Ho; simpl; [exact Ho|].
  apply IH. unfold row_set. destruct (String.eqb t "__proto__"); [exact Ho|].
  apply json_data_obj in Ho as [Hk Hv]. apply json_data_obj. split.
  - apply obj_set_nodup. exact Hk.
  - apply (obj_set_values o t _ (fun x => json_data x = true)); [exact Hv|apply json_data_num_or_zero].
Qed.

Lemma own_get_canon (ps : obj) (k : string) :
  own_get (map (fun kv => (fst kv, json_canon (snd kv))) ps) k = option_map json_canon (own_get ps k).
Proof.
  induction ps as [|[k' v] ps IH]; simpl; [reflexivity|]. destruct (String.eqb k k'); [reflexivity|exact IH].
Qed.

Lemma own_get_In (ps : obj) (k : string) (v : val) : own_get ps k = Some v -> In (k, v) ps.
Proof.
  induction ps as [|[k' v'] ps IH]; simpl; [discriminate|].
  destruct (String.eqb_spec k k') as [->|_]; [intros H; injection H as ->; now left|].
  intros H. right. exact (IH H).
Qed.

Lemma find_app' {A} (f : A -> bool) (l1 l2 : list A) :
  List.find f (app l1 l2) = match List.find f l1 with Some x => Some x | None => List.find f l2 end.
Proof. induction l1 as [|x l1 IH]; simpl; [reflexivity|]. destruct (f x); [reflexivity|exact IH]. Qed.

Lemma own_get_read_inputs (inputs : list (string * string)) (o : obj) (k : string) :
  ~ In "__proto__" (map fst inputs) ->
  own_get (fold_left read_input inputs o) k =
  match List.find (fun ts => String.eqb (fst ts) k) (rev inputs) with
  | Some (_, s) => Some (VNum (num_or_zero (str_to_num s)))
  | None => own_get o k
  end.
Proof.
  revert o. induction inputs as [|[t s] inputs IH]; intros o Hp; simpl in *; [reflexivity|].
  rewrite IH by tauto. rewrite find_app'. cbn [List.find fst].
  destruct (List.find (fun ts => String.eqb (fst ts) k) (rev inputs)) as [[t' s']|]; [reflexivity|].
  unfold row_set. destruct (String.eqb_spec t "__proto__") as [E|_]; [subst; tauto|].
  destruct (String.eqb_spec t k) as [->|Hne].
  - apply own_get_obj_set_eq.
  - apply own_get_obj_set_neq. congruence.
Qed.

Lemma find_rev_unique (l : list (string * string)) (t s : string) :
  NoDup (map fst l) -> In (t, s) l ->
  List.find (fun ts => String.eqb (fst ts) t) (rev l) = Some (t, s).
Proof.
  intros Hnd Hin.
  destruct (List.find (fun ts => String.eqb (fst ts) t) (rev l)) as [[t' s']|] eqn:E.
  - apply find_some in E as [Hi Heq]. apply String.eqb_eq in Heq. cbn [fst] in Heq. subst t'.
    apply in_rev in Hi. f_equal. f_equal.
    induction l as [|[k x] l IH]; simpl in *; [tauto|].
    apply NoDup_cons in Hnd as [Hn Hnd]. rewrite list_elem_of_In in Hn.
    destruct Hi as [Hi|Hi], Hin as [Hin|Hin].
    + congruence.
    + inversion Hi; subst. exfalso. apply Hn. apply (in_map fst) in Hin. exact Hin.
    + inversion Hin; subst. exfalso. apply Hn. apply (in_map fst) in Hi. exact Hi.
    + exact (IH Hnd Hin Hi).
  - exfalso. eapply find_none in E; [|apply -> in_rev; exact Hin]. cbn [fst] in E.
    rewrite String.eqb_refl in E. discriminate.
Qed.

Lemma find_rev_absent (l : list (string * string)) (k : string) :
  ~ In k (map fst l) -> List.find (fun ts => String.eqb (fst ts) k) (rev l) = None.
Proof.
  intros Hn. destruct (List.find (fun ts => String.eqb (fst ts) k) (rev l)) as [[t s]|] eqn:E; [|reflexivity].
  apply find_some in E as [Hi Heq]. apply String.eqb_eq in Heq. cbn [fst] in Heq. subst.
  apply in_rev in Hi. apply (in_map fst) in Hi. contradiction.
Qed.

Lemma TIER_ORDER_NoDup : NoDup TIER_ORDER.
Proof. unfold TIER_ORDER. repeat constructor; set_solver. Qed.

(** The tier values read from the mapping grid are what the editor's
    [loadMapping] reads back from the store: when the current mapping is
    [json_ok], after [readMappingFromUI] over the ten grid inputs, a reload gives each tier the number [Number(value) || 0]
    of its input as [JSON] writes and reads it ([null] for the infinities),
    and every other key of the mapping keeps its value. *)
Theorem readMapping_reload (inputs : list (string * string)) (st : St) :
  json_ok (VObj (tierMapping st)) = true ->
  map fst inputs = TIER_ORDER ->
  let '(r, st1) := readMappingFromUI inputs st in
  r = Some tt /\
  exists tm, loadMapping st1 = (Some tm, st1) /\
    (forall t s, In (t, s) inputs -> own_get tm t = Some (num_json (num_or_zero (str_to_num s)))) /\
    (forall k, ~ In k TIER_ORDER -> own_get tm k = own_get (tierMapping st) k).
Proof.
  intros Hok Hk.
  set (tm1 := fold_left read_input inputs (tierMapping st)).
  assert (Hj : json_data (VObj tm1) = true)
    by (apply read_inputs_data; exact (proj1 (json_ok_data _ Hok))).
  assert (Hp : ~ In "__proto__" (map fst inputs)) by (rewrite Hk; simpl; intuition discriminate).
  assert (Hnd1 : NoDup (map fst (map (fun kv => (fst kv, json_canon (snd kv))) tm1))).
  { rewrite map_map. apply json_data_obj in Hj. exact (proj1 Hj). }
  cbv [readMappingFromUI saveMapping bind get_tm set_tm setItem emit]. cbn [players tierMapping editingId store log].
  fold tm1. split; [reflexivity|].
  exists (spread mappingDefault (VObj (map (fun kv => (fst kv, json_canon (snd kv))) tm1))). split.
  { cbv [loadMapping try_catch bind getItem lift ret]. cbn [store].
    rewrite lookup_insert_eq, (stringify_not_missing_data _ Hj). cbn [raw_text].
    rewrite (stringify_parse_data _ Hj). reflexivity. }
  split.
  - intros t s Hin. rewrite own_get_spread by exact Hnd1. rewrite own_get_canon.
    unfold tm1. rewrite own_get_read_inputs by exact Hp.
    rewrite (find_rev_unique inputs t s); [reflexivity| |exact Hin].
    rewrite Hk. exact TIER_ORDER_NoDup.
  - intros k Hn. rewrite own_get_spread by exact Hnd1. rewrite own_get_canon.
    unfold tm1. rewrite own_get_read_inputs by exact Hp.
    rewrite find_rev_absent by (rewrite Hk; exact Hn).
    destruct (own_get (tierMapping st) k) as [v|] eqn:E; cbn [option_map].
    + apply json_ok_obj in Hok as [_ Hv]. rewrite List.Forall_forall in Hv.
      specialize (Hv (k, v) (own_get_In _ _ _ E)). simpl in Hv.
      rewrite (proj2 (json_ok_data v Hv)). reflexivity.
    + apply own_get_not_in. exact Hn.
Qed.

Lemma readMapping_reload_witness :
  let '(r, st1) := readMappingFromUI
    [("LT5", "15"); ("HT5", "abc"); ("LT4", ""); ("HT4", "10.5"); ("LT3", "1e400"); ("HT3", "-0"); ("LT2", "0x10"); ("HT2", "80"); ("LT1", "90"); ("HT1", "-5")]
     (mkSt [] (app mappingDefault [("extra", VNum (num_of_Z 3))]) None ∅ []) in
  r = Some tt /\
  exists tm, loadMapping st1 = (Some tm, st1) /\
    (forall t s, In (t, s)
    [("LT5", "15"); ("HT5", "abc"); ("LT4", ""); ("HT4", "10.5"); ("LT3", "1e400"); ("HT3", "-0"); ("LT2", "0x10"); ("HT2", "80"); ("LT1", "90"); ("HT1", "-5")]
     -> own_get tm t = Some (num_json (num_or_zero (str_to_num s)))) /\
    (forall k, ~ In k TIER_ORDER -> own_get tm k = own_get (app mappingDefault [("extra", VNum (num_of_Z 3))]) k).
Proof.
  apply (readMapping_reload
    [("LT5", "15"); ("HT5", "abc"); ("LT4", ""); ("HT4", "10.5"); ("LT3", "1e400"); ("HT3", "-0"); ("LT2", "0x10"); ("HT2", "80"); ("LT1", "90"); ("HT1", "-5")]
     (mkSt [] (app mappingDefault [("extra", VNum (num_of_Z 3))]) None ∅ []));
    vm_compute; reflexivity.
Defined.

(** A confirmed reset installs the default mapping, and both the editor's and
    the viewer's [loadMapping] read exactly that mapping back from the store;
    a cancelled reset changes nothing. *)
Theorem resetMapping_reload (st : St) :
  (let '(r, st1) := resetMappingToDefault true st in
   r = Some tt /\ tierMapping st1 = mappingDefault /\
   loadMapping st1 = (Some mappingDefault, st1) /\
   View.loadMapping st1 = (Some (VObj mappingDefault), st1)) /\
  resetMappingToDefault false st = (Some tt, st).
Proof.
  split; [|reflexivity].
  cbv [resetMappingToDefault negb bind set_tm saveMapping get_tm setItem emit populateMappingUI ret].
  cbn [players tierMapping editingId store log].
  assert (Hs : spread [] (VObj mappingDefault) = mappingDefault) by reflexivity.
  rewrite Hs. change (forallb _ TIER_ORDER) with true. cbn iota.
  split; [reflexivity|]. split; [reflexivity|].
  assert (Hj : json_ok (VObj mappingDefault) = true) by reflexivity.
  split; cbv [loadMapping View.loadMapping try_catch bind getItem lift ret]; cbn [store];
    rewrite lookup_insert_eq, (stringify_not_missing _ Hj); cbn [raw_text];
    rewrite (stringify_parse _ Hj); reflexivity.
Qed.

(** A confirmed Clear stores the empty list under the players key, and a
    later [loadPlayers] (editor or viewer) reads [[]] back without restoring
    the example data; a cancelled Clear changes nothing. *)
Theorem clearPlayers_persists (st : St) :
  (let '(r, st1) := clearPlayers true st in
   r = Some tt /\ players st1 = [] /\
   store st1 = <[STORAGE_KEY := "[]"]> (store st) /\
   loadPlayers st1 = (Some [], st1) /\
   View.loadPlayers st1 = (Some [], st1)) /\
  clearPlayers false st = (Some tt, st).
Proof.
  split; [|reflexivity].
  cbv [clearPlayers negb bind set_players savePlayers get_players setItem emit
       populateTierFilter applyFiltersAndRender ret].
  cbn [players tierMapping editingId store log forallb].
  change (JSON_stringify (VArr [])) with "[]".
  split; [reflexivity|]. split; [reflexivity|]. split; [reflexivity|].
  split; cbv [loadPlayers View.loadPlayers try_catch bind getItem lift ret]; cbn [store];
    rewrite lookup_insert_eq; reflexivity.
Qed.

(* ------------------------------------------------------------------ *)
(** ** Server status card *)

Import App.

Lemma setText_other (id k : string) (v : val) (pg pg' : Page) :
  id <> k -> setText id v pg = Some pg' -> pg' !! k = pg !! k.
Proof.
  intros Hne. unfold setText. destruct (pg !! id) as [el|]; [|congruence].
  destruct (dom_string v) as [s|]; cbn [mbind option_bind]; [|discriminate].
  intros E. injection E as <-. apply lookup_insert_ne. exact Hne.
Qed.

Lemma setText_str (id s : string) (pg : Page) :
  setText id (VStr s) pg = Some (match pg !! id with
                                 | Some el => <[id := mkElem s (el_href el)]> pg
                                 | None => pg end).
Proof. unfold setText. destruct (pg !! id); reflexivity. Qed.

Lemma setText_str_lookup (id s : string) (pg : Page) :
  exists pg', setText id (VStr s) pg = Some pg' /\
    forall k, pg' !! k = if String.eqb k id then option_map (fun el => mkElem s (el_href el)) (pg !! k)
                         else pg !! k.
Proof.
  rewrite setText_str. eexists. split; [reflexivity|]. intros k.
  destruct (String.eqb_spec k id) as [->|Hne].
  - destruct (pg !! id) eqn:E; [apply lookup_insert_eq|exact E].
  - destruct (pg !! id); [apply lookup_insert_ne; congruence|reflexivity].
Qed.

Lemma setText_num (id : string) (n : num) (pg : Page) :
  exists pg', setText id (VNum n) pg = Some pg'.
Proof. unfold setText. destruct (pg !! id); eauto. Qed.

Ltac split_first :=
  match goal with
  | |- context [match ?e with _ => _ end] => let E := fresh "E" in destruct e eqn:E
  end.

(** With no global [host], a successful status fetch never updates the
    connect link: whatever the data, [#srv-connect] keeps its text and
    [href], and when the page has that element the update ends in an
    exception. *)
Theorem updateServerCard_no_host (year : Z) (data : val) (pg : Page) :
  truthy data = true ->
  snd (updateServerCard year None (Some data) pg) !! "srv-connect" = pg !! "srv-connect" /\
  (pg !! "srv-connect" <> None -> fst (updateServerCard year None (Some data) pg) = None).
Proof.
  intros Ht. unfold updateServerCard.
  destruct (setText_num "year" (num_of_Z year) pg) as [pg1 E1]. rewrite E1. rewrite Ht. cbn [negb].
  repeat split_first;
  repeat match goal with
         | E : setText ?i _ ?p = Some ?p' |- _ =>
             let Hne := fresh "Hne" in
             assert (Hne : i <> "srv-connect") by discriminate;
             pose proof (setText_other i "srv-connect" _ p p' Hne E); clear E Hne
         end;
  cbn [fst snd option_map] in *; split; try congruence; intros; congruence.
Qed.

Lemma updateServerCard_no_host_witness :
  snd (updateServerCard 2026 None (Some (VObj [("online", VBool true); ("hostname", VStr "mc")]))
         (<["srv-connect" := mkElem "Connect" "#"]> ∅)) !! "srv-connect" =
    (<["srv-connect" := mkElem "Connect" "#"]> (∅ : Page)) !! "srv-connect" /\
  ((<["srv-connect" := mkElem "Connect" "#"]> (∅ : Page)) !! "srv-connect" <> None ->
   fst (updateServerCard 2026 None (Some (VObj [("online", VBool true); ("hostname", VStr "mc")]))
          (<["srv-connect" := mkElem "Connect" "#"]> ∅)) = None).
Proof. apply updateServerCard_no_host. reflexivity. Defined.
(** When the status fetch fails, the card shows the fallback texts in the
    elements the page has, the connect link (if any) points at
    [serverToCheck], and the update completes without an exception. *)
Theorem updateServerCard_fetch_failed (year : Z) (host : option val) (pg : Page) :
  fst (updateServerCard year host None pg) = Some tt /\
  snd (updateServerCard year host None pg) !! "srv-connect" =
    option_map (fun _ => mkElem ("Connect: " ++ serverToCheck) ("minecraft:///" ++ serverToCheck))
               (pg !! "srv-connect") /\
  forall id txt, In (id, txt) [("srv-name", "Unable to fetch status"); ("srv-motd", EmptyString);
                               ("srv-online", "Unknown"); ("srv-players", em_dash)] ->
    snd (updateServerCard year host None pg) !! id =
    option_map (fun el => mkElem txt (el_href el)) (pg !! id).
Proof.
  unfold updateServerCard.
  destruct (setText_num "year" (num_of_Z year) pg) as [pg1 E1]. rewrite E1. cbn [truthy negb].
  destruct (setText_str_lookup "srv-name" "Unable to fetch status" pg1) as [pg2 [E2 L2]]. rewrite E2.
  destruct (setText_str_lookup "srv-motd" EmptyString pg2) as [pg3 [E3 L3]]. rewrite E3.
  destruct (setText_str_lookup "srv-online" "Unknown" pg3) as [pg4 [E4 L4]]. rewrite E4.
  destruct (setText_str_lookup "srv-players" em_dash pg4) as [pg5 [E5 L5]]. rewrite E5.
  assert (L1 : forall k, k <> "year" -> pg1 !! k = pg !! k)
    by (intros k Hk; exact (setText_other "year" k _ pg pg1 (not_eq_sym Hk) E1)).
  assert (Hc : pg5 !! "srv-connect" = pg !! "srv-connect")
    by (rewrite L5, L4, L3, L2; cbn; apply L1; discriminate).
  rewrite Hc. split; [destruct (pg !! "srv-connect"); reflexivity|]. split.
  - destruct (pg !! "srv-connect"); cbn [fst snd option_map]; [apply lookup_insert_eq|exact Hc].
  - intros id txt Hin.
    assert (Hs : snd (match pg !! "srv-connect" with
                      | Some _ => (Some tt, <["srv-connect" := mkElem ("Connect: " ++ serverToCheck)
                                                   ("minecraft:///" ++ serverToCheck)]> pg5)
                      | None => (Some tt, pg5) end) !! id = pg5 !! id).
    { assert (id <> "srv-connect") by (simpl in Hin; intuition congruence).
      destruct (pg !! "srv-connect"); cbn [snd]; [apply lookup_insert_ne; congruence|reflexivity]. }
    rewrite Hs, L5, L4, L3, L2.
    simpl in Hin. destruct Hin as [E|[E|[E|[E|[]]]]]; injection E as <- <-; cbn;
      rewrite L1 by discriminate; reflexivity.
Qed.

(* ------------------------------------------------------------------ *)
(** ** CSV lines and records *)

Lemma splitCSVLine_go_plain (s : string) (res : list string) (cur : string) :
  no_char dq s = true ->
  exists fs, splitCSVLine_go s res cur false = app res fs /\ fs <> [] /\
    join "," fs = cur ++ s /\
    (no_char "," cur = true -> Forall (fun f => no_char "," f = true) fs).
Proof.
  revert res cur. induction s as [|c r IH]; intros res cur Hs.
  - exists [cur]. split; [reflexivity|]. split; [discriminate|]. split; [symmetry; apply sapp_nil|].
    intros Hc. exact (@List.Forall_cons _ _ cur [] Hc (List.Forall_nil _)).
  - unfold no_char in Hs. cbn [all_chars] in Hs. apply andb_true_iff in Hs as [Hc Hr].
    apply negb_true_iff in Hc. cbn [splitCSVLine_go]. rewrite Hc. cbn [negb andb].
    destruct (Ascii.eqb_spec c ",") as [->|Hne].
    + destruct (IH (app res [cur]) EmptyString Hr) as [fs [E [Hn [J F]]]].
      exists (cur :: fs). rewrite E, <- app_assoc. split; [reflexivity|]. split; [discriminate|].
      split.
      * destruct fs as [|f fs]; [congruence|]. change (join "," (cur :: f :: fs))
          with (cur ++ "," ++ join "," (f :: fs)). rewrite J. reflexivity.
      * intros Hcur. apply (@List.Forall_cons _ _ cur fs Hcur). apply F. reflexivity.
    + destruct (IH res (cur ++ str1 c) Hr) as [fs [E [Hn [J F]]]].
      exists fs. split; [exact E|]. split; [exact Hn|]. split.
      * rewrite J, sapp_assoc. reflexivity.
      * intros Hcur. apply F. unfold no_char. rewrite all_chars_app. unfold no_char in Hcur.
        rewrite Hcur. cbn. destruct (Ascii.eqb_spec c ","); [congruence|reflexivity].
Qed.

(** A CSV line without double quotes is split at every comma: the fields
    contain no comma and, joined with commas, give the line back. *)
Theorem splitCSVLine_plain (line : string) :
  no_char dq line = true ->
  join "," (splitCSVLine line) = line /\
  Forall (fun f => no_char "," f = true) (splitCSVLine line).
Proof.
  intros H. destruct (splitCSVLine_go_plain line [] EmptyString H) as [fs [E [_ [J F]]]].
  unfold splitCSVLine. rewrite E. split; [exact J|]. apply F. reflexivity.
Qed.

Lemma splitCSVLine_plain_witness :
  join "," (splitCSVLine "1,Steve, HT1 ,,100") = "1,Steve, HT1 ,,100" /\
  Forall (fun f => no_char "," f = true) (splitCSVLine "1,Steve, HT1 ,,100").
Proof. apply splitCSVLine_plain. vm_compute. reflexivity. Defined.

Section CsvRow.
Variable vals : list string.

Lemma csv_fold_untouched (l : list (nat * string)) (acc : obj) (h : string) :
  (h = "__proto__" \/ ~ In h (map snd l)) ->
  own_get (fold_left (fun o '(i, h) => row_set o h (VStr (match nth_error vals i with
                                                         | Some v => v
                                                         | None => EmptyString end))) l acc) h =
  own_get acc h.
Proof.
  revert acc. induction l as [|[i h'] l IH]; intros acc Hh; simpl in *; [reflexivity|].
  rewrite IH by tauto. unfold row_set.
  destruct (String.eqb_spec h' "__proto__") as [E|E]; [reflexivity|].
  apply own_get_obj_set_neq. intuition congruence.
Qed.

Lemma csv_fold_last (hs : list string) (k i : nat) (acc : obj) (h : string) :
  h <> "__proto__" -> nth_error hs i = Some h ->
  (forall i', i < i' -> nth_error hs i' <> Some h) ->
  own_get (fold_left (fun o '(i, h) => row_set o h (VStr (match nth_error vals i with
                                                         | Some v => v
                                                         | None => EmptyString end)))
                     (combine (seq k (length hs)) hs) acc) h =
  Some (csv_cell vals (k + i)).
Proof.
  revert k i acc. induction hs as [|h0 hs IH]; intros k i acc Hp Hi Hlast; [destruct i; discriminate|].
  cbn [length seq combine fold_left].
  destruct i as [|i].
  - cbn in Hi. injection Hi as ->.
    rewrite csv_fold_untouched.
    + unfold row_set. destruct (String.eqb_spec h "__proto__"); [congruence|].
      rewrite own_get_obj_set_eq. unfold csv_cell. rewrite Nat.add_0_r. reflexivity.
    + right. intros Hin. apply in_map_iff in Hin as [[j h1] [Hj Hin]]. cbn in Hj. subst h1.
      apply in_combine_l in Hin as Hj'. apply in_combine_r in Hin.
      apply In_nth_error in Hin as [n Hn]. apply (Hlast (S n)); [lia|exact Hn].
  - replace (k + S i) with (S k + i) by lia.
    apply IH; [exact Hp|exact Hi|]. intros i' Hi'. apply (Hlast (S i')). lia.
Qed.

End CsvRow.

(** [parseCSV] gives one record per non-blank line after the header line.
    In each record, a header other than [__proto__] maps to the field in the
    last column with that header, or to [""] when the line is shorter; the
    record has no other own property, and none named [__proto__]. *)
Theorem parseCSV_records (text l0 : string) (rest : list string) :
  filter (fun l => negb (String.eqb (trim l) EmptyString)) (split_lines text EmptyString) = l0 :: rest ->
  let headers := map (fun h => lower (trim h)) (splitCSVLine l0) in
  length (parseCSV text) = length rest /\
  forall j line r, nth_error rest j = Some line -> nth_error (parseCSV text) j = Some r ->
    (forall h, (h = "__proto__" \/ ~ In h headers) -> own_get r h = None) /\
    (forall i h, nth_error headers i = Some h -> h <> "__proto__" ->
       (forall i', i < i' -> nth_error headers i' <> Some h) ->
       own_get r h = Some (VStr (match nth_error (splitCSVLine line) i with
                                 | Some v => v
                                 | None => EmptyString end))).
Proof.
  intros Hl headers. unfold parseCSV. rewrite Hl. fold headers. split; [apply length_map|].
  intros j line r Hj Hr. rewrite nth_error_map, Hj in Hr. cbn in Hr. injection Hr as <-.
  split.
  - intros h Hh. rewrite csv_fold_untouched; [reflexivity|].
    destruct Hh as [Hh|Hh]; [left; exact Hh|right].
    intros Hin. apply in_map_iff in Hin as [[i h1] [E Hin]]. cbn in E. subst h1.
    apply in_combine_r in Hin. contradiction.
  - intros i h Hi Hp Hlast. rewrite (csv_fold_last (splitCSVLine line) headers 0 i [] h Hp Hi Hlast).
    reflexivity.
Qed.

Lemma parseCSV_records_witness :
  let headers := map (fun h => lower (trim h)) (splitCSVLine "Rank,Name,tier,name") in
  length (parseCSV ("Rank,Name,tier,name" ++ nl ++ nl ++ "1,Ann,HT1,Bo" ++ nl ++ "2")) =
    length ["1,Ann,HT1,Bo"; "2"] /\
  forall j line r, nth_error ["1,Ann,HT1,Bo"; "2"] j = Some line ->
    nth_error (parseCSV ("Rank,Name,tier,name" ++ nl ++ nl ++ "1,Ann,HT1,Bo" ++ nl ++ "2")) j = Some r ->
    (forall h, (h = "__proto__" \/ ~ In h headers) -> own_get r h = None) /\
    (forall i h, nth_error headers i = Some h -> h <> "__proto__" ->
       (forall i', i < i' -> nth_error headers i' <> Some h) ->
       own_get r h = Some (VStr (match nth_error (splitCSVLine line) i with
                                 | Some v => v
                                 | None => EmptyString end))).
Proof.
  apply (parseCSV_records ("Rank,Name,tier,name" ++ nl ++ nl ++ "1,Ann,HT1,Bo" ++ nl ++ "2")).
  vm_compute. reflexivity.
Defined.

